(** * A prop-bet contest: scoring, ordering and settings of [app.py]

    The application is a Flask program over five SQLAlchemy tables.  The
    development below embeds the tables as lists of rows, the request
    handlers as functions from the store to an outcome (reply and new store,
    or an exception and the last committed store), and states the properties
    of the scoring engine, of the ordering of the props and of the settings
    flags over that embedding.

    Conventions of the embedding:
    - Python integers are [Z]; text is [string], the character with code
      [c] standing for the code point [c], so that the texts are those over
      the code points below 256;
    - the store is the one the program configures by default (an SQLite
      file): a new row receives the rowid one above the largest rowid in
      its table (the rowids stay below the largest integer of 64 bits),
      foreign keys are declared but not enforced, an integer outside 64
      bits cannot be bound to a statement (the driver raises
      [OverflowError], at the flush or commit that sends the statement),
      [lower()] lowers the ASCII letters only, and a [unique] column
      refuses a value it already holds ([IntegrityError]);
    - a request that ends in an exception leaves the store as the last
      commit made it;
    - the [created_at] columns and the id of the settings row play no part
      in any handler and are left out. *)

From Stdlib Require Import ZArith List Bool String Ascii Lia.
From Stdlib Require Import Permutation Sorted.
Import ListNotations.
Open Scope Z_scope.

(** ** Models *)

Record Settings := mkSettings {
  game_started : bool;
  submissions_locked : bool
}.

Module Prop_.
Record t := mk {
  id : Z;
  question : string;
  note : option string;
  order : Z;
  resolved : bool;
  correct_answer_id : option Z
}.
End Prop_.

Module Answer.
Record t := mk {
  id : Z;
  prop_id : Z;
  text : string;
  points : Z;
  order : Z
}.
End Answer.

Module Entry.
Record t := mk {
  id : Z;
  name : string
}.
End Entry.

Module Pick.
Record t := mk {
  id : Z;
  entry_id : Z;
  prop_id : Z;
  answer_id : Z
}.
End Pick.

(** The database: [Settings.query.first()] is the optional row of the
    settings table, the other tables are listed in rowid order. *)
Record Store := mkStore {
  settings : option Settings;
  props : list Prop_.t;
  answers : list Answer.t;
  entries : list Entry.t;
  picks : list Pick.t
}.

Definition set_settings (s : Store) (v : option Settings) : Store :=
  mkStore v (props s) (answers s) (entries s) (picks s).

Definition set_props (s : Store) (v : list Prop_.t) : Store :=
  mkStore (settings s) v (answers s) (entries s) (picks s).

Definition set_answers (s : Store) (v : list Answer.t) : Store :=
  mkStore (settings s) (props s) v (entries s) (picks s).

Definition set_entries (s : Store) (v : list Entry.t) : Store :=
  mkStore (settings s) (props s) (answers s) v (picks s).

Definition set_picks (s : Store) (v : list Pick.t) : Store :=
  mkStore (settings s) (props s) (answers s) (entries s) v.

(** The rowid SQLite gives to an inserted row. *)
Definition next_rowid (ids : list Z) : Z := 1 + fold_right Z.max 0 ids.

(** ** Python values *)

Inductive Exn :=
| AttributeError
| ValueError
| IndexError
| OverflowError
| IntegrityError.

Inductive result (A : Type) :=
| Ok (a : A)
| Raise (e : Exn).
Arguments Ok {A} a.
Arguments Raise {A} e.

(** [x == y] for [x] an optional integer ([None] or an [int]) and [y] an
    [int]. *)
Definition py_eq (x : option Z) (y : Z) : bool :=
  match x with
  | Some v => v =? y
  | None => false
  end.

(** The integers SQLite stores, and the driver binds: those of 64 bits. *)
Definition in_int64 (z : Z) : bool := (- 2 ^ 63 <=? z) && (z <? 2 ^ 63).

(** [str.isspace] on the code points below 256: the controls 9 to 13 and 28
    to 31, the space, NEL (133) and the no-break space (160). *)
Definition isspace (c : ascii) : bool :=
  let n := nat_of_ascii c in
  ((9 <=? n) && (n <=? 13) || (28 <=? n) && (n <=? 32)
   || (n =? 133) || (n =? 160))%nat.

Fixpoint lstrip (s : string) : string :=
  match s with
  | EmptyString => EmptyString
  | String c r => if isspace c then lstrip r else s
  end.

Fixpoint rstrip (s : string) : string :=
  match s with
  | EmptyString => EmptyString
  | String c r =>
      match rstrip r with
      | EmptyString => if isspace c then EmptyString else String c EmptyString
      | r' => String c r'
      end
  end.

Definition strip (s : string) : string := lstrip (rstrip s).

(** [str.lower] on a code point below 256: the capitals are A to Z and, in
    the upper half, 192 to 222 without the multiplication sign (215). *)
Definition lower_char (c : ascii) : ascii :=
  let n := nat_of_ascii c in
  if ((65 <=? n) && (n <=? 90)
      || (192 <=? n) && (n <=? 222) && negb (n =? 215))%nat
  then ascii_of_nat (n + 32) else c.

(** Python's [str.lower]. *)
Fixpoint lower (s : string) : string :=
  match s with
  | EmptyString => EmptyString
  | String c r => String (lower_char c) (lower r)
  end.

Definition sql_lower_char (c : ascii) : ascii :=
  let n := nat_of_ascii c in
  if ((65 <=? n) && (n <=? 90))%nat then ascii_of_nat (n + 32) else c.

(** SQLite's [lower()], which the query of [prop_sheet] applies to the
    stored names: only A to Z are lowered. *)
Fixpoint sql_lower (s : string) : string :=
  match s with
  | EmptyString => EmptyString
  | String c r => String (sql_lower_char c) (sql_lower r)
  end.

(** Truth value of a string: [if s:]. *)
Definition truthy (s : string) : bool := negb (String.eqb s EmptyString).

(** A posted form value, by what [if v:] and [int(v)] make of it: absent or
    empty, text that [int] reads as [z], other text (on which [int] raises
    [ValueError]). *)
Inductive Field :=
| Blank
| Digits (z : Z)
| Junk.

(** ** Relationships *)

(** [Prop.query.get(prop_id)]. *)
Definition find_prop (s : Store) (prop_id : Z) : option Prop_.t :=
  find (fun p => Prop_.id p =? prop_id) (props s).

(** [Answer.query.get(answer_id)]. *)
Definition find_answer (s : Store) (answer_id : Z) : option Answer.t :=
  find (fun a => Answer.id a =? answer_id) (answers s).

(** [Entry.query.get(entry_id)]. *)
Definition find_entry (s : Store) (entry_id : Z) : option Entry.t :=
  find (fun e => Entry.id e =? entry_id) (entries s).

(** [pick.prop]: the row the foreign key names, [None] when there is none. *)
Definition pick_prop (s : Store) (pick : Pick.t) : option Prop_.t :=
  find_prop s (Pick.prop_id pick).

(** [pick.answer]. *)
Definition pick_answer (s : Store) (pick : Pick.t) : option Answer.t :=
  find_answer s (Pick.answer_id pick).

(** [entry.picks]. *)
Definition entry_picks (s : Store) (entry : Entry.t) : list Pick.t :=
  filter (fun k => Pick.entry_id k =? Entry.id entry) (picks s).

(** ** Helpers *)

(** [get_settings]: the settings row, inserted with the column defaults and
    committed when the table is empty. *)
Definition get_settings (s : Store) : Settings * Store :=
  match settings s with
  | Some st => (st, s)
  | None =>
      let st := mkSettings false false in
      (st, set_settings s (Some st))
  end.

(** The loop of [calculate_score], with the running [total].  Reading an
    attribute of [None] raises [AttributeError]. *)
Fixpoint score_loop (s : Store) (l : list Pick.t) (total : Z) : result Z :=
  match l with
  | [] => Ok total
  | pick :: rest =>
      match pick_prop s pick with
      | None => Raise AttributeError
      | Some prop =>
          if Prop_.resolved prop
             && py_eq (Prop_.correct_answer_id prop) (Pick.answer_id pick)
          then
            match pick_answer s pick with
            | None => Raise AttributeError
            | Some answer => score_loop s rest (total + Answer.points answer)
            end
          else score_loop s rest total
      end
  end.

Definition calculate_score (s : Store) (entry : Entry.t) : result Z :=
  score_loop s (entry_picks s entry) 0.

Inductive Status := pending | correct | incorrect.

Definition get_pick_status (s : Store) (pick : Pick.t) : result Status :=
  match pick_prop s pick with
  | None => Raise AttributeError
  | Some prop =>
      if negb (Prop_.resolved prop) then Ok pending
      else if py_eq (Prop_.correct_answer_id prop) (Pick.answer_id pick)
           then Ok correct
           else Ok incorrect
  end.

(** ** Requests and replies *)

Inductive Method := GET | POST.

Inductive Endpoint :=
| ep_index
| ep_submit_success (entry_id : Z)
| ep_admin_login
| ep_admin_dashboard
| ep_admin_props
| ep_admin_add_prop
| ep_admin_answers
| ep_admin_entries.

Inductive Category := success | error.

(** The messages the handlers flash; [category] gives the second argument of
    the call. *)
Inductive Flash :=
| SubmissionsClosed
| EnterYourName
| EntryExists (name : string)
| PicksSubmitted (name : string)
| GameStarted
| GameStopped
| SubmissionsLocked
| SubmissionsUnlocked
| QuestionRequired
| PropAdded
| PropUpdated
| PropDeleted
| PropNotFound
| MarkedCorrect (question50 : string)
| Unresolved (question50 : string)
| DeletedEntry (name : string).

Definition category (m : Flash) : Category :=
  match m with
  | SubmissionsClosed | EnterYourName | EntryExists _
  | QuestionRequired | PropNotFound => error
  | _ => success
  end.

Record Standing := mkStanding {
  st_name : string;
  st_score : Z;
  st_id : Z
}.

Inductive Body :=
| ErrorBody (msg : string)
| StandingsBody (standings : list Standing) (resolved_count total_count : Z).

Inductive Response :=
| Redirect (target : Endpoint)
| Render (template : string)
| Jsonify (body : Body) (status : Z)
| NotFound404.

(** What a request leaves behind: a reply with the store as committed, or an
    uncaught exception, after which the session is rolled back to the last
    commit. *)
Inductive Outcome :=
| Done (flash : option Flash) (resp : Response) (s : Store)
| Failed (e : Exn) (s : Store).

Definition store_after (o : Outcome) : Store :=
  match o with
  | Done _ _ s => s
  | Failed _ s => s
  end.

(** [get_or_404] on an id that no row has: a 404, or [OverflowError] from
    the driver when the id cannot be bound to the query.  (A row is found
    before the question arises: no stored id is outside 64 bits.) *)
Definition not_found (id : Z) (s : Store) : Outcome :=
  if in_int64 id then Done None NotFound404 s else Failed OverflowError s.

(** [admin_required]: without the session flag the wrapped view is not
    run.  For each admin route, [<route>_view] below is the function under
    the decorator and [<route>] the decorated one. *)
Definition admin_required (f : Store -> Outcome) (is_admin : bool)
  : Store -> Outcome :=
  fun s => if is_admin then f s else Done None (Redirect ep_admin_login) s.

(** The form of [/prop-sheet]: the [name] field and the [prop_<id>] fields. *)
Record SheetForm := mkSheetForm {
  sf_name : string;
  sf_prop : Z -> Field
}.

(** The form of the add and edit pages. *)
Record PropForm := mkPropForm {
  pf_question : string;
  pf_note : string;
  pf_answer_text : list string;
  pf_answer_points : list Field
}.

(** ** The ordered list of props *)

(** [(order, id)] ascending. *)
Definition prop_leb (p q : Prop_.t) : bool :=
  (Prop_.order p <? Prop_.order q)
  || ((Prop_.order p =? Prop_.order q) && (Prop_.id p <=? Prop_.id q)).

Fixpoint insert_prop (p : Prop_.t) (l : list Prop_.t) : list Prop_.t :=
  match l with
  | [] => [p]
  | q :: r => if prop_leb p q then p :: q :: r else q :: insert_prop p r
  end.

(** [Prop.query.order_by(Prop.order, Prop.id).all()]. *)
Definition ordered_props (s : Store) : list Prop_.t :=
  fold_right insert_prop [] (props s).

(** [next((i for i, p in enumerate(props) if p.id == prop_id), None)]. *)
Fixpoint current_index (prop_id : Z) (l : list Prop_.t) : option nat :=
  match l with
  | [] => None
  | p :: r =>
      if Prop_.id p =? prop_id then Some O
      else option_map S (current_index prop_id r)
  end.

Definition with_order (p : Prop_.t) (v : Z) : Prop_.t :=
  Prop_.mk (Prop_.id p) (Prop_.question p) (Prop_.note p) v
           (Prop_.resolved p) (Prop_.correct_answer_id p).

(** Assignment to the [order] attribute of the row with the given id. *)
Definition set_order (prop_id v : Z) (l : list Prop_.t) : list Prop_.t :=
  map (fun p => if Prop_.id p =? prop_id then with_order p v else p) l.

(** The body shared by the two branches of [admin_move_prop]: the orders are
    swapped, and when the two are equal the moved prop is pushed by [nudge]. *)
Definition swap_orders (prop other : Prop_.t) (nudge : Z) (l : list Prop_.t)
  : list Prop_.t :=
  let l1 := set_order (Prop_.id prop) (Prop_.order other) l in
  let l2 := set_order (Prop_.id other) (Prop_.order prop) l1 in
  if Prop_.order other =? Prop_.order prop
  then set_order (Prop_.id prop) (Prop_.order other + nudge) l2
  else l2.

(** The end shared by the two branches of [admin_move_prop]:
    [db.session.commit()] writes the orders.  The two that are swapped come
    from the store; an order pushed by [nudge] is new, and is refused when
    it is outside 64 bits. *)
Definition commit_swap (prop other : Prop_.t) (nudge : Z) (s : Store)
  : Outcome :=
  if (Prop_.order other =? Prop_.order prop)
     && negb (in_int64 (Prop_.order other + nudge))
  then Failed OverflowError s
  else Done None (Redirect ep_admin_props)
            (set_props s (swap_orders prop other nudge (props s))).

Definition admin_move_prop_view (prop_id : Z) (direction : string) (s : Store)
  : Outcome :=
  match find_prop s prop_id with
  | None => not_found prop_id s
  | Some prop =>
      let sorted := ordered_props s in
      match current_index prop_id sorted with
      | None => Done (Some PropNotFound) (Redirect ep_admin_props) s
      | Some i =>
          if String.eqb direction "up"%string && (0 <? i)%nat then
            match nth_error sorted (i - 1) with
            | None => Failed IndexError s
            | Some other => commit_swap prop other (-1) s
            end
          else if String.eqb direction "down"%string
                  && (i <? List.length sorted - 1)%nat then
            match nth_error sorted (i + 1) with
            | None => Failed IndexError s
            | Some other => commit_swap prop other 1 s
            end
          else Done None (Redirect ep_admin_props) s
      end
  end.

Definition admin_move_prop (prop_id : Z) (direction : string)
  : bool -> Store -> Outcome :=
  admin_required (admin_move_prop_view prop_id direction).

(** ** Public submission *)

(** The loop over the props of [prop_sheet]: a pick is added for each prop
    whose form field is set. *)
Fixpoint save_picks (form : SheetForm) (entry_id : Z) (l : list Prop_.t)
  (tbl : list Pick.t) : result (list Pick.t) :=
  match l with
  | [] => Ok tbl
  | prop :: rest =>
      match sf_prop form (Prop_.id prop) with
      | Blank => save_picks form entry_id rest tbl
      | Junk => Raise ValueError
      | Digits answer_id =>
          let pick := Pick.mk (next_rowid (map Pick.id tbl)) entry_id
                              (Prop_.id prop) answer_id in
          save_picks form entry_id rest (tbl ++ [pick])
      end
  end.

Definition prop_sheet (method : Method) (form : SheetForm) (s0 : Store)
  : Outcome :=
  let (st, s) := get_settings s0 in
  if submissions_locked st then
    Done (Some SubmissionsClosed) (Redirect ep_index) s
  else
    let sorted := ordered_props s in
    match method with
    | POST =>
        let name := strip (sf_name form) in
        if negb (truthy name) then
          Done (Some EnterYourName) (Render "prop_sheet.html") s
        else
          match find (fun e => String.eqb (sql_lower (Entry.name e))
                                          (lower name))
                     (entries s) with
          | Some _ => Done (Some (EntryExists name)) (Render "prop_sheet.html") s
          | None =>
              (* db.session.flush(): the entry is inserted *)
              if existsb (fun e => String.eqb (Entry.name e) name) (entries s)
              then Failed IntegrityError s
              else
                let entry := Entry.mk (next_rowid (map Entry.id (entries s)))
                                      name in
                match save_picks form (Entry.id entry) sorted (picks s) with
                | Raise e => Failed e s
                | Ok picks' =>
                    (* db.session.commit(): the picks are inserted *)
                    if forallb (fun k => in_int64 (Pick.answer_id k))
                               (skipn (List.length (picks s)) picks')
                    then
                      Done (Some (PicksSubmitted name))
                           (Redirect (ep_submit_success (Entry.id entry)))
                           (set_picks (set_entries s (entries s ++ [entry]))
                                      picks')
                    else Failed OverflowError s
                end
          end
    | GET => Done None (Render "prop_sheet.html") s
    end.

(** ** Settings *)

Definition with_game_started (st : Settings) (v : bool) : Settings :=
  mkSettings v (submissions_locked st).

Definition with_submissions_locked (st : Settings) (v : bool) : Settings :=
  mkSettings (game_started st) v.

Definition admin_settings_view (action : string) (s0 : Store) : Outcome :=
  let (st, s) := get_settings s0 in
  if String.eqb action "start_game" then
    let st1 := with_game_started st true in
    let st2 := with_submissions_locked st1 true in
    Done (Some GameStarted) (Redirect ep_admin_dashboard)
         (set_settings s (Some st2))
  else if String.eqb action "stop_game" then
    Done (Some GameStopped) (Redirect ep_admin_dashboard)
         (set_settings s (Some (with_game_started st false)))
  else if String.eqb action "lock_submissions" then
    Done (Some SubmissionsLocked) (Redirect ep_admin_dashboard)
         (set_settings s (Some (with_submissions_locked st true)))
  else if String.eqb action "unlock_submissions" then
    Done (Some SubmissionsUnlocked) (Redirect ep_admin_dashboard)
         (set_settings s (Some (with_submissions_locked st false)))
  else Done None (Redirect ep_admin_dashboard) s.

Definition admin_settings (action : string) : bool -> Store -> Outcome :=
  admin_required (admin_settings_view action).

(** The flags as the next request sees them ([get_settings] fills in the
    defaults). *)
Definition started (s : Store) : bool := game_started (fst (get_settings s)).

Definition locked (s : Store) : bool :=
  submissions_locked (fst (get_settings s)).

(** ** Props and answers *)

(** [db.session.query(db.func.max(Prop.order)).scalar()]: [None] on an empty
    table. *)
Fixpoint sql_max (l : list Z) : option Z :=
  match l with
  | [] => None
  | x :: r =>
      match sql_max r with
      | None => Some x
      | Some m => Some (Z.max x m)
      end
  end.

(** [x or 0]. *)
Definition or_0 (x : option Z) : Z :=
  match x with
  | Some v => if v =? 0 then 0 else v
  | None => 0
  end.

(** [int(points) if points else 1]. *)
Definition int_or_1 (points : Field) : result Z :=
  match points with
  | Blank => Ok 1
  | Digits z => Ok z
  | Junk => Raise ValueError
  end.

(** The loop over [zip(answer_texts, answer_points)], counting with [i]; the
    rows are inserted in [tbl] in the order they were added. *)
Fixpoint add_answers (prop_id i : Z) (texts : list string)
  (points : list Field) (tbl : list Answer.t) : result (list Answer.t) :=
  match texts, points with
  | text :: texts', pts :: points' =>
      if truthy (strip text) then
        match int_or_1 pts with
        | Raise e => Raise e
        | Ok p =>
            let answer := Answer.mk (next_rowid (map Answer.id tbl)) prop_id
                                    (strip text) p i in
            add_answers prop_id (i + 1) texts' points' (tbl ++ [answer])
        end
      else add_answers prop_id (i + 1) texts' points' tbl
  | _, _ => Ok tbl
  end.

(** [s.strip() or None]. *)
Definition strip_or_None (s : string) : option string :=
  if truthy (strip s) then Some (strip s) else None.

Definition admin_add_prop_view (method : Method) (form : PropForm) (s : Store)
  : Outcome :=
  match method with
  | POST =>
      let question := strip (pf_question form) in
      let note := strip_or_None (pf_note form) in
      if negb (truthy question) then
        Done (Some QuestionRequired) (Redirect ep_admin_add_prop) s
      else
        let max_order := or_0 (sql_max (map Prop_.order (props s))) in
        let prop := Prop_.mk (next_rowid (map Prop_.id (props s))) question
                             note (max_order + 1) false None in
        (* db.session.flush(): the prop is inserted *)
        if negb (in_int64 (Prop_.order prop)) then Failed OverflowError s
        else
          match add_answers (Prop_.id prop) 0 (pf_answer_text form)
                            (pf_answer_points form) (answers s) with
          | Raise e => Failed e s
          | Ok answers' =>
              (* db.session.commit(): the answers are inserted *)
              if forallb (fun a => in_int64 (Answer.points a))
                         (skipn (List.length (answers s)) answers')
              then
                Done (Some PropAdded) (Redirect ep_admin_props)
                     (set_answers (set_props s (props s ++ [prop])) answers')
              else Failed OverflowError s
          end
  | GET => Done None (Render "admin_add_prop.html") s
  end.

Definition admin_add_prop (method : Method) (form : PropForm)
  : bool -> Store -> Outcome :=
  admin_required (admin_add_prop_view method form).

Definition with_question_note (p : Prop_.t) (q : string) (n : option string)
  : Prop_.t :=
  Prop_.mk (Prop_.id p) q n (Prop_.order p) (Prop_.resolved p)
           (Prop_.correct_answer_id p).

(** [Answer.query.filter_by(prop_id=prop_id).delete()]. *)
Definition delete_answers_of (prop_id : Z) (tbl : list Answer.t)
  : list Answer.t :=
  filter (fun a => negb (Answer.prop_id a =? prop_id)) tbl.

Definition admin_edit_prop_view (prop_id : Z) (method : Method)
  (form : PropForm) (s : Store) : Outcome :=
  match find_prop s prop_id with
  | None => not_found prop_id s
  | Some prop =>
      match method with
      | POST =>
          let question := strip (pf_question form) in
          let note := strip_or_None (pf_note form) in
          let props' :=
            map (fun p => if Prop_.id p =? prop_id
                          then with_question_note p question note else p)
                (props s) in
          let kept := delete_answers_of prop_id (answers s) in
          match add_answers prop_id 0 (pf_answer_text form)
                            (pf_answer_points form) kept with
          | Raise e => Failed e s
          | Ok answers' =>
              (* db.session.commit(): the answers are inserted *)
              if forallb (fun a => in_int64 (Answer.points a))
                         (skipn (List.length kept) answers')
              then
                Done (Some PropUpdated) (Redirect ep_admin_props)
                     (set_answers (set_props s props') answers')
              else Failed OverflowError s
          end
      | GET => Done None (Render "admin_edit_prop.html") s
      end
  end.

Definition admin_edit_prop (prop_id : Z) (method : Method) (form : PropForm)
  : bool -> Store -> Outcome :=
  admin_required (admin_edit_prop_view prop_id method form).

Definition admin_delete_prop_view (prop_id : Z) (s : Store) : Outcome :=
  match find_prop s prop_id with
  | None => not_found prop_id s
  | Some prop =>
      let picks' := filter (fun k => negb (Pick.prop_id k =? prop_id))
                           (picks s) in
      let answers' := delete_answers_of prop_id (answers s) in
      let props' := filter (fun p => negb (Prop_.id p =? prop_id)) (props s) in
      Done (Some PropDeleted) (Redirect ep_admin_props)
           (set_props (set_answers (set_picks s picks') answers') props')
  end.

Definition admin_delete_prop (prop_id : Z) : bool -> Store -> Outcome :=
  admin_required (admin_delete_prop_view prop_id).

Definition with_resolution (p : Prop_.t) (c : option Z) (r : bool) : Prop_.t :=
  Prop_.mk (Prop_.id p) (Prop_.question p) (Prop_.note p) (Prop_.order p) r c.

(** Assignment to [correct_answer_id] and [resolved] of the row with the
    given id. *)
Definition set_resolution (prop_id : Z) (c : option Z) (r : bool)
  (l : list Prop_.t) : list Prop_.t :=
  map (fun p => if Prop_.id p =? prop_id then with_resolution p c r else p) l.

Definition admin_resolve_prop_view (prop_id : Z) (answer_id : Field)
  (s : Store) : Outcome :=
  match find_prop s prop_id with
  | None => not_found prop_id s
  | Some prop =>
      let q50 := substring 0 50 (Prop_.question prop) in
      match answer_id with
      | Digits a =>
          (* db.session.commit(): the prop is updated *)
          if in_int64 a then
            Done (Some (MarkedCorrect q50)) (Redirect ep_admin_answers)
                 (set_props s (set_resolution prop_id (Some a) true (props s)))
          else Failed OverflowError s
      | Junk => Failed ValueError s
      | Blank =>
          Done (Some (Unresolved q50)) (Redirect ep_admin_answers)
               (set_props s (set_resolution prop_id None false (props s)))
      end
  end.

Definition admin_resolve_prop (prop_id : Z) (answer_id : Field)
  : bool -> Store -> Outcome :=
  admin_required (admin_resolve_prop_view prop_id answer_id).

Definition admin_delete_entry_view (entry_id : Z) (s : Store) : Outcome :=
  match find_entry s entry_id with
  | None => not_found entry_id s
  | Some entry =>
      let picks' := filter (fun k => negb (Pick.entry_id k =? entry_id))
                           (picks s) in
      let entries' := filter (fun e => negb (Entry.id e =? entry_id))
                             (entries s) in
      Done (Some (DeletedEntry (Entry.name entry))) (Redirect ep_admin_entries)
           (set_entries (set_picks s picks') entries')
  end.

Definition admin_delete_entry (entry_id : Z) : bool -> Store -> Outcome :=
  admin_required (admin_delete_entry_view entry_id).

(** ** Live standings *)

(** The loop of [api_standings] over the entries. *)
Fixpoint standings_loop (s : Store) (l : list Entry.t)
  : result (list Standing) :=
  match l with
  | [] => Ok []
  | entry :: rest =>
      match calculate_score s entry with
      | Raise e => Raise e
      | Ok score =>
          match standings_loop s rest with
          | Raise e => Raise e
          | Ok data => Ok (mkStanding (Entry.name entry) score (Entry.id entry)
                             :: data)
          end
      end
  end.

(** [list.sort(key=score, reverse=True)]: stable, so records of equal score
    keep the order they had. *)
Fixpoint insert_standing (x : Standing) (l : list Standing) : list Standing :=
  match l with
  | [] => [x]
  | y :: r =>
      if st_score y <=? st_score x then x :: y :: r
      else y :: insert_standing x r
  end.

Definition sort_standings (l : list Standing) : list Standing :=
  fold_right insert_standing [] l.

(** [Prop.query.filter_by(resolved=True).count()]. *)
Definition count_resolved (s : Store) : Z :=
  Z.of_nat (List.length (filter Prop_.resolved (props s))).

(** [Prop.query.count()]. *)
Definition count_props (s : Store) : Z := Z.of_nat (List.length (props s)).

Definition api_standings (s0 : Store) : Outcome :=
  let (st, s) := get_settings s0 in
  if negb (game_started st) then
    Done None (Jsonify (ErrorBody "Game not started") 403) s
  else
    match standings_loop s (entries s) with
    | Raise e => Failed e s
    | Ok data =>
        Done None
             (Jsonify (StandingsBody (sort_standings data) (count_resolved s)
                                     (count_props s)) 200) s
    end.

(** ** The application as a transition system *)

(** The requests that can change the store.  The views left out ([index],
    [entries], [entry_detail], [standings], the admin listings, login and
    logout) read the store and at most call [get_settings].  The routes
    registered for POST alone carry no method here: they stand for a
    POST. *)
Inductive Request :=
| PropSheet (method : Method) (form : SheetForm)
| AdminSettings (action : string)
| AdminAddProp (method : Method) (form : PropForm)
| AdminEditProp (prop_id : Z) (method : Method) (form : PropForm)
| AdminDeleteProp (prop_id : Z)
| AdminMoveProp (prop_id : Z) (direction : string)
| AdminResolveProp (prop_id : Z) (answer_id : Field)
| AdminDeleteEntry (entry_id : Z)
| ApiStandings.

(** One request, sent with or without the [is_admin] flag in the session. *)
Definition handle (is_admin : bool) (r : Request) (s : Store) : Outcome :=
  match r with
  | PropSheet method form => prop_sheet method form s
  | AdminSettings action => admin_settings action is_admin s
  | AdminAddProp method form => admin_add_prop method form is_admin s
  | AdminEditProp prop_id method form =>
      admin_edit_prop prop_id method form is_admin s
  | AdminDeleteProp prop_id => admin_delete_prop prop_id is_admin s
  | AdminMoveProp prop_id direction =>
      admin_move_prop prop_id direction is_admin s
  | AdminResolveProp prop_id answer_id =>
      admin_resolve_prop prop_id answer_id is_admin s
  | AdminDeleteEntry entry_id => admin_delete_entry entry_id is_admin s
  | ApiStandings => api_standings s
  end.

(** The store after [db.create_all()] and the first [get_settings()]. *)
Definition init_store : Store :=
  mkStore (Some (mkSettings false false)) [] [] [] [].

Inductive reachable : Store -> Prop :=
| reach_init : reachable init_store
| reach_step (s : Store) (is_admin : bool) (r : Request) :
    reachable s -> reachable (store_after (handle is_admin r s)).

(** A session of requests by the administrator. *)
Fixpoint run (l : list Request) (s : Store) : Store :=
  match l with
  | [] => s
  | r :: rest => run rest (store_after (handle true r s))
  end.

(** ** Specifications *)

(** What the score reads of a prop: its [resolved] flag and its
    [correct_answer_id] against the picked answer. *)
Definition counts (prop : Prop_.t) (answer_id : Z) : bool :=
  Prop_.resolved prop && py_eq (Prop_.correct_answer_id prop) answer_id.

(** The pick counts for the score: its prop is resolved and its answer is the
    prop's correct answer. *)
Definition matches (s : Store) (pick : Pick.t) : bool :=
  match pick_prop s pick with
  | Some prop =>
      Prop_.resolved prop
      && py_eq (Prop_.correct_answer_id prop) (Pick.answer_id pick)
  | None => false
  end.

Definition points_of (s : Store) (pick : Pick.t) : Z :=
  match pick_answer s pick with
  | Some answer => Answer.points answer
  | None => 0
  end.

(** The score in the words of the specification: the sum of the points of
    the picks that count. *)
Definition total_score (s : Store) (entry : Entry.t) : Z :=
  fold_right Z.add 0
    (map (points_of s) (filter (matches s) (entry_picks s entry))).

(** Every pick names the id of a row of the props table. *)
Definition picks_have_props (s : Store) : Prop :=
  forall pick, In pick (picks s) ->
               In (Pick.prop_id pick) (map Prop_.id (props s)).

(** The status of a pick in the words of the specification. *)
Definition pick_status (prop : Prop_.t) (pick : Pick.t) : Status :=
  if Prop_.resolved prop
  then if py_eq (Prop_.correct_answer_id prop) (Pick.answer_id pick)
       then correct else incorrect
  else pending.

(** The correct answer of [p] is a row of the answers table that belongs to
    [p]. *)
Definition own_answer (s : Store) (p : Prop_.t) : bool :=
  match Prop_.correct_answer_id p with
  | Some a =>
      match find_answer s a with
      | Some answer => Answer.prop_id answer =? Prop_.id p
      | None => false
      end
  | None => false
  end.

Definition resolved_own_answer (s : Store) : Prop :=
  forall p, In p (props s) -> Prop_.resolved p = true -> own_answer s p = true.

(** The answers of the prop with id [q] found in [s] are found in [s']. *)
Definition keeps_answers (s s' : Store) (q : Z) : Prop :=
  forall a answer,
    find_answer s a = Some answer -> Answer.prop_id answer = q ->
    find_answer s' a = Some answer.

(** The requests of an administrator who resolves a prop only with one of
    its own answers and edits a prop only while it is unresolved. *)
Definition checked (r : Request) (s : Store) : bool :=
  match r with
  | AdminResolveProp prop_id (Digits a) =>
      match find_answer s a with
      | Some answer => Answer.prop_id answer =? prop_id
      | None => false
      end
  | AdminEditProp prop_id POST _ =>
      negb (existsb (fun q => (Prop_.id q =? prop_id) && Prop_.resolved q)
                    (props s))
  | _ => true
  end.

Inductive reachable_checked : Store -> Prop :=
| checked_init : reachable_checked init_store
| checked_step (s : Store) (is_admin : bool) (r : Request) :
    reachable_checked s -> checked r s = true ->
    reachable_checked (store_after (handle is_admin r s)).

(** A session of the administrator made of checked requests. *)
Fixpoint all_checked (l : list Request) (s : Store) : bool :=
  match l with
  | [] => true
  | r :: rest =>
      checked r s && all_checked rest (store_after (handle true r s))
  end.

(** Exchange of the elements at positions [k] and [k + 1]. *)
Fixpoint swap_at {A : Type} (k : nat) (l : list A) : list A :=
  match k, l with
  | O, x :: y :: r => y :: x :: r
  | S k', x :: r => x :: swap_at k' r
  | _, _ => l
  end.

(** The display order as a relation. *)
Definition prop_le (p q : Prop_.t) : Prop := prop_leb p q = true.

(** What [swap_orders] does to a row when the moved prop and its neighbour
    are two rows: the moved prop takes the order of the other, pushed by
    [nudge] when the two orders are equal, and the other takes the order of
    the moved prop. *)
Definition moved (prop other : Prop_.t) (nudge : Z) (p : Prop_.t) : Prop_.t :=
  if Prop_.id p =? Prop_.id prop then
    with_order p (if Prop_.order other =? Prop_.order prop
                  then Prop_.order other + nudge else Prop_.order other)
  else if Prop_.id p =? Prop_.id other then with_order p (Prop_.order prop)
  else p.

(** The ids of the props in display order. *)
Definition display_ids (s : Store) : list Z :=
  map Prop_.id (ordered_props s).

(** A prop up to its [order]. *)
Definition unordered (p : Prop_.t) : Prop_.t := with_order p 0.

Definition is_max (m : Z) (l : list Z) : Prop :=
  In m l /\ forall x, In x l -> x <= m.

(** The columns of a prop the edit form does not carry. *)
Definition same_but_text (p q : Prop_.t) : Prop :=
  Prop_.id q = Prop_.id p /\ Prop_.order q = Prop_.order p
  /\ Prop_.resolved q = Prop_.resolved p
  /\ Prop_.correct_answer_id q = Prop_.correct_answer_id p.

(** The texts of the answers an add or edit form creates: the stripped,
    non-empty texts that come with a points field. *)
Definition posted_texts (form : PropForm) : list string :=
  filter truthy
    (map strip (map fst (combine (pf_answer_text form)
                                 (pf_answer_points form)))).

(** The record of an entry in the standings. *)
Definition standing_of (s : Store) (entry : Entry.t) : Standing :=
  mkStanding (Entry.name entry) (total_score s entry) (Entry.id entry).

Fixpoint descending (l : list Standing) : Prop :=
  match l with
  | [] => True
  | x :: r => (forall y, In y r -> st_score y <= st_score x) /\ descending r
  end.

(** ** Sample sessions *)

Definition yes_no (pts : Z) : PropForm :=
  mkPropForm "Over 2.5 touchdowns?" "" ["Yes"; "No"]%string [Digits pts; Digits 0].

Definition heads_tails : PropForm :=
  mkPropForm "Coin toss" "opening" ["Heads"; "Tails"]%string [Blank; Blank].

Definition no_answers : PropForm :=
  mkPropForm "Over 2.5 touchdowns?" "" [] [].

(** A sheet that picks answer [a] for the prop with id 1. *)
Definition sheet (name : string) (a : Z) : SheetForm :=
  mkSheetForm name (fun prop_id => if prop_id =? 1 then Digits a else Blank).

Definition ann : Entry.t := Entry.mk 1 "Ann".

(** The pick of Ann scores on an answer worth minus one point. *)
Definition negative_points_store : Store :=
  run [AdminAddProp POST (yes_no (-1)); PropSheet POST (sheet "Ann" 1);
       AdminResolveProp 1 (Digits 1)] init_store.

(** Ann picked the answer with id 1, the prop was resolved with it. *)
Definition resolved_store : Store :=
  run [AdminAddProp POST (yes_no 1); PropSheet POST (sheet "Ann" 1);
       AdminSettings "start_game"; AdminResolveProp 1 (Digits 1)] init_store.

(** The resolved prop is then edited and left without answers. *)
Definition edited_store : Store :=
  run [AdminEditProp 1 POST no_answers] resolved_store.

(** The resolved prop is edited with the form it was created from. *)
Definition reedited_store : Store :=
  run [AdminEditProp 1 POST (yes_no 1)] resolved_store.

(** The first prop is resolved with an id no answer has yet, above the ids
    of the answers of the second prop, and is then edited. *)
Definition future_answer_store : Store :=
  run [AdminAddProp POST (yes_no 1); AdminAddProp POST heads_tails;
       AdminResolveProp 1 (Digits 5); AdminEditProp 1 POST (yes_no 1)]
      init_store.

(** The first prop is resolved with an answer of the second. *)
Definition foreign_answer_store : Store :=
  run [AdminAddProp POST (yes_no 1); AdminAddProp POST heads_tails;
       AdminResolveProp 1 (Digits 3)] init_store.

(** Two props appended, nothing resolved. *)
Definition two_props_store : Store :=
  run [AdminAddProp POST (yes_no 1); AdminAddProp POST heads_tails;
       PropSheet POST (sheet "Ann" 1)] init_store.

(** A props table with two equal [order] values. *)
Definition tied_store : Store :=
  mkStore None
    [Prop_.mk 5 "a" None 1 false None; Prop_.mk 2 "b" None 2 false None;
     Prop_.mk 3 "c" None 2 false None; Prop_.mk 4 "d" None 9 false None]
    [] [] [].

(** A props table with two equal [order] values at the lower end of the
    integers the store holds. *)
Definition edge_tied_store : Store :=
  mkStore None
    [Prop_.mk 1 "a" None (- 2 ^ 63) false None;
     Prop_.mk 2 "b" None (- 2 ^ 63) false None]
    [] [] [].

(** A pick whose prop row is missing. *)
Definition orphan_pick : Pick.t := Pick.mk 1 1 7 1.

Definition orphan_store : Store :=
  mkStore None [] [] [ann] [orphan_pick].

(** ** The admin session *)

Inductive SessionFlash := Welcome | WrongPassword | LoggedOut.

(** [admin_login]: [secret] is the configured [ADMIN_PASSWORD]; the last
    component is the [is_admin] flag of the session after the request. *)
Definition admin_login (secret : string) (method : Method) (password : string)
  (is_admin : bool) : option SessionFlash * Response * bool :=
  match method with
  | POST =>
      if String.eqb password secret then
        (Some Welcome, Redirect ep_admin_dashboard, true)
      else (Some WrongPassword, Render "admin_login.html", is_admin)
  | GET => (None, Render "admin_login.html", is_admin)
  end.

(** [admin_logout]: [session.pop('is_admin', None)]. *)
Definition admin_logout (is_admin : bool)
  : option SessionFlash * Response * bool :=
  (Some LoggedOut, Redirect ep_index, false).

(** The requests whose view sits under [admin_required]. *)
Definition is_admin_request (r : Request) : bool :=
  match r with
  | PropSheet _ _ | ApiStandings => false
  | _ => true
  end.

(** ** The pages that show scores *)

(** What a page view leaves behind: the context handed to the template, a
    404, or an uncaught exception. *)
Inductive PageOutcome (A : Type) :=
| Page (context : A) (s : Store)
| Missing (s : Store)
| Crashed (e : Exn) (s : Store).
Arguments Page {A} context s.
Arguments Missing {A} s.
Arguments Crashed {A} e s.

Record StandingRow := mkStandingRow {
  sr_entry : Entry.t;
  sr_score : Z;
  sr_correct_picks : Z;
  sr_total_resolved : Z
}.

Record RankedRow := mkRankedRow {
  rr_row : StandingRow;
  rr_rank : Z
}.

Record StandingsPage := mkStandingsPage {
  sp_standings : list RankedRow;
  sp_settings : Settings;
  sp_total_props : Z;
  sp_resolved_props : Z
}.

(** [sum(1 for pick in entry.picks if pick.prop.resolved and ...)]. *)
Fixpoint count_correct (s : Store) (l : list Pick.t) : result Z :=
  match l with
  | [] => Ok 0
  | pick :: rest =>
      match pick_prop s pick with
      | None => Raise AttributeError
      | Some prop =>
          match count_correct s rest with
          | Raise e => Raise e
          | Ok n =>
              Ok (if Prop_.resolved prop
                     && py_eq (Prop_.correct_answer_id prop)
                              (Pick.answer_id pick)
                  then 1 + n else n)
          end
      end
  end.

(** The loop of [standings] over the entries. *)
Fixpoint standing_rows (s : Store) (l : list Entry.t)
  : result (list StandingRow) :=
  match l with
  | [] => Ok []
  | entry :: rest =>
      match calculate_score s entry with
      | Raise e => Raise e
      | Ok score =>
          match count_correct s (entry_picks s entry) with
          | Raise e => Raise e
          | Ok correct_picks =>
              match standing_rows s rest with
              | Raise e => Raise e
              | Ok data =>
                  Ok (mkStandingRow entry score correct_picks
                                    (count_resolved s) :: data)
              end
          end
      end
  end.

Fixpoint insert_row (x : StandingRow) (l : list StandingRow)
  : list StandingRow :=
  match l with
  | [] => [x]
  | y :: r =>
      if sr_score y <=? sr_score x then x :: y :: r else y :: insert_row x r
  end.

(** [standings_data.sort(key=lambda x: x['score'], reverse=True)]. *)
Definition sort_rows (l : list StandingRow) : list StandingRow :=
  fold_right insert_row [] l.

(** [for i, data in enumerate(standings_data): data['rank'] = i + 1], from
    index [i] on. *)
Fixpoint add_ranks (i : Z) (l : list StandingRow) : list RankedRow :=
  match l with
  | [] => []
  | x :: r => mkRankedRow x (i + 1) :: add_ranks (i + 1) r
  end.

Definition standings (s0 : Store) : PageOutcome StandingsPage :=
  let (st, s) := get_settings s0 in
  match standing_rows s (entries s) with
  | Raise e => Crashed e s
  | Ok data =>
      Page (mkStandingsPage (add_ranks 0 (sort_rows data)) st (count_props s)
                            (count_resolved s)) s
  end.

(** A Python dict from prop ids to picks, in insertion order: [d[k] = v]
    replaces the value of a key that is present. *)
Fixpoint dict_set (k : Z) (v : Pick.t) (d : list (Z * Pick.t))
  : list (Z * Pick.t) :=
  match d with
  | [] => [(k, v)]
  | (k', v') :: r =>
      if k' =? k then (k, v) :: r else (k', v') :: dict_set k v r
  end.

(** [d.get(k)]. *)
Definition dict_get (k : Z) (d : list (Z * Pick.t)) : option Pick.t :=
  option_map snd (find (fun kv => fst kv =? k) d).

(** [{pick.prop_id: pick for pick in entry.picks}]. *)
Definition picks_dict (s : Store) (entry : Entry.t) : list (Z * Pick.t) :=
  fold_left (fun d pick => dict_set (Pick.prop_id pick) pick d)
            (entry_picks s entry) [].

Record EntryPage := mkEntryPage {
  ep_entry : Entry.t;
  ep_props : list Prop_.t;
  ep_picks_dict : list (Z * Pick.t);
  ep_score : Z;
  ep_settings : Settings
}.

Definition entry_detail (entry_id : Z) (s0 : Store) : PageOutcome EntryPage :=
  let (st, s) := get_settings s0 in
  match find_entry s entry_id with
  | None => if in_int64 entry_id then Missing s else Crashed OverflowError s
  | Some entry =>
      match calculate_score s entry with
      | Raise e => Crashed e s
      | Ok score =>
          Page (mkEntryPage entry (ordered_props s) (picks_dict s entry) score
                            st) s
      end
  end.

(** ** Further specifications *)

(** The key under which two entry names count as the same. *)
(** The check of [prop_sheet] lets a sheet with the name of [e2] pass the
    stored entry [e1]: the name of [e1] lowered by the store differs from
    the name of [e2] lowered by Python. *)
Definition passes_check (e1 e2 : Entry.t) : Prop :=
  sql_lower (Entry.name e1) <> lower (Entry.name e2).

(** The store once [get_settings] has run. *)
Definition settled (s : Store) : Store := snd (get_settings s).

(** The entry and the prop a pick ties together. *)
Definition pick_key (k : Pick.t) : Z * Z := (Pick.entry_id k, Pick.prop_id k).

(** The form carries a readable answer for the prop. *)
Definition answered (form : SheetForm) (p : Prop_.t) : bool :=
  match sf_prop form (Prop_.id p) with
  | Digits _ => true
  | _ => false
  end.

(** The primary keys of the four tables are pairwise distinct, every pick
    names an entry of the entries table, no two picks tie the same entry to
    the same prop, no two entries have the same name, and every entry
    passed the check of [prop_sheet] against the entries stored before
    it. *)
Record consistent (s : Store) : Prop := mkConsistent {
  prop_ids_distinct : NoDup (map Prop_.id (props s));
  answer_ids_distinct : NoDup (map Answer.id (answers s));
  entry_ids_distinct : NoDup (map Entry.id (entries s));
  pick_ids_distinct : NoDup (map Pick.id (picks s));
  picks_have_entries :
    forall k, In k (picks s) -> In (Pick.entry_id k) (map Entry.id (entries s));
  one_pick_per_prop : NoDup (map pick_key (picks s));
  names_distinct : NoDup (map Entry.name (entries s));
  names_checked : ForallOrdPairs passes_check (entries s)
}.

(** What a request can do to the tables, once [get_settings] has run:
    nothing, a write to the settings row, or the writes of one of the views
    that commit. *)
Inductive writes (s : Store) : Store -> Prop :=
| w_none : writes s s
| w_settings (st : Settings) : writes s (set_settings s (Some st))
| w_submit (form : SheetForm) (name : string) (picks' : list Pick.t) :
    find (fun e => String.eqb (sql_lower (Entry.name e)) (lower name))
         (entries s)
    = None ->
    existsb (fun e => String.eqb (Entry.name e) name) (entries s) = false ->
    save_picks form (next_rowid (map Entry.id (entries s))) (ordered_props s)
               (picks s) = Ok picks' ->
    writes s (set_picks
                (set_entries s
                   (entries s
                    ++ [Entry.mk (next_rowid (map Entry.id (entries s))) name]))
                picks')
| w_add (question : string) (note : option string) (texts : list string)
    (points : list Field) (answers' : list Answer.t) :
    add_answers (next_rowid (map Prop_.id (props s))) 0 texts points
                (answers s) = Ok answers' ->
    writes s (set_answers
                (set_props s
                   (props s
                    ++ [Prop_.mk (next_rowid (map Prop_.id (props s)))
                                 question note
                                 (or_0 (sql_max (map Prop_.order (props s))) + 1)
                                 false None]))
                answers')
| w_edit (prop_id : Z) (question : string) (note : option string)
    (texts : list string) (points : list Field) (answers' : list Answer.t) :
    add_answers prop_id 0 texts points (delete_answers_of prop_id (answers s))
    = Ok answers' ->
    writes s (set_answers
                (set_props s
                   (map (fun p => if Prop_.id p =? prop_id
                                  then with_question_note p question note
                                  else p) (props s)))
                answers')
| w_delete_prop (prop_id : Z) :
    writes s (set_props
                (set_answers
                   (set_picks s
                      (filter (fun k => negb (Pick.prop_id k =? prop_id))
                              (picks s)))
                   (delete_answers_of prop_id (answers s)))
                (filter (fun p => negb (Prop_.id p =? prop_id)) (props s)))
| w_move (prop other : Prop_.t) (nudge : Z) :
    writes s (set_props s (swap_orders prop other nudge (props s)))
| w_resolve (prop_id : Z) (c : option Z) (r : bool) :
    writes s (set_props s (set_resolution prop_id c r (props s)))
| w_delete_entry (entry_id : Z) :
    writes s (set_entries
                (set_picks s
                   (filter (fun k => negb (Pick.entry_id k =? entry_id))
                           (picks s)))
                (filter (fun e => negb (Entry.id e =? entry_id)) (entries s))).

(** The entry page marks the pick correct. *)
Definition status_correct (s : Store) (pick : Pick.t) : bool :=
  match get_pick_status s pick with
  | Ok correct => true
  | _ => false
  end.

(** The record the JSON endpoint gives for a row of the standings page. *)
Definition row_standing (row : RankedRow) : Standing :=
  mkStanding (Entry.name (sr_entry (rr_row row))) (sr_score (rr_row row))
             (Entry.id (sr_entry (rr_row row))).

(** The number of picks of the entry that count. *)
Definition correct_count (s : Store) (entry : Entry.t) : Z :=
  Z.of_nat (List.length (filter (matches s) (entry_picks s entry))).

(** The row of an entry on the standings page. *)
Definition standing_row_of (s : Store) (entry : Entry.t) : StandingRow :=
  mkStandingRow entry (total_score s entry) (correct_count s entry)
                (count_resolved s).

(** The form carries for the prop a text that [int] rejects. *)
Definition junk_field (form : SheetForm) (p : Prop_.t) : bool :=
  match sf_prop form (Prop_.id p) with
  | Junk => true
  | _ => false
  end.

(** No character of the text is kept by [strip]. *)
Fixpoint all_space (t : string) : bool :=
  match t with
  | EmptyString => true
  | String c r => isspace c && all_space r
  end.

(** Some row of the form has a text and points that [int] rejects, and the
    rows before it can be read. *)
Fixpoint unreadable (texts : list string) (points : list Field) : bool :=
  match texts, points with
  | text :: texts', pts :: points' =>
      if truthy (strip text) then
        match pts with
        | Junk => true
        | _ => unreadable texts' points'
        end
      else unreadable texts' points'
  | _, _ => false
  end.

(** The text is made of ASCII characters. *)
Fixpoint ascii_text (t : string) : bool :=
  match t with
  | EmptyString => true
  | String c r => (nat_of_ascii c <? 128)%nat && ascii_text r
  end.

(** The points of a row of an add or edit form: the number in the field, 1
    for an empty field. *)
Definition row_points (pts : Field) : Z :=
  match pts with
  | Digits z => z
  | _ => 1
  end.

(** The answers an add or edit form asks for, in the words of the
    specification: for each row with a text that is not blank, counting
    the rows from [i], the stripped text, the points and the row number. *)
Fixpoint posted_rows (i : Z) (texts : list string) (points : list Field)
  : list (string * Z * Z) :=
  match texts, points with
  | text :: texts', pts :: points' =>
      if truthy (strip text)
      then (strip text, row_points pts, i) :: posted_rows (i + 1) texts' points'
      else posted_rows (i + 1) texts' points'
  | _, _ => []
  end.

(** The columns of an answer that come from the form. *)
Definition answer_row (a : Answer.t) : string * Z * Z :=
  (Answer.text a, Answer.points a, Answer.order a).

(** The points the form asks for are integers of 64 bits. *)
Definition points_fit (form : PropForm) : bool :=
  forallb (fun row => in_int64 (snd (fst row)))
          (posted_rows 0 (pf_answer_text form) (pf_answer_points form)).

(** [n] rowids counted up from [start]. *)
Definition rowids_from (start : Z) (n : nat) : list Z :=
  map (fun k => start + Z.of_nat k) (seq 0 n).

(** The answer ids the sheet carries for the props are integers of 64
    bits. *)
Definition answers_fit (form : SheetForm) (l : list Prop_.t) : bool :=
  forallb (fun p => match sf_prop form (Prop_.id p) with
                    | Digits a => in_int64 a
                    | _ => true
                    end) l.

(** The picks a sheet asks for, in the words of the specification: one for
    each prop, in display order, that the sheet answers, with rowids counted
    up from [id]. *)
Fixpoint sheet_picks (form : SheetForm) (entry_id id : Z) (l : list Prop_.t)
  : list Pick.t :=
  match l with
  | [] => []
  | p :: r =>
      match sf_prop form (Prop_.id p) with
      | Digits a =>
          Pick.mk id entry_id (Prop_.id p) a
          :: sheet_picks form entry_id (id + 1) r
      | _ => sheet_picks form entry_id id r
      end
  end.

(** The resolve form carries nothing, or an answer id the store can hold. *)
Definition accepted (answer_id : Field) : bool :=
  match answer_id with
  | Blank => true
  | Digits a => in_int64 a
  | Junk => false
  end.

(** A props table whose largest [order] is the largest integer the store
    holds. *)
Definition full_order_store : Store :=
  mkStore None [Prop_.mk 1 "Coin toss" None (2 ^ 63 - 1) false None] [] [] [].

(** The names [Eva] and [EVA] with a capital E acute (code point 201) for
    first letter. *)
Definition E_acute : ascii := ascii_of_nat 201.
Definition Eva : string := String E_acute "va".
Definition EVA : string := String E_acute "VA".

(** [Eva] submitted a sheet without picks. *)
Definition eva_store : Store :=
  run [PropSheet POST (mkSheetForm Eva (fun _ => Blank))] init_store.

(** * Properties *)

(** Opens a request of the administrator down to the body of its view. *)
Ltac unfold_admin :=
  unfold admin_settings, admin_add_prop, admin_edit_prop, admin_delete_prop,
    admin_move_prop, admin_resolve_prop, admin_delete_entry, admin_required.

(** Opens [get_or_404] on an id that has no row. *)
Ltac unfold_not_found := unfold not_found; destruct (in_int64 _).

(** ** Lists and rowids *)

Lemma fold_max_ge (l : list Z) (x : Z) :
  In x l -> x <= fold_right Z.max 0 l.
Proof.
  induction l as [| y l IH]; simpl; [tauto |].
  intros [-> | H]; [lia | specialize (IH H); lia].
Qed.

Lemma next_rowid_fresh (l : list Z) (x : Z) : In x l -> x < next_rowid l.
Proof.
  intros H. apply fold_max_ge in H. unfold next_rowid. lia.
Qed.

Lemma sql_max_nil (l : list Z) : sql_max l = None -> l = [].
Proof.
  destruct l as [| x r]; [reflexivity |].
  simpl. destruct (sql_max r); discriminate.
Qed.

Lemma sql_max_is_max (l : list Z) (m : Z) : sql_max l = Some m -> is_max m l.
Proof.
  revert m. induction l as [| x r IH]; simpl; [discriminate |].
  intros m. destruct (sql_max r) as [m' |] eqn:E.
  - intros [= <-]. destruct (IH m' eq_refl) as [Hin Hle]. split.
    + destruct (Z.max_spec x m') as [[_ ->] | [_ ->]]; simpl; auto.
    + intros y [-> | Hy]; [lia | specialize (Hle y Hy); lia].
  - intros [= <-]. apply sql_max_nil in E. subst r. split; [now left |].
    intros y [-> | []]. lia.
Qed.

Lemma is_max_unique (l : list Z) (m m' : Z) :
  is_max m l -> is_max m' l -> m = m'.
Proof.
  intros [H1 H2] [H3 H4]. specialize (H2 _ H3). specialize (H4 _ H1). lia.
Qed.

Lemma or_0_id (x : option Z) :
  or_0 x = match x with Some v => v | None => 0 end.
Proof.
  destruct x as [v |]; simpl; [| reflexivity].
  destruct (Z.eqb_spec v 0); congruence.
Qed.

(** ** Settings *)

Lemma get_settings_locked (s : Store) :
  locked s = true ->
  exists st, get_settings s = (st, s) /\ submissions_locked st = true.
Proof.
  unfold locked, get_settings. destruct (settings s) as [st |]; simpl.
  - intros H. now exists st.
  - discriminate.
Qed.

Lemma get_settings_started (s : Store) :
  started s = true ->
  exists st, get_settings s = (st, s) /\ game_started st = true.
Proof.
  unfold started, get_settings. destruct (settings s) as [st |]; simpl.
  - intros H. now exists st.
  - discriminate.
Qed.

(** C7: whatever the two flags were, [start_game] leaves the game started and
    the submissions locked; [stop_game] leaves the game not started and the
    lock as it was. *)
Theorem start_game_locks_stop_game_keeps_lock (s : Store) :
  let s1 := store_after (admin_settings "start_game" true s) in
  let s2 := store_after (admin_settings "stop_game" true s) in
  (started s1 = true /\ locked s1 = true)
  /\ (started s2 = false /\ locked s2 = locked s).
Proof.
  unfold admin_settings, admin_required, admin_settings_view, started, locked,
    get_settings.
  destruct (settings s) as [[g l] |]; simpl; repeat split; reflexivity.
Qed.

(** C8: while the submissions are locked, a request to [/prop-sheet] is
    answered with the error flash and a redirect to the index whatever the
    method and the form, and the store (entries and picks included) is the
    one before the request. *)
Theorem locked_submission_rejected (method : Method) (form : SheetForm)
  (s : Store) :
  locked s = true ->
  prop_sheet method form s = Done (Some SubmissionsClosed) (Redirect ep_index) s
  /\ category SubmissionsClosed = error.
Proof.
  intros H. destruct (get_settings_locked s H) as [st [E L]].
  unfold prop_sheet. rewrite E, L. split; reflexivity.
Qed.

Lemma locked_submission_rejected_witness :
  locked resolved_store = true
  /\ prop_sheet POST (sheet "Bob" 2) resolved_store
     = Done (Some SubmissionsClosed) (Redirect ep_index) resolved_store.
Proof.
  split; [reflexivity |].
  apply (locked_submission_rejected POST (sheet "Bob" 2) resolved_store).
  reflexivity.
Defined.

(** ** Appending a prop *)

Lemma in_int64_spec (z : Z) : in_int64 z = true <-> - 2 ^ 63 <= z < 2 ^ 63.
Proof.
  unfold in_int64. rewrite andb_true_iff, Z.leb_le, Z.ltb_lt. tauto.
Qed.

Lemma fold_max_nonneg (l : list Z) : 0 <= fold_right Z.max 0 l.
Proof.
  induction l as [| x l IH]; simpl; lia.
Qed.

Lemma fold_max_snoc (l : list Z) (x : Z) :
  0 <= x -> fold_right Z.max 0 (l ++ [x]) = Z.max x (fold_right Z.max 0 l).
Proof.
  intros Hx. induction l as [| y l IH]; simpl; [lia |]. rewrite IH. lia.
Qed.

Lemma next_rowid_snoc (l : list Z) :
  next_rowid (l ++ [next_rowid l]) = next_rowid l + 1.
Proof.
  unfold next_rowid. pose proof (fold_max_nonneg l).
  rewrite fold_max_snoc by lia. lia.
Qed.

Lemma rowids_from_S (start : Z) (n : nat) :
  rowids_from start (S n) = start :: rowids_from (start + 1) n.
Proof.
  unfold rowids_from. cbn [seq map]. f_equal; [simpl; lia |].
  rewrite <- seq_shift, map_map. apply map_ext. intros k. lia.
Qed.

Lemma skipn_length_app {A : Type} (l r : list A) :
  skipn (List.length l) (l ++ r) = r.
Proof.
  induction l as [| x l IH]; simpl; auto.
Qed.

(** The rows the loop inserts are the rows the form asks for, under the
    prop's id, with the rowids that follow those of the table. *)
Lemma add_answers_rows (prop_id : Z) (texts : list string)
  (points : list Field) (i : Z) (tbl tbl' : list Answer.t) :
  add_answers prop_id i texts points tbl = Ok tbl' ->
  exists created,
    tbl' = tbl ++ created
    /\ map answer_row created = posted_rows i texts points
    /\ Forall (fun a => Answer.prop_id a = prop_id) created
    /\ map Answer.id created
       = rowids_from (next_rowid (map Answer.id tbl)) (List.length created).
Proof.
  revert points i tbl.
  induction texts as [| text texts IH]; intros points i tbl.
  - simpl. intros [= <-]. exists []. now rewrite app_nil_r.
  - destruct points as [| pts points].
    + simpl. intros [= <-]. exists []. now rewrite app_nil_r.
    + cbn [add_answers posted_rows].
      destruct (truthy (strip text)); [| apply IH].
      destruct pts as [| z |]; cbn [int_or_1 row_points]; [| | discriminate];
        intros H; apply IH in H; destruct H as [created [-> [Hrow [Hall Hid]]]];
        eexists (_ :: created); rewrite <- app_assoc;
        (split; [reflexivity |]);
        (split; [cbn [map]; rewrite Hrow; reflexivity |]);
        (split; [constructor; [reflexivity | exact Hall] |]);
        cbn [map List.length Answer.id]; rewrite rowids_from_S; f_equal;
        rewrite Hid, map_app; cbn [map Answer.id];
        now rewrite next_rowid_snoc.
Qed.

Lemma created_points_fit (created : list Answer.t) :
  forallb (fun a => in_int64 (Answer.points a)) created
  = forallb (fun row => in_int64 (snd (fst row))) (map answer_row created).
Proof.
  induction created as [| a r IH]; simpl; [reflexivity |]. now rewrite IH.
Qed.

(** What the commit of an add or edit form checks of the rows it inserts. *)
Lemma add_answers_fit (prop_id : Z) (form : PropForm)
  (tbl tbl' : list Answer.t) :
  add_answers prop_id 0 (pf_answer_text form) (pf_answer_points form) tbl
  = Ok tbl' ->
  forallb (fun a => in_int64 (Answer.points a)) (skipn (List.length tbl) tbl')
  = points_fit form.
Proof.
  intros H. destruct (add_answers_rows _ _ _ _ _ _ H) as [created [-> [Hrow _]]].
  rewrite skipn_length_app, created_points_fit, Hrow. reflexivity.
Qed.

(** C9, as the code has it: when the largest [order] of the props table is
    below the largest integer the store holds, a prop created by the add
    form is appended with [order] one above the largest [order] of the
    existing props, and with [order] 1 when there is no prop (the form
    creates the prop when its points are integers of 64 bits, and ends in
    [OverflowError] with nothing created when they are not); when the
    largest [order] is the largest integer the store holds, the insert
    raises [OverflowError] and no prop is created. *)
Theorem appended_prop_order (form : PropForm) (s : Store)
  (answers' : list Answer.t) :
  truthy (strip (pf_question form)) = true ->
  ((forall m, is_max m (map Prop_.order (props s)) ->
              - 2 ^ 63 <= m < 2 ^ 63 - 1) ->
   add_answers (next_rowid (map Prop_.id (props s))) 0 (pf_answer_text form)
               (pf_answer_points form) (answers s) = Ok answers' ->
   (points_fit form = true ->
    exists prop,
      admin_add_prop POST form true s
      = Done (Some PropAdded) (Redirect ep_admin_props)
             (set_answers (set_props s (props s ++ [prop])) answers')
      /\ (props s = [] -> Prop_.order prop = 1)
      /\ (forall m, is_max m (map Prop_.order (props s)) ->
                    Prop_.order prop = 1 + m))
   /\ (points_fit form = false ->
       admin_add_prop POST form true s = Failed OverflowError s))
  /\ (is_max (2 ^ 63 - 1) (map Prop_.order (props s)) ->
      admin_add_prop POST form true s = Failed OverflowError s).
Proof.
  intros Hq.
  unfold admin_add_prop, admin_required, admin_add_prop_view.
  rewrite Hq. cbn [negb Prop_.id Prop_.order]. rewrite or_0_id. split.
  - intros Hm Ha.
    assert (Hord : in_int64 (match sql_max (map Prop_.order (props s)) with
                             | Some v => v
                             | None => 0
                             end + 1) = true).
    { apply in_int64_spec.
      destruct (sql_max (map Prop_.order (props s))) as [m' |] eqn:E; [| lia].
      apply sql_max_is_max in E. apply Hm in E. lia. }
    rewrite Hord. cbn [negb]. rewrite Ha, (add_answers_fit _ _ _ _ Ha).
    split; [| now intros ->]. intros ->.
    eexists. split; [reflexivity |]. cbn [Prop_.order]. split.
    + intros ->. reflexivity.
    + intros m Hmax.
      destruct (sql_max (map Prop_.order (props s))) as [m' |] eqn:E.
      * apply sql_max_is_max in E. rewrite (is_max_unique _ _ _ Hmax E). lia.
      * apply sql_max_nil in E. destruct Hmax as [Hin _]. rewrite E in Hin.
        destruct Hin.
  - intros Hmax.
    destruct (sql_max (map Prop_.order (props s))) as [m' |] eqn:E.
    + apply sql_max_is_max in E. rewrite (is_max_unique _ _ _ E Hmax).
      reflexivity.
    + apply sql_max_nil in E. destruct Hmax as [Hin _]. rewrite E in Hin.
      destruct Hin.
Qed.

Lemma appended_prop_order_witness :
  exists prop,
    admin_add_prop POST heads_tails true
                   (run [AdminAddProp POST (yes_no 1)] init_store)
    = Done (Some PropAdded) (Redirect ep_admin_props)
           (set_answers
              (set_props (run [AdminAddProp POST (yes_no 1)] init_store)
                 (props (run [AdminAddProp POST (yes_no 1)] init_store)
                  ++ [prop]))
              (answers (run [AdminAddProp POST (yes_no 1);
                             AdminAddProp POST heads_tails] init_store)))
    /\ Prop_.order prop = 2.
Proof.
  destruct (appended_prop_order heads_tails
              (run [AdminAddProp POST (yes_no 1)] init_store)
              (answers (run [AdminAddProp POST (yes_no 1);
                             AdminAddProp POST heads_tails] init_store))
              eq_refl) as [Hadd _].
  assert (Hmax : forall m, is_max m [1] -> - 2 ^ 63 <= m < 2 ^ 63 - 1).
  { intros m [[<- | []] _]. lia. }
  destruct (proj1 (Hadd Hmax eq_refl) eq_refl) as [prop [E [_ H]]].
  exists prop. split; [exact E |].
  apply (H 1). split; [now left |].
  intros x [<- | []]. reflexivity.
Defined.

(** C9 as stated fails on a props table that holds the largest integer of
    the store as an [order]: the add form, which otherwise creates a prop,
    ends in [OverflowError] and the table has no prop of [order] one above
    the largest. *)
Lemma appended_prop_order_overflows :
  is_max (2 ^ 63 - 1) (map Prop_.order (props full_order_store))
  /\ admin_add_prop POST (yes_no 1) true full_order_store
     = Failed OverflowError full_order_store
  /\ ~ (exists prop,
          In prop (props (store_after
                            (admin_add_prop POST (yes_no 1) true
                                            full_order_store)))
          /\ Prop_.order prop = 1 + (2 ^ 63 - 1)).
Proof.
  split; [| split].
  - split; [now left |]. intros x [<- | []]. reflexivity.
  - reflexivity.
  - intros [prop [[<- | []] H]]. discriminate H.
Qed.

(** ** Scoring *)

Lemma score_loop_sum (s : Store) (l : list Pick.t) (total : Z) :
  (forall pick, In pick l -> pick_prop s pick <> None) ->
  (forall pick, In pick l -> matches s pick = true ->
                pick_answer s pick <> None) ->
  score_loop s l total
  = Ok (total + fold_right Z.add 0 (map (points_of s) (filter (matches s) l))).
Proof.
  revert total. induction l as [| pick rest IH]; intros total Hp Ha.
  - simpl. f_equal. lia.
  - assert (Hp' : forall k, In k rest -> pick_prop s k <> None)
      by (intros k Hk; apply Hp; now right).
    assert (Ha' : forall k, In k rest -> matches s k = true ->
                            pick_answer s k <> None)
      by (intros k Hk; apply Ha; now right).
    pose proof (Hp pick (or_introl eq_refl)) as H1.
    pose proof (Ha pick (or_introl eq_refl)) as H2.
    cbn [score_loop filter]. unfold matches at 1. unfold matches in H2.
    destruct (pick_prop s pick) as [prop |]; [| congruence].
    destruct (Prop_.resolved prop
              && py_eq (Prop_.correct_answer_id prop) (Pick.answer_id pick)).
    + cbn [map fold_right].
      destruct (pick_answer s pick) as [answer |] eqn:E.
      * rewrite (IH _ Hp' Ha').
        assert (Hpts : points_of s pick = Answer.points answer)
          by (unfold points_of; now rewrite E).
        rewrite Hpts. f_equal. lia.
      * now specialize (H2 eq_refl).
    + apply IH; assumption.
Qed.

Lemma points_of_nonneg (s : Store) (pick : Pick.t) :
  (forall a, In a (answers s) -> 0 <= Answer.points a) ->
  0 <= points_of s pick.
Proof.
  intros H. unfold points_of, pick_answer, find_answer.
  destruct (find _ (answers s)) as [a |] eqn:E; [| lia].
  apply find_some in E. apply H, E.
Qed.

Lemma sum_nonneg (l : list Z) :
  (forall x, In x l -> 0 <= x) -> 0 <= fold_right Z.add 0 l.
Proof.
  induction l as [| x r IH]; simpl; intros H; [lia |].
  pose proof (H x (or_introl eq_refl)).
  assert (0 <= fold_right Z.add 0 r) by (apply IH; intros; apply H; now right).
  lia.
Qed.

Lemma filter_none {A : Type} (f : A -> bool) (l : list A) :
  (forall x, In x l -> f x = false) -> filter f l = [].
Proof.
  induction l as [| x r IH]; intros H; [reflexivity |].
  simpl. rewrite (H x (or_introl eq_refl)). apply IH.
  intros y Hy. apply H. now right.
Qed.

(** C1, as the code has it: when every pick of the entry has its prop row and
    every pick that counts has its answer row, [calculate_score] returns the
    sum of the points of exactly the picks whose prop is resolved with the
    picked answer; the sum is not negative when no answer has negative
    points, and it is 0 when no pick counts. *)
Theorem calculate_score_sum (s : Store) (entry : Entry.t) :
  (forall pick, In pick (entry_picks s entry) -> pick_prop s pick <> None) ->
  (forall pick, In pick (entry_picks s entry) -> matches s pick = true ->
                pick_answer s pick <> None) ->
  calculate_score s entry = Ok (total_score s entry)
  /\ ((forall a, In a (answers s) -> 0 <= Answer.points a) ->
      0 <= total_score s entry)
  /\ ((forall pick, In pick (entry_picks s entry) -> matches s pick = false) ->
      total_score s entry = 0).
Proof.
  intros Hp Ha. split; [| split].
  - unfold calculate_score, total_score. now rewrite score_loop_sum.
  - intros Hpts. unfold total_score. apply sum_nonneg.
    intros x Hx. apply in_map_iff in Hx. destruct Hx as [pick [<- _]].
    now apply points_of_nonneg.
  - intros Hno. unfold total_score. now rewrite filter_none.
Qed.

Lemma calculate_score_sum_witness :
  calculate_score resolved_store ann = Ok 1
  /\ 0 <= total_score resolved_store ann.
Proof.
  assert (Hp : forall pick, In pick (entry_picks resolved_store ann) ->
                            pick_prop resolved_store pick <> None)
    by (intros pick [<- | []]; discriminate).
  assert (Ha : forall pick, In pick (entry_picks resolved_store ann) ->
                            matches resolved_store pick = true ->
                            pick_answer resolved_store pick <> None)
    by (intros pick [<- | []] _; discriminate).
  destruct (calculate_score_sum resolved_store ann Hp Ha) as [E [N _]].
  split; [exact E |]. apply N.
  intros a [<- | [<- | []]]; discriminate.
Defined.

(** C1 as stated fails: an answer may carry negative points, and a pick that
    counts may have lost its answer row. *)
Lemma score_negative_or_raised :
  calculate_score negative_points_store ann = Ok (-1)
  /\ calculate_score edited_store ann = Raise AttributeError.
Proof. split; reflexivity. Qed.

Lemma score_loop_absent_prop (s : Store) (l : list Pick.t) (total : Z)
  (pick : Pick.t) :
  In pick l -> pick_prop s pick = None ->
  score_loop s l total = Raise AttributeError.
Proof.
  revert total. induction l as [| k rest IH]; intros total Hin Hnone.
  - destruct Hin.
  - simpl. destruct Hin as [-> | Hin].
    + now rewrite Hnone.
    + destruct (pick_prop s k) as [prop |]; [| reflexivity].
      destruct (Prop_.resolved prop && _).
      * destruct (pick_answer s k); [now apply IH | reflexivity].
      * now apply IH.
Qed.

(** Neither function guards against a missing prop row. *)
Lemma absent_prop_always_raises (s : Store) (entry : Entry.t) (pick : Pick.t) :
  pick_prop s pick = None ->
  get_pick_status s pick = Raise AttributeError
  /\ (In pick (entry_picks s entry) ->
      calculate_score s entry = Raise AttributeError).
Proof.
  intros H. split.
  - unfold get_pick_status. now rewrite H.
  - intros Hin. unfold calculate_score.
    now apply (score_loop_absent_prop s _ 0 pick).
Qed.

(** C5 as stated fails: with a pick whose prop row is missing both functions
    raise [AttributeError]. *)
Lemma absent_prop_raises :
  In orphan_pick (entry_picks orphan_store ann)
  /\ pick_prop orphan_store orphan_pick = None
  /\ calculate_score orphan_store ann = Raise AttributeError
  /\ get_pick_status orphan_store orphan_pick = Raise AttributeError.
Proof. repeat split; try reflexivity. now left. Qed.

(** ** Resolving and unresolving *)

Lemma find_map_id (f : Prop_.t -> Prop_.t) (l : list Prop_.t) (x : Z) :
  (forall p, Prop_.id (f p) = Prop_.id p) ->
  find (fun p => Prop_.id p =? x) (map f l)
  = option_map f (find (fun p => Prop_.id p =? x) l).
Proof.
  intros Hid. induction l as [| p r IH]; [reflexivity |].
  simpl. rewrite Hid. destruct (Prop_.id p =? x); [reflexivity | exact IH].
Qed.

Lemma find_prop_id (s : Store) (x : Z) (p : Prop_.t) :
  find_prop s x = Some p -> In p (props s) /\ Prop_.id p = x.
Proof.
  unfold find_prop. intros H. apply find_some in H.
  destruct H as [Hin Heq]. split; [exact Hin | now apply Z.eqb_eq].
Qed.

Lemma score_loop_ext (s s' : Store) (l : list Pick.t) (total : Z) :
  answers s' = answers s ->
  (forall x a, option_map (fun p => counts p a) (find_prop s' x)
               = option_map (fun p => counts p a) (find_prop s x)) ->
  score_loop s' l total = score_loop s l total.
Proof.
  intros Ha Hp. revert total.
  induction l as [| pick rest IH]; intros total; [reflexivity |].
  simpl. unfold pick_prop, pick_answer, find_answer. rewrite Ha.
  specialize (Hp (Pick.prop_id pick) (Pick.answer_id pick)).
  destruct (find_prop s' (Pick.prop_id pick)) as [p' |],
           (find_prop s (Pick.prop_id pick)) as [p |];
    simpl in Hp; try discriminate; [| reflexivity].
  injection Hp as Hp. unfold counts in Hp. rewrite Hp.
  destruct (Prop_.resolved p && _); [| apply IH].
  destruct (find _ (answers s)); [apply IH | reflexivity].
Qed.

(** C3, as the code has it: for a prop that is not resolved, resolving it
    with any answer and then unresolving it gives every entry the score it
    had before. *)
Theorem resolve_then_unresolve (s : Store) (prop_id a : Z) (entry : Entry.t) :
  (forall q, find_prop s prop_id = Some q -> Prop_.resolved q = false) ->
  let s1 := store_after (admin_resolve_prop prop_id (Digits a) true s) in
  let s2 := store_after (admin_resolve_prop prop_id Blank true s1) in
  calculate_score s2 entry = calculate_score s entry.
Proof.
  intros Hq. unfold admin_resolve_prop, admin_required, admin_resolve_prop_view.
  destruct (find_prop s prop_id) as [q |] eqn:Eq.
  - destruct (in_int64 a); cbn [store_after].
    + assert (E1 : find_prop
                     (set_props s
                        (set_resolution prop_id (Some a) true (props s)))
                     prop_id = Some (with_resolution q (Some a) true)).
      { unfold find_prop, set_resolution. cbn [props set_props].
        rewrite find_map_id.
        - fold (find_prop s prop_id). rewrite Eq. simpl.
          destruct (find_prop_id _ _ _ Eq) as [_ ->].
          now rewrite Z.eqb_refl.
        - intros p. now destruct (Prop_.id p =? prop_id). }
      rewrite E1. cbn [store_after].
      unfold calculate_score, entry_picks. cbn [picks set_props].
      apply score_loop_ext; [reflexivity |].
      intros x a'. unfold find_prop, set_resolution. cbn [props set_props].
      rewrite !find_map_id
        by (intros p; now destruct (Prop_.id p =? prop_id)).
      fold (find_prop s x).
      destruct (find_prop s x) as [r |] eqn:Er; [| reflexivity].
      destruct (find_prop_id _ _ _ Er) as [_ Hid]. simpl.
      destruct (Z.eqb_spec (Prop_.id r) prop_id) as [Heq | Hne].
      * simpl. rewrite Heq, Z.eqb_refl. unfold counts. simpl.
        rewrite (Hq r); [reflexivity |]. rewrite <- Eq. congruence.
      * destruct (Z.eqb_spec (Prop_.id r) prop_id);
          [contradiction | reflexivity].
    + rewrite Eq. cbn [store_after].
      unfold calculate_score, entry_picks. cbn [picks set_props].
      apply score_loop_ext; [reflexivity |].
      intros x a'. unfold find_prop, set_resolution. cbn [props set_props].
      rewrite find_map_id
        by (intros p; now destruct (Prop_.id p =? prop_id)).
      fold (find_prop s x).
      destruct (find_prop s x) as [r |] eqn:Er; [| reflexivity].
      simpl. destruct (Z.eqb_spec (Prop_.id r) prop_id) as [Heq | Hne];
        [| reflexivity].
      unfold counts. simpl. rewrite (Hq r); [reflexivity |].
      rewrite <- Eq. destruct (find_prop_id _ _ _ Er) as [_ Hid]. congruence.
  - unfold not_found. destruct (in_int64 prop_id); cbn [store_after];
      rewrite Eq; reflexivity.
Qed.

Lemma resolve_then_unresolve_witness :
  calculate_score
    (run [AdminResolveProp 1 (Digits 2); AdminResolveProp 1 Blank]
         two_props_store) ann
  = calculate_score two_props_store ann.
Proof.
  apply (resolve_then_unresolve two_props_store 1 2 ann).
  intros q [= <-]. reflexivity.
Defined.

(** C3 as stated fails on a prop that was already resolved: unresolving
    clears the answer it had before. *)
Lemma resolve_then_unresolve_forgets :
  calculate_score resolved_store ann = Ok 1
  /\ calculate_score
       (store_after
          (admin_resolve_prop 1 Blank true
             (store_after
                (admin_resolve_prop 1 (Digits 1) true resolved_store)))) ann
     = Ok 0.
Proof. split; reflexivity. Qed.

(** ** Live standings *)

Lemma score_loop_ok (s : Store) (l : list Pick.t) (total n : Z) :
  score_loop s l total = Ok n ->
  n = total + fold_right Z.add 0 (map (points_of s) (filter (matches s) l)).
Proof.
  revert total. induction l as [| pick rest IH]; intros total.
  - simpl. intros [= <-]. lia.
  - cbn [score_loop filter]. unfold matches at 1.
    destruct (pick_prop s pick) as [prop |]; [| discriminate].
    fold (counts prop (Pick.answer_id pick)).
    destruct (counts prop (Pick.answer_id pick)).
    + cbn [map fold_right].
      destruct (pick_answer s pick) as [answer |] eqn:E; [| discriminate].
      intros H. apply IH in H.
      assert (Hpts : points_of s pick = Answer.points answer)
        by (unfold points_of; now rewrite E).
      rewrite Hpts. lia.
    + apply IH.
Qed.

Lemma calculate_score_ok (s : Store) (entry : Entry.t) (n : Z) :
  calculate_score s entry = Ok n -> n = total_score s entry.
Proof.
  unfold calculate_score, total_score. intros H. apply score_loop_ok in H. lia.
Qed.

Lemma standings_loop_ok (s : Store) (l : list Entry.t) :
  (forall e, In e l -> exists n, calculate_score s e = Ok n) ->
  standings_loop s l = Ok (map (standing_of s) l).
Proof.
  induction l as [| e r IH]; intros H; [reflexivity |].
  simpl. destruct (H e (or_introl eq_refl)) as [n Hn]. rewrite Hn.
  rewrite IH by (intros; apply H; now right).
  unfold standing_of at 2. now rewrite (calculate_score_ok _ _ _ Hn).
Qed.

Lemma standings_loop_raise (s : Store) (l : list Entry.t) (e : Entry.t)
  (x : Exn) :
  In e l -> calculate_score s e = Raise x ->
  exists x', standings_loop s l = Raise x'.
Proof.
  induction l as [| e' r IH]; intros Hin Hx; [destruct Hin |].
  simpl. destruct Hin as [-> | Hin].
  - rewrite Hx. now exists x.
  - destruct (calculate_score s e'); [| now eexists].
    destruct (IH Hin Hx) as [x' ->]. now exists x'.
Qed.

Lemma insert_standing_perm (x : Standing) (l : list Standing) :
  Permutation (insert_standing x l) (x :: l).
Proof.
  induction l as [| y r IH]; simpl; [apply Permutation_refl |].
  destruct (st_score y <=? st_score x); [apply Permutation_refl |].
  apply perm_trans with (y :: x :: r); [now apply perm_skip | apply perm_swap].
Qed.

Lemma sort_standings_perm (l : list Standing) :
  Permutation (sort_standings l) l.
Proof.
  induction l as [| x r IH]; simpl; [apply perm_nil |].
  apply perm_trans with (x :: sort_standings r);
    [apply insert_standing_perm | now apply perm_skip].
Qed.

Lemma insert_standing_descending (x : Standing) (l : list Standing) :
  descending l -> descending (insert_standing x l).
Proof.
  induction l as [| y r IH]; simpl; [tauto |].
  intros [Hy Hr]. destruct (Z.leb_spec (st_score y) (st_score x)) as [Hle | Hlt].
  - simpl. repeat split; auto.
    intros z [<- | Hz]; [exact Hle | specialize (Hy z Hz); lia].
  - simpl. split; [| now apply IH].
    intros z Hz.
    apply (Permutation_in _ (insert_standing_perm x r)) in Hz.
    destruct Hz as [<- | Hz]; [lia | now apply Hy].
Qed.

Lemma sort_standings_descending (l : list Standing) :
  descending (sort_standings l).
Proof.
  induction l as [| x r IH]; simpl; [exact I |].
  now apply insert_standing_descending.
Qed.

(** The replies of [api_standings]: the 403 error body exactly when the game
    is not started; when it is started and [calculate_score] returns for
    every entry, the 200 body with one record per entry, sorted by score
    descending, and the counts of resolved props and of props; when it is
    started and [calculate_score] raises for some entry, the request ends in
    that exception, which nothing catches. *)
Lemma api_standings_reply (s : Store) :
  ((exists s', api_standings s
               = Done None (Jsonify (ErrorBody "Game not started") 403) s')
   <-> started s = false)
  /\ (started s = true ->
      (forall e, In e (entries s) -> exists n, calculate_score s e = Ok n) ->
      exists data,
        api_standings s
        = Done None (Jsonify (StandingsBody data (count_resolved s)
                                            (count_props s)) 200) s
        /\ Permutation data (map (standing_of s) (entries s))
        /\ descending data)
  /\ (started s = true ->
      forall e x, In e (entries s) -> calculate_score s e = Raise x ->
                  exists x', api_standings s = Failed x' s).
Proof.
  split; [split |]; [| | split].
  - intros [s' H]. unfold api_standings, started in *.
    destruct (get_settings s) as [st s0]. simpl.
    destruct (game_started st); [| reflexivity]. simpl in H.
    destruct (standings_loop s0 (entries s0)); discriminate.
  - intros H. unfold api_standings, started in *.
    destruct (get_settings s) as [st s0]. simpl in H. rewrite H. simpl.
    now exists s0.
  - intros Hs Hok. destruct (get_settings_started s Hs) as [st [E G]].
    unfold api_standings. rewrite E, G. simpl.
    rewrite (standings_loop_ok s (entries s) Hok).
    eexists. split; [reflexivity |]. split.
    + apply sort_standings_perm.
    + apply sort_standings_descending.
  - intros Hs e x Hin Hx. destruct (get_settings_started s Hs) as [st [E G]].
    unfold api_standings. rewrite E, G. simpl.
    destruct (standings_loop_raise s _ e x Hin Hx) as [x' ->]. now exists x'.
Qed.

Lemma api_standings_reply_witness :
  exists data,
    api_standings resolved_store
    = Done None (Jsonify (StandingsBody data 1 1) 200) resolved_store
    /\ Permutation data [mkStanding "Ann" 1 1]
    /\ descending data.
Proof.
  apply (proj1 (proj2 (api_standings_reply resolved_store))).
  - reflexivity.
  - intros e [<- | []]. now exists 1.
Defined.

(** C6: the code misses the claim.  After ordinary requests of the
    administrator (a prop is added, Ann picks its first answer, the game is
    started, the prop is resolved with that answer and then edited with a
    form without answers) the game is started and a GET to [/api/standings]
    ends in an [AttributeError] that nothing catches, where the claim
    promises the JSON standings: [admin_edit_prop] deletes the answers that
    Ann's pick and the prop's [correct_answer_id] still name.  Its sibling
    [admin_delete_prop] deletes the picks with the answers, and the
    standings are served after it. *)
Theorem api_standings_raises :
  edited_store
  = run [AdminAddProp POST (yes_no 1); PropSheet POST (sheet "Ann" 1);
         AdminSettings "start_game"; AdminResolveProp 1 (Digits 1);
         AdminEditProp 1 POST no_answers] init_store
  /\ reachable edited_store
  /\ started edited_store = true
  /\ api_standings edited_store = Failed AttributeError edited_store
  /\ api_standings (run [AdminDeleteProp 1] resolved_store)
     = Done None (Jsonify (StandingsBody [mkStanding "Ann" 0 1] 0 0) 200)
            (run [AdminDeleteProp 1] resolved_store).
Proof.
  split; [reflexivity |]. split; [| repeat split; reflexivity].
  unfold edited_store, resolved_store.
  repeat (apply reach_step || apply reach_init).
Qed.

(** ** Editing a prop *)

Lemma add_answers_created (prop_id : Z) (texts : list string)
  (points : list Field) (i : Z) (tbl tbl' : list Answer.t) :
  add_answers prop_id i texts points tbl = Ok tbl' ->
  exists created,
    tbl' = tbl ++ created
    /\ Forall (fun a => Answer.prop_id a = prop_id) created
    /\ map Answer.text created
       = filter truthy (map strip (map fst (combine texts points))).
Proof.
  revert points i tbl.
  induction texts as [| text texts IH]; intros points i tbl.
  - simpl. intros [= <-]. exists []. now rewrite app_nil_r.
  - destruct points as [| pts points].
    + simpl. intros [= <-]. exists []. now rewrite app_nil_r.
    + cbn [add_answers combine map filter fst].
      destruct (truthy (strip text)).
      * destruct (int_or_1 pts) as [p | e]; [| discriminate].
        intros H. apply IH in H. destruct H as [created [-> [Hall Htxt]]].
        eexists (_ :: created). rewrite <- app_assoc. split; [reflexivity |].
        split; [constructor; [reflexivity | exact Hall] |].
        simpl. now rewrite Htxt.
      * apply IH.
Qed.

Lemma Forall2_map_same (f : Prop_.t -> Prop_.t) (l : list Prop_.t) :
  (forall p, same_but_text p (f p)) -> Forall2 same_but_text l (map f l).
Proof.
  intros H. induction l as [| p r IH]; simpl; constructor; auto.
Qed.

(** C10, as the code has it: the edit of an existing prop, with a form whose
    points are integers of 64 bits, deletes every answer of the prop, keeps
    the answers of the other props, and appends one answer for each row of
    the form with a text: under the prop's id, with the stripped text, the
    points (1 for an empty field) and the row number of the form, and with
    the rowids that follow those of the answers kept; it leaves the id,
    order, resolved flag and correct answer of every prop and all picks,
    entries and settings as they were.  After it, an answer of the prop that
    carries the id held in [correct_answer_id] is one this edit created.
    With points outside 64 bits the edit raises [OverflowError] and the
    store is the one before. *)
Theorem edit_replaces_answers (s : Store) (prop_id : Z) (form : PropForm)
  (prop : Prop_.t) (answers' : list Answer.t) :
  find_prop s prop_id = Some prop ->
  add_answers prop_id 0 (pf_answer_text form) (pf_answer_points form)
              (delete_answers_of prop_id (answers s)) = Ok answers' ->
  (points_fit form = false ->
   admin_edit_prop prop_id POST form true s = Failed OverflowError s)
  /\ (points_fit form = true ->
      exists s' created,
        admin_edit_prop prop_id POST form true s
        = Done (Some PropUpdated) (Redirect ep_admin_props) s'
        /\ answers s' = delete_answers_of prop_id (answers s) ++ created
        /\ (forall a, In a (delete_answers_of prop_id (answers s)) <->
                      In a (answers s) /\ Answer.prop_id a <> prop_id)
        /\ Forall (fun a => Answer.prop_id a = prop_id) created
        /\ map Answer.text created = posted_texts form
        /\ map answer_row created
           = posted_rows 0 (pf_answer_text form) (pf_answer_points form)
        /\ map Answer.id created
           = rowids_from
               (next_rowid
                  (map Answer.id (delete_answers_of prop_id (answers s))))
               (List.length created)
        /\ Forall2 same_but_text (props s) (props s')
        /\ picks s' = picks s /\ entries s' = entries s
        /\ settings s' = settings s
        /\ (forall a c, Prop_.correct_answer_id prop = Some c ->
                        In a (answers s') -> Answer.id a = c ->
                        Answer.prop_id a = prop_id -> In a created)).
Proof.
  intros Hp Ha.
  unfold admin_edit_prop, admin_required, admin_edit_prop_view.
  rewrite Hp, Ha, (add_answers_fit _ _ _ _ Ha).
  split; [intros ->; reflexivity |]. intros ->.
  destruct (add_answers_created _ _ _ _ _ _ Ha) as [created [E [Hall Htxt]]].
  destruct (add_answers_rows _ _ _ _ _ _ Ha) as [created' [E' [Hrow [_ Hid]]]].
  assert (created' = created) as ->.
  { rewrite E in E'. now apply app_inv_head in E'. }
  assert (Hdel : forall a, In a (delete_answers_of prop_id (answers s)) <->
                           In a (answers s) /\ Answer.prop_id a <> prop_id).
  { intros a. unfold delete_answers_of. rewrite filter_In.
    destruct (Z.eqb_spec (Answer.prop_id a) prop_id); simpl; intuition congruence. }
  eexists. exists created. split; [reflexivity |].
  cbn [answers props picks entries settings set_answers set_props].
  split; [exact E |]. split; [exact Hdel |]. split; [exact Hall |].
  split; [exact Htxt |]. split; [exact Hrow |]. split; [exact Hid |].
  split; [| split; [| split; [| split]]]; try reflexivity.
  - apply Forall2_map_same. intros p. unfold same_but_text.
    destruct (Prop_.id p =? prop_id); simpl; auto.
  - intros a c _ Hin _ Hpid. rewrite E in Hin. apply in_app_or in Hin.
    destruct Hin as [Hin | Hin]; [| exact Hin].
    apply Hdel in Hin. now destruct Hin.
Qed.

Lemma edit_replaces_answers_witness :
  exists s' created,
    admin_edit_prop 1 POST heads_tails true resolved_store
    = Done (Some PropUpdated) (Redirect ep_admin_props) s'
    /\ answers s' = created
    /\ map answer_row created = [("Heads", 1, 0); ("Tails", 1, 1)]%string
    /\ map Answer.id created = [1; 2]
    /\ picks s' = picks resolved_store.
Proof.
  destruct (edit_replaces_answers resolved_store 1 heads_tails
              (Prop_.mk 1 "Over 2.5 touchdowns?" None 1 true (Some 1))
              (answers (run [AdminEditProp 1 POST heads_tails] resolved_store))
              eq_refl eq_refl) as [_ H].
  destruct (H eq_refl)
    as [s' [created [E [Ha [_ [_ [_ [Hr [Hi [_ [Hk _]]]]]]]]]]].
  exists s', created. split; [exact E |]. split; [exact Ha |].
  split; [exact Hr |]. split; [| exact Hk].
  rewrite Hi.
  assert (L : List.length created = 2%nat).
  { rewrite <- (length_map answer_row), Hr. reflexivity. }
  rewrite L. reflexivity.
Defined.

(** C10 as stated fails in its last clause: the rows inserted by the edit
    take the rowids the deleted rows freed, so the resolved prop's
    [correct_answer_id] names one of its new answers.  The same happens with
    no rowid taken twice, when the prop was resolved with the id the first
    new answer receives. *)
Lemma edited_prop_answer_found :
  (reedited_store
   = store_after (admin_edit_prop 1 POST (yes_no 1) true resolved_store)
   /\ exists prop answer,
        find_prop reedited_store 1 = Some prop
        /\ Prop_.resolved prop = true
        /\ Prop_.correct_answer_id prop = Some 1
        /\ find_answer reedited_store 1 = Some answer
        /\ Answer.prop_id answer = Prop_.id prop)
  /\ (map Answer.id (answers future_answer_store) = [3; 4; 5; 6]
      /\ exists prop answer,
           find_prop future_answer_store 1 = Some prop
           /\ Prop_.resolved prop = true
           /\ Prop_.correct_answer_id prop = Some 5
           /\ find_answer future_answer_store 5 = Some answer
           /\ Answer.prop_id answer = Prop_.id prop).
Proof.
  split; (split; [reflexivity |]);
    eexists; eexists; repeat split; reflexivity.
Qed.

(** ** Invariants of the reachable stores *)

Lemma get_settings_tables (s s' : Store) (st : Settings) :
  get_settings s = (st, s') ->
  props s' = props s /\ answers s' = answers s
  /\ entries s' = entries s /\ picks s' = picks s.
Proof.
  unfold get_settings. destruct (settings s); intros [= _ <-]; auto.
Qed.

Lemma insert_prop_perm (p : Prop_.t) (l : list Prop_.t) :
  Permutation (insert_prop p l) (p :: l).
Proof.
  induction l as [| q r IH]; simpl; [apply Permutation_refl |].
  destruct (prop_leb p q); [apply Permutation_refl |].
  apply perm_trans with (q :: p :: r); [now apply perm_skip | apply perm_swap].
Qed.

Lemma ordered_props_perm (s : Store) : Permutation (ordered_props s) (props s).
Proof.
  unfold ordered_props. induction (props s) as [| p r IH]; simpl.
  - apply perm_nil.
  - apply perm_trans with (p :: fold_right insert_prop [] r);
      [apply insert_prop_perm | now apply perm_skip].
Qed.

Lemma save_picks_in (form : SheetForm) (entry_id : Z) (l : list Prop_.t)
  (tbl tbl' : list Pick.t) :
  save_picks form entry_id l tbl = Ok tbl' ->
  forall k, In k tbl' ->
            In k tbl \/ In (Pick.prop_id k) (map Prop_.id l).
Proof.
  revert tbl. induction l as [| prop rest IH]; intros tbl.
  - simpl. intros [= <-] k Hk. now left.
  - simpl. destruct (sf_prop form (Prop_.id prop)) as [| a |].
    + intros H k Hk. destruct (IH _ H k Hk); auto.
    + intros H k Hk. destruct (IH _ H k Hk) as [Hin | Hin]; auto.
      apply in_app_or in Hin. destruct Hin as [Hin | [<- | []]]; auto.
    + discriminate.
Qed.

Lemma set_order_ids (x v : Z) (l : list Prop_.t) :
  map Prop_.id (set_order x v l) = map Prop_.id l.
Proof.
  unfold set_order. rewrite map_map. apply map_ext.
  intros p. now destruct (Prop_.id p =? x).
Qed.

Lemma swap_orders_ids (prop other : Prop_.t) (n : Z) (l : list Prop_.t) :
  map Prop_.id (swap_orders prop other n l) = map Prop_.id l.
Proof.
  unfold swap_orders.
  destruct (Prop_.order other =? Prop_.order prop);
    now rewrite !set_order_ids.
Qed.

Lemma commit_swap_store (prop other : Prop_.t) (nudge : Z) (s : Store) :
  store_after (commit_swap prop other nudge s) = s
  \/ store_after (commit_swap prop other nudge s)
     = set_props s (swap_orders prop other nudge (props s)).
Proof.
  unfold commit_swap. destruct (_ && _); [now left | now right].
Qed.

(** The two stores a move can end in. *)
Ltac commit_swap_cases :=
  match goal with
  | |- context [commit_swap ?p ?o ?n ?s] =>
      destruct (commit_swap_store p o n s) as [-> | ->]
  end.

(** No order is pushed when the two orders differ, and the commit goes
    through. *)
Lemma commit_swap_distinct (prop other : Prop_.t) (nudge : Z) (s : Store) :
  Prop_.order other <> Prop_.order prop ->
  commit_swap prop other nudge s
  = Done None (Redirect ep_admin_props)
         (set_props s (swap_orders prop other nudge (props s))).
Proof.
  intros H. unfold commit_swap.
  now destruct (Z.eqb_spec (Prop_.order other) (Prop_.order prop)).
Qed.

Lemma commit_swap_fits (prop other : Prop_.t) (nudge : Z) (s : Store) :
  (Prop_.order other = Prop_.order prop ->
   in_int64 (Prop_.order other + nudge) = true) ->
  commit_swap prop other nudge s
  = Done None (Redirect ep_admin_props)
         (set_props s (swap_orders prop other nudge (props s))).
Proof.
  intros H. unfold commit_swap.
  destruct (Z.eqb_spec (Prop_.order other) (Prop_.order prop)) as [E |];
    [| reflexivity].
  now rewrite (H E).
Qed.

Lemma set_resolution_ids (x : Z) (c : option Z) (r : bool) (l : list Prop_.t) :
  map Prop_.id (set_resolution x c r l) = map Prop_.id l.
Proof.
  unfold set_resolution. rewrite map_map. apply map_ext.
  intros p. now destruct (Prop_.id p =? x).
Qed.

(** The ids of the props after a request: the same, one more, or those of a
    deleted prop removed. *)
Lemma handle_prop_ids (is_admin : bool) (r : Request) (s : Store) :
  let s' := store_after (handle is_admin r s) in
  map Prop_.id (props s') = map Prop_.id (props s)
  \/ (exists p, props s' = props s ++ [p] /\ picks s' = picks s)
  \/ (exists x, props s' = filter (fun p => negb (Prop_.id p =? x)) (props s)
                /\ picks s'
                   = filter (fun k => negb (Pick.prop_id k =? x)) (picks s)).
Proof.
  destruct r; cbn [handle];
    unfold_admin;
    try (destruct is_admin; [| now left]).
  - unfold prop_sheet. destruct (get_settings s) as [st s0] eqn:E.
    apply get_settings_tables in E. destruct E as [Ep _].
    left. rewrite <- Ep.
    destruct (submissions_locked st); [reflexivity |].
    destruct method; [reflexivity |].
    destruct (negb _); [reflexivity |].
    destruct (find _ (entries s0)); [reflexivity |].
    destruct (existsb _ (entries s0)); [reflexivity |].
    destruct (save_picks _ _ _ _); [| reflexivity].
    destruct (forallb _ _); reflexivity.
  - unfold admin_settings_view. destruct (get_settings s) as [st s0] eqn:E.
    apply get_settings_tables in E. destruct E as [Ep _].
    left. rewrite <- Ep.
    repeat (destruct (String.eqb action _); [reflexivity |]). reflexivity.
  - unfold admin_add_prop_view. destruct method; [now left |].
    destruct (negb _); [now left |].
    destruct (negb _); [now left |].
    destruct (add_answers _ _ _ _ _); [| now left].
    destruct (forallb _ _); [| now left].
    right. left. eexists. split; reflexivity.
  - unfold admin_edit_prop_view. left.
    destruct (find_prop s prop_id); [| unfold_not_found; reflexivity].
    destruct method; [reflexivity |].
    destruct (add_answers _ _ _ _ _); [| reflexivity].
    destruct (forallb _ _); [| reflexivity].
    cbn [store_after props set_answers set_props].
    rewrite map_map. apply map_ext.
    intros p. now destruct (Prop_.id p =? prop_id).
  - unfold admin_delete_prop_view.
    destruct (find_prop s prop_id); [| unfold_not_found; now left].
    right. right. exists prop_id. split; reflexivity.
  - unfold admin_move_prop_view. left.
    destruct (find_prop s prop_id); [| unfold_not_found; reflexivity].
    destruct (current_index _ _); [| reflexivity].
    destruct (_ && _).
    + destruct (nth_error _ _); [| reflexivity].
      commit_swap_cases; [reflexivity | apply swap_orders_ids].
    + destruct (_ && _); [| reflexivity].
      destruct (nth_error _ _); [| reflexivity].
      commit_swap_cases; [reflexivity | apply swap_orders_ids].
  - unfold admin_resolve_prop_view. left.
    destruct (find_prop s prop_id); [| unfold_not_found; reflexivity].
    destruct answer_id; try destruct (in_int64 _); try reflexivity;
      apply set_resolution_ids.
  - unfold admin_delete_entry_view. left.
    destruct (find_entry s entry_id); [| unfold_not_found]; reflexivity.
  - unfold api_standings. destruct (get_settings s) as [st s0] eqn:E.
    apply get_settings_tables in E. destruct E as [Ep _].
    left. rewrite <- Ep.
    destruct (negb _); [reflexivity |].
    destruct (standings_loop _ _); reflexivity.
Qed.

(** A pick found after a request was there before, or was saved by
    [prop_sheet] for a prop of the list. *)
Lemma handle_picks (is_admin : bool) (r : Request) (s : Store) (k : Pick.t) :
  In k (picks (store_after (handle is_admin r s))) ->
  In k (picks s) \/ In (Pick.prop_id k) (map Prop_.id (props s)).
Proof.
  destruct r; cbn [handle];
    unfold_admin;
    try (destruct is_admin; [| now left]).
  - unfold prop_sheet. destruct (get_settings s) as [st s0] eqn:E.
    apply get_settings_tables in E. destruct E as [Ep [_ [_ Ek]]].
    rewrite <- Ep, <- Ek.
    destruct (submissions_locked st); [now left |].
    destruct method; [now left |].
    destruct (negb _); [now left |].
    destruct (find _ (entries s0)); [now left |].
    destruct (existsb _ (entries s0)); [now left |].
    destruct (save_picks _ _ _ _) as [tbl' |] eqn:Es; [| now left].
    destruct (forallb _ _); [| now left].
    cbn [store_after picks set_picks]. intros Hk.
    destruct (save_picks_in _ _ _ _ _ Es k Hk) as [H | H]; [now left |].
    right. apply in_map_iff in H. destruct H as [p [Hp Hin]].
    apply in_map_iff. exists p. split; [exact Hp |].
    apply (Permutation_in _ (ordered_props_perm s0)), Hin.
  - unfold admin_settings_view. destruct (get_settings s) as [st s0] eqn:E.
    apply get_settings_tables in E. destruct E as [_ [_ [_ Ek]]].
    rewrite <- Ek.
    repeat (destruct (String.eqb action _); [now left |]). now left.
  - unfold admin_add_prop_view. destruct method; [now left |].
    destruct (negb _); [now left |].
    destruct (negb _); [now left |].
    destruct (add_answers _ _ _ _ _); [| now left].
    destruct (forallb _ _); now left.
  - unfold admin_edit_prop_view.
    destruct (find_prop s prop_id); [| unfold_not_found; now left].
    destruct method; [now left |].
    destruct (add_answers _ _ _ _ _); [| now left].
    destruct (forallb _ _); now left.
  - unfold admin_delete_prop_view.
    destruct (find_prop s prop_id); [| unfold_not_found; now left].
    cbn [store_after picks set_props set_answers set_picks].
    intros Hk. apply filter_In in Hk. now left.
  - unfold admin_move_prop_view.
    destruct (find_prop s prop_id); [| unfold_not_found; now left].
    destruct (current_index _ _); [| now left].
    destruct (_ && _).
    + destruct (nth_error _ _); [commit_swap_cases |]; now left.
    + destruct (_ && _); [| now left].
      destruct (nth_error _ _); [commit_swap_cases |]; now left.
  - unfold admin_resolve_prop_view.
    destruct (find_prop s prop_id); [| unfold_not_found; now left].
    destruct answer_id; try destruct (in_int64 _); now left.
  - unfold admin_delete_entry_view.
    destruct (find_entry s entry_id); [| unfold_not_found; now left].
    cbn [store_after picks set_entries set_picks].
    intros Hk. apply filter_In in Hk. now left.
  - unfold api_standings. destruct (get_settings s) as [st s0] eqn:E.
    apply get_settings_tables in E. destruct E as [_ [_ [_ Ek]]].
    rewrite <- Ek.
    destruct (negb _); [now left |].
    destruct (standings_loop _ _); now left.
Qed.

Lemma handle_picks_have_props (is_admin : bool) (r : Request) (s : Store) :
  picks_have_props s -> picks_have_props (store_after (handle is_admin r s)).
Proof.
  intros Inv k Hk.
  destruct (handle_prop_ids is_admin r s) as [E | [[p [E Ek]] | [x [E Ek]]]].
  - rewrite E. destruct (handle_picks _ _ _ _ Hk); auto.
  - rewrite E, map_app. apply in_or_app. left. rewrite Ek in Hk. auto.
  - rewrite E. rewrite Ek in Hk. apply filter_In in Hk.
    destruct Hk as [Hk Hx]. specialize (Inv k Hk).
    apply in_map_iff in Inv. destruct Inv as [p [Hp Hin]].
    apply in_map_iff. exists p. split; [exact Hp |].
    apply filter_In. split; [exact Hin |]. now rewrite Hp.
Qed.

Lemma reachable_picks_have_props (s : Store) :
  reachable s -> picks_have_props s.
Proof.
  induction 1 as [| s is_admin r _ IH].
  - intros k [].
  - now apply handle_picks_have_props.
Qed.

Lemma reachable_run (l : list Request) (s : Store) :
  reachable s -> reachable (run l s).
Proof.
  revert s. induction l as [| r rest IH]; intros s H; [exact H |].
  simpl. apply IH. now constructor.
Qed.

Lemma find_prop_in_ids (s : Store) (x : Z) :
  In x (map Prop_.id (props s)) -> exists p, find_prop s x = Some p.
Proof.
  intros H. apply in_map_iff in H. destruct H as [p [Hp Hin]].
  unfold find_prop. destruct (find _ (props s)) as [q |] eqn:E.
  - now exists q.
  - apply (find_none _ _ E) in Hin. simpl in Hin.
    rewrite Hp, Z.eqb_refl in Hin. discriminate.
Qed.

(** C5, as the code has it: in a store reached from the initial one by any
    requests, every pick has its prop row, so [get_pick_status] returns the
    status of the pick, pending when the prop is not resolved, and
    [calculate_score] returns the total as soon as the picks that count have
    their answer rows. *)
Theorem reachable_pick_has_prop (s : Store) :
  reachable s ->
  (forall pick, In pick (picks s) ->
     exists prop,
       pick_prop s pick = Some prop
       /\ get_pick_status s pick = Ok (pick_status prop pick))
  /\ (forall entry,
        (forall pick, In pick (entry_picks s entry) ->
                      matches s pick = true -> pick_answer s pick <> None) ->
        calculate_score s entry = Ok (total_score s entry)).
Proof.
  intros Hr. pose proof (reachable_picks_have_props s Hr) as Inv.
  assert (Hp : forall pick, In pick (picks s) ->
                            exists prop, pick_prop s pick = Some prop)
    by (intros pick Hin; apply find_prop_in_ids, Inv, Hin).
  split.
  - intros pick Hin. destruct (Hp pick Hin) as [prop E].
    exists prop. split; [exact E |].
    unfold get_pick_status, pick_status. rewrite E.
    destruct (Prop_.resolved prop); simpl; [| reflexivity].
    now destruct (py_eq _ _).
  - intros entry Ha. unfold calculate_score, total_score.
    rewrite score_loop_sum; [reflexivity | | exact Ha].
    intros pick Hin. unfold entry_picks in Hin. apply filter_In in Hin.
    destruct (Hp pick (proj1 Hin)) as [prop E]. congruence.
Qed.

Lemma reachable_pick_has_prop_witness :
  get_pick_status two_props_store (Pick.mk 1 1 1 1) = Ok pending
  /\ calculate_score two_props_store ann = Ok 0.
Proof.
  destruct (reachable_pick_has_prop two_props_store
              (reachable_run _ _ reach_init)) as [Hs Hc].
  split.
  - destruct (Hs (Pick.mk 1 1 1 1) (or_introl eq_refl)) as [prop [E ->]].
    injection E as <-. reflexivity.
  - apply (Hc ann). intros pick [<- | []]. discriminate.
Defined.

(** ** Resolved props and their answers *)

Lemma find_app_some {A : Type} (f : A -> bool) (l l' : list A) (x : A) :
  find f l = Some x -> find f (l ++ l') = Some x.
Proof.
  induction l as [| y r IH]; simpl; [discriminate |].
  destruct (f y); [trivial | exact IH].
Qed.

Lemma find_filter_some {A : Type} (f g : A -> bool) (l : list A) (x : A) :
  find f l = Some x -> g x = true -> find f (filter g l) = Some x.
Proof.
  intros H Hg. induction l as [| y r IH]; simpl in *; [discriminate |].
  destruct (f y) eqn:Ef.
  - injection H as ->. rewrite Hg. simpl. now rewrite Ef.
  - destruct (g y); simpl; [rewrite Ef |]; now apply IH.
Qed.

Lemma keeps_same (s s' : Store) (q : Z) :
  answers s' = answers s -> keeps_answers s s' q.
Proof.
  intros E a answer H _. unfold find_answer in *. now rewrite E.
Qed.

Lemma keeps_delete_add (s s' : Store) (x q : Z) (created : list Answer.t) :
  answers s' = delete_answers_of x (answers s) ++ created ->
  q <> x -> keeps_answers s s' q.
Proof.
  intros E Hq a answer H Hp. unfold find_answer in *. rewrite E.
  apply find_app_some. unfold delete_answers_of.
  apply find_filter_some; [exact H |].
  rewrite Hp. destruct (Z.eqb_spec q x); [contradiction | reflexivity].
Qed.

(** The step of the invariant: a resolved prop of [s'] comes from a resolved
    prop of [s] with the same id and correct answer, whose answers are
    kept. *)
Lemma resolved_own_answer_step (s s' : Store) :
  (forall p', In p' (props s') -> Prop_.resolved p' = true ->
     exists p, In p (props s) /\ Prop_.resolved p = true
               /\ Prop_.id p' = Prop_.id p
               /\ Prop_.correct_answer_id p' = Prop_.correct_answer_id p
               /\ keeps_answers s s' (Prop_.id p)) ->
  resolved_own_answer s -> resolved_own_answer s'.
Proof.
  intros Hstep Inv p' Hin Hres.
  destruct (Hstep p' Hin Hres) as [p [Hp [Hr [Hid [Hc Hk]]]]].
  specialize (Inv p Hp Hr). unfold own_answer in *. rewrite Hc, Hid.
  destruct (Prop_.correct_answer_id p) as [a |]; [| discriminate].
  destruct (find_answer s a) as [answer |] eqn:E; [| discriminate].
  apply Z.eqb_eq in Inv. rewrite (Hk a answer E Inv).
  now apply Z.eqb_eq.
Qed.

Lemma resolved_own_answer_same (s s' : Store) :
  props s' = props s -> answers s' = answers s ->
  resolved_own_answer s -> resolved_own_answer s'.
Proof.
  intros Ep Ea. apply resolved_own_answer_step.
  intros p' Hin Hres. exists p'. rewrite <- Ep.
  repeat split; auto. now apply keeps_same.
Qed.

Lemma swap_orders_map (prop other : Prop_.t) (n : Z) (l : list Prop_.t) :
  exists f, swap_orders prop other n l = map f l
            /\ forall p, f p = p \/ exists v, f p = with_order p v.
Proof.
  unfold swap_orders, set_order.
  destruct (Prop_.order other =? Prop_.order prop); rewrite !map_map;
    eexists; (split; [reflexivity |]); intros p; cbv beta;
    repeat match goal with
           | |- context [if ?b then _ else _] => destruct b; cbn [Prop_.id with_order]
           end;
    try (now left); right; eexists; reflexivity.
Qed.

Lemma checked_edit (s : Store) (x : Z) (form : PropForm) (p : Prop_.t) :
  checked (AdminEditProp x POST form) s = true ->
  In p (props s) -> Prop_.resolved p = true -> Prop_.id p <> x.
Proof.
  simpl. intros H Hin Hr Hid.
  apply negb_true_iff in H.
  assert (E : existsb (fun q => (Prop_.id q =? x) && Prop_.resolved q)
                      (props s) = true).
  { apply existsb_exists. exists p. split; [exact Hin |].
    rewrite Hr, Hid, Z.eqb_refl. reflexivity. }
  congruence.
Qed.

Lemma handle_resolved_own_answer (is_admin : bool) (r : Request) (s : Store) :
  resolved_own_answer s -> checked r s = true ->
  resolved_own_answer (store_after (handle is_admin r s)).
Proof.
  intros Inv Hc.
  destruct r; cbn [handle];
    unfold_admin;
    try (destruct is_admin; [| exact Inv]).
  - unfold prop_sheet. destruct (get_settings s) as [st s0] eqn:E.
    apply get_settings_tables in E. destruct E as [Ep [Ea _]].
    apply (resolved_own_answer_same s); [| | exact Inv];
      (destruct (submissions_locked st); [assumption |]);
      (destruct method; [assumption |]);
      (destruct (negb _); [assumption |]);
      (destruct (find _ (entries s0)); [assumption |]);
      (destruct (existsb _ (entries s0)); [assumption |]);
      (destruct (save_picks _ _ _ _); [| assumption]);
      (destruct (forallb _ _); assumption).
  - unfold admin_settings_view. destruct (get_settings s) as [st s0] eqn:E.
    apply get_settings_tables in E. destruct E as [Ep [Ea _]].
    apply (resolved_own_answer_same s); [| | exact Inv];
      repeat (destruct (String.eqb action _); [assumption |]); assumption.
  - unfold admin_add_prop_view. destruct method; [exact Inv |].
    destruct (negb _); [exact Inv |].
    destruct (negb _); [exact Inv |].
    destruct (add_answers _ _ _ _ _) as [tbl' |] eqn:Ea; [| exact Inv].
    destruct (forallb _ _); [| exact Inv].
    destruct (add_answers_created _ _ _ _ _ _ Ea) as [created [-> _]].
    revert Inv. apply resolved_own_answer_step.
    cbn [store_after props answers set_answers set_props].
    intros p' Hin Hres. apply in_app_or in Hin.
    destruct Hin as [Hin | [<- | []]]; [| discriminate].
    exists p'. repeat split; auto.
    intros a answer H _. unfold find_answer in *.
    cbn [answers]. now apply find_app_some.
  - unfold admin_edit_prop_view.
    destruct (find_prop s prop_id); [| unfold_not_found; exact Inv].
    destruct method; [exact Inv |].
    destruct (add_answers _ _ _ _ _) as [tbl' |] eqn:Ea; [| exact Inv].
    destruct (forallb _ _); [| exact Inv].
    destruct (add_answers_created _ _ _ _ _ _ Ea) as [created [-> _]].
    revert Inv. apply resolved_own_answer_step.
    cbn [store_after props answers set_answers set_props].
    intros p' Hin Hres. apply in_map_iff in Hin.
    destruct Hin as [p [<- Hin]].
    assert (Hr : Prop_.resolved p = true)
      by (destruct (Prop_.id p =? prop_id); exact Hres).
    exists p. split; [exact Hin |]. split; [exact Hr |].
    split; [now destruct (Prop_.id p =? prop_id) |].
    split; [now destruct (Prop_.id p =? prop_id) |].
    apply (keeps_delete_add _ _ prop_id _ created); [reflexivity |].
    now apply (checked_edit s prop_id form).
  - unfold admin_delete_prop_view.
    destruct (find_prop s prop_id); [| unfold_not_found; exact Inv].
    revert Inv. apply resolved_own_answer_step.
    cbn [store_after props answers set_answers set_props set_picks].
    intros p' Hin Hres. apply filter_In in Hin. destruct Hin as [Hin Hne].
    exists p'. repeat split; auto.
    apply (keeps_delete_add _ _ prop_id _ []);
      [cbn [answers]; now rewrite app_nil_r |].
    intros Heq. rewrite Heq, Z.eqb_refl in Hne. discriminate.
  - unfold admin_move_prop_view.
    destruct (find_prop s prop_id) as [prop |]; [| unfold_not_found; exact Inv].
    destruct (current_index _ _) as [i |]; [| exact Inv].
    assert (Hswap : forall other nudge,
              resolved_own_answer
                (set_props s (swap_orders prop other nudge (props s)))).
    { intros other nudge.
      destruct (swap_orders_map prop other nudge (props s)) as [f [-> Hf]].
      revert Inv. apply resolved_own_answer_step. cbn [props set_props].
      intros p' Hin Hres. apply in_map_iff in Hin.
      destruct Hin as [p [<- Hin]]. exists p.
      destruct (Hf p) as [E | [v E]]; rewrite E in *;
        repeat split; auto; now apply keeps_same. }
    destruct (_ && _).
    + destruct (nth_error _ _); [| exact Inv].
      commit_swap_cases; [exact Inv | apply Hswap].
    + destruct (_ && _); [| exact Inv].
      destruct (nth_error _ _); [| exact Inv].
      commit_swap_cases; [exact Inv | apply Hswap].
  - unfold admin_resolve_prop_view.
    destruct (find_prop s prop_id); [| unfold_not_found; exact Inv].
    destruct answer_id as [| a |];
      [| destruct (in_int64 a); [| exact Inv] | exact Inv];
      cbn [store_after]; intros p' Hin Hres;
      cbn [props set_props] in Hin; apply in_map_iff in Hin;
      destruct Hin as [p [<- Hin]];
      destruct (Z.eqb_spec (Prop_.id p) prop_id) as [Hid | Hid];
      try discriminate; try (now apply Inv).
    unfold own_answer, find_answer. cbn. cbn in Hc. unfold find_answer in Hc.
    destruct (find _ (answers s)); [| discriminate]. now rewrite Hid.
  - unfold admin_delete_entry_view.
    destruct (find_entry s entry_id); [| unfold_not_found]; exact Inv.
  - unfold api_standings. destruct (get_settings s) as [st s0] eqn:E.
    apply get_settings_tables in E. destruct E as [Ep [Ea _]].
    apply (resolved_own_answer_same s); [| | exact Inv];
      (destruct (negb _); [assumption |]);
      (destruct (standings_loop _ _); assumption).
Qed.

Lemma reachable_checked_run (l : list Request) (s : Store) :
  reachable_checked s -> all_checked l s = true ->
  reachable_checked (run l s).
Proof.
  revert s. induction l as [| r rest IH]; intros s H Hc; [exact H |].
  simpl in *. apply andb_true_iff in Hc. destruct Hc as [Hr Hrest].
  apply IH; [now constructor | exact Hrest].
Qed.

(** C2, as the code has it: in a store reached by requests that resolve a
    prop only with an answer row of that prop and edit a prop only while it
    is unresolved, the [correct_answer_id] of every resolved prop is the id
    of an answer row whose [prop_id] is the prop's id. *)
Theorem checked_requests_keep_own_answer (s : Store) :
  reachable_checked s -> resolved_own_answer s.
Proof.
  induction 1 as [| s is_admin r _ IH Hc].
  - intros p [].
  - now apply handle_resolved_own_answer.
Qed.

Lemma checked_requests_keep_own_answer_witness :
  own_answer resolved_store
             (Prop_.mk 1 "Over 2.5 touchdowns?" None 1 true (Some 1)) = true.
Proof.
  apply (checked_requests_keep_own_answer resolved_store).
  - apply (reachable_checked_run _ _ checked_init). reflexivity.
  - now left.
  - reflexivity.
Defined.

(** C2 as stated fails: the resolve form is not checked against the answers
    of the prop, so after two adds and one resolve the first prop is resolved
    with an answer of the second. *)
Lemma foreign_answer_breaks_own_answer :
  reachable foreign_answer_store
  /\ ~ resolved_own_answer foreign_answer_store.
Proof.
  split; [apply reachable_run, reach_init |].
  intros H.
  specialize (H (Prop_.mk 1 "Over 2.5 touchdowns?" None 1 true (Some 3))
                (or_introl eq_refl) eq_refl).
  discriminate.
Qed.

(** ** The display order *)

Lemma prop_le_order (p q : Prop_.t) :
  prop_le p q -> Prop_.order p <= Prop_.order q.
Proof.
  unfold prop_le, prop_leb. intros H. apply orb_true_iff in H.
  destruct H as [H | H]; [apply Z.ltb_lt in H; lia |].
  apply andb_true_iff in H. destruct H as [H _]. apply Z.eqb_eq in H. lia.
Qed.

Lemma order_lt_prop_le (p q : Prop_.t) :
  Prop_.order p < Prop_.order q -> prop_le p q.
Proof.
  unfold prop_le, prop_leb. intros H.
  apply orb_true_iff. left. now apply Z.ltb_lt.
Qed.

Lemma prop_leb_total (p q : Prop_.t) : prop_leb p q = false -> prop_le q p.
Proof.
  unfold prop_le, prop_leb. intros H.
  apply orb_false_iff in H. destruct H as [H1 H2].
  apply Z.ltb_ge in H1. apply orb_true_iff.
  destruct (Z.eq_dec (Prop_.order p) (Prop_.order q)) as [E | E].
  - right. rewrite E, Z.eqb_refl in *. simpl in *.
    apply Z.leb_gt in H2. apply Z.leb_le. lia.
  - left. apply Z.ltb_lt. lia.
Qed.

Lemma prop_le_trans (p q r : Prop_.t) :
  prop_le p q -> prop_le q r -> prop_le p r.
Proof.
  unfold prop_le, prop_leb. intros H1 H2.
  apply orb_true_iff in H1. apply orb_true_iff in H2. apply orb_true_iff.
  rewrite andb_true_iff, Z.ltb_lt, Z.eqb_eq, Z.leb_le in *.
  lia.
Qed.

Lemma insert_prop_sorted (p : Prop_.t) (l : list Prop_.t) :
  StronglySorted prop_le l -> StronglySorted prop_le (insert_prop p l).
Proof.
  induction 1 as [| q r Hr IH Hq]; simpl.
  - constructor; constructor.
  - destruct (prop_leb p q) eqn:E.
    + constructor; [now constructor |]. constructor; [exact E |].
      apply Forall_forall. intros x Hx.
      apply (prop_le_trans p q x); [exact E |].
      now apply (proj1 (Forall_forall _ _) Hq).
    + constructor; [exact IH |].
      apply Forall_forall. intros x Hx.
      apply (Permutation_in _ (insert_prop_perm p r)) in Hx.
      destruct Hx as [<- | Hx]; [now apply prop_leb_total |].
      now apply (proj1 (Forall_forall _ _) Hq).
Qed.

Lemma ordered_props_sorted (s : Store) :
  StronglySorted prop_le (ordered_props s).
Proof.
  unfold ordered_props. induction (props s) as [| p r IH]; simpl.
  - constructor.
  - now apply insert_prop_sorted.
Qed.

(** A list of props with pairwise distinct orders has one sorted
    arrangement. *)
Lemma sorted_perm_unique (l1 l2 : list Prop_.t) :
  StronglySorted prop_le l1 -> StronglySorted prop_le l2 ->
  Permutation l1 l2 -> NoDup (map Prop_.order l1) -> l1 = l2.
Proof.
  revert l2. induction l1 as [| a r1 IH]; intros l2 S1 S2 P N.
  - apply Permutation_nil in P. now subst.
  - destruct l2 as [| b r2];
      [apply Permutation_sym, Permutation_nil in P; discriminate |].
    inversion S1 as [| ? ? S1' F1]; subst.
    inversion S2 as [| ? ? S2' F2]; subst.
    inversion N as [| ? ? Na N']; subst.
    assert (E : a = b).
    { assert (Ha : In a (b :: r2))
        by (apply (Permutation_in _ P); now left).
      assert (Hb : In b (a :: r1))
        by (apply (Permutation_in _ (Permutation_sym P)); now left).
      destruct Ha as [-> | Ha]; [reflexivity |].
      destruct Hb as [-> | Hb]; [reflexivity |].
      apply (proj1 (Forall_forall _ _) F2), prop_le_order in Ha.
      pose proof (proj1 (Forall_forall _ _) F1 b Hb) as Hab.
      apply prop_le_order in Hab.
      exfalso. apply Na. apply in_map_iff. exists b. split; [lia | exact Hb]. }
    subst b. f_equal. apply IH; auto.
    now apply Permutation_cons_inv in P.
Qed.

Lemma sorted_strict (l : list Prop_.t) :
  StronglySorted prop_le l -> NoDup (map Prop_.order l) ->
  StronglySorted Z.lt (map Prop_.order l).
Proof.
  induction 1 as [| a r Hr IH F]; simpl; intros N; [constructor |].
  inversion N as [| ? ? Na N']; subst.
  constructor; [now apply IH |].
  apply Forall_forall. intros x Hx. apply in_map_iff in Hx.
  destruct Hx as [b [<- Hb]].
  pose proof (proj1 (Forall_forall _ _) F b Hb) as Hab.
  apply prop_le_order in Hab.
  assert (Prop_.order a <> Prop_.order b); [| lia].
  intros E. apply Na. apply in_map_iff. now exists b.
Qed.

Lemma strict_sorted (l : list Prop_.t) :
  StronglySorted Z.lt (map Prop_.order l) -> StronglySorted prop_le l.
Proof.
  induction l as [| a r IH]; simpl; intros H; [constructor |].
  inversion H as [| ? ? Hr F]; subst.
  constructor; [now apply IH |].
  apply Forall_forall. intros b Hb. apply order_lt_prop_le.
  apply (proj1 (Forall_forall _ _) F). now apply in_map.
Qed.

Lemma current_index_nth (x : Z) (l : list Prop_.t) (i : nat) :
  current_index x l = Some i ->
  exists q, nth_error l i = Some q /\ Prop_.id q = x.
Proof.
  revert i. induction l as [| p r IH]; intros i; simpl; [discriminate |].
  destruct (Z.eqb_spec (Prop_.id p) x) as [E | E].
  - intros [= <-]. now exists p.
  - destruct (current_index x r) as [j |]; [| discriminate].
    intros [= <-]. simpl. now apply IH.
Qed.

Lemma nth_error_split2 {A : Type} (l : list A) (k : nat) (a b : A) :
  nth_error l k = Some a -> nth_error l (S k) = Some b ->
  exists l1 l2, l = l1 ++ a :: b :: l2 /\ List.length l1 = k.
Proof.
  revert l. induction k as [| k IH]; intros l Ha Hb.
  - destruct l as [| x [| y r]]; try discriminate.
    injection Ha as ->. injection Hb as ->. now exists [], r.
  - destruct l as [| x r]; [discriminate |].
    destruct (IH r Ha Hb) as [l1 [l2 [-> <-]]].
    now exists (x :: l1), l2.
Qed.

Lemma swap_at_app {A : Type} (l1 l2 : list A) (x y : A) :
  swap_at (List.length l1) (l1 ++ x :: y :: l2) = l1 ++ y :: x :: l2.
Proof.
  induction l1 as [| z r IH]; simpl; [reflexivity | now rewrite IH].
Qed.

Lemma map_id_on {A : Type} (f : A -> A) (l : list A) :
  (forall x, In x l -> f x = x) -> map f l = l.
Proof.
  induction l as [| x r IH]; intros H; [reflexivity |].
  simpl. rewrite (H x (or_introl eq_refl)), IH; [reflexivity |].
  intros y Hy. apply H. now right.
Qed.

(** Two neighbours of the sorted list that exchange their orders exchange
    their places, when no two props share an order. *)
Lemma exchange_sorted (s s' : Store) (f : Prop_.t -> Prop_.t)
  (l1 l2 : list Prop_.t) (a b : Prop_.t) :
  NoDup (map Prop_.id (props s)) -> NoDup (map Prop_.order (props s)) ->
  ordered_props s = l1 ++ a :: b :: l2 ->
  props s' = map f (props s) ->
  f a = with_order a (Prop_.order b) ->
  f b = with_order b (Prop_.order a) ->
  (forall p, Prop_.id p <> Prop_.id a -> Prop_.id p <> Prop_.id b ->
             f p = p) ->
  ordered_props s'
  = l1 ++ with_order b (Prop_.order a) :: with_order a (Prop_.order b) :: l2.
Proof.
  intros Nid Nord EL Es' Fa Fb Fo.
  pose proof (ordered_props_perm s) as PL.
  pose proof (ordered_props_sorted s) as SL.
  assert (Nid' : NoDup (map Prop_.id (ordered_props s)))
    by (apply (Permutation_NoDup (Permutation_sym (Permutation_map _ PL)));
        exact Nid).
  assert (Nord' : NoDup (map Prop_.order (ordered_props s)))
    by (apply (Permutation_NoDup (Permutation_sym (Permutation_map _ PL)));
        exact Nord).
  rewrite EL in *.
  assert (Hordmap :
            map Prop_.order
                (l1 ++ with_order b (Prop_.order a)
                    :: with_order a (Prop_.order b) :: l2)
            = map Prop_.order (l1 ++ a :: b :: l2))
    by (rewrite !map_app; reflexivity).
  symmetry. apply sorted_perm_unique.
  - apply strict_sorted. rewrite Hordmap. now apply sorted_strict.
  - apply ordered_props_sorted.
  - apply Permutation_sym.
    apply perm_trans with (props s'); [apply ordered_props_perm |].
    rewrite Es'.
    apply perm_trans with (map f (l1 ++ a :: b :: l2));
      [apply Permutation_map, Permutation_sym, PL |].
    rewrite map_app. cbn [map]. rewrite Fa, Fb.
    rewrite map_app in Nid'. cbn [map] in Nid'.
    pose proof (NoDup_remove_2 _ _ _ Nid') as Ha.
    assert (Hb : ~ In (Prop_.id b)
                   ((map Prop_.id l1 ++ [Prop_.id a]) ++ map Prop_.id l2)).
    { apply NoDup_remove_2. rewrite <- app_assoc. exact Nid'. }
    rewrite !map_id_on.
    + apply Permutation_app_head, perm_swap.
    + intros p Hp. apply Fo; intros E.
      * apply Ha, in_or_app. right. right. rewrite <- E. now apply in_map.
      * apply Hb, in_or_app. right. rewrite <- E. now apply in_map.
    + intros p Hp. apply Fo; intros E.
      * apply Ha, in_or_app. left. rewrite <- E. now apply in_map.
      * apply Hb, in_or_app. left. apply in_or_app. left.
        rewrite <- E. now apply in_map.
  - rewrite Hordmap. exact Nord'.
Qed.

Lemma swap_orders_moved (prop other : Prop_.t) (nudge : Z)
  (l : list Prop_.t) :
  Prop_.id prop <> Prop_.id other ->
  swap_orders prop other nudge l = map (moved prop other nudge) l.
Proof.
  intros Hne. unfold swap_orders, set_order, moved.
  destruct (Prop_.order other =? Prop_.order prop); rewrite !map_map;
    apply map_ext; intros p;
    destruct (Prop_.id p =? Prop_.id prop) eqn:E1;
    destruct (Prop_.id p =? Prop_.id other) eqn:E2;
    cbn [Prop_.id with_order]; rewrite ?E1, ?E2;
    cbn [Prop_.id with_order]; rewrite ?E1, ?E2;
    try reflexivity;
    apply Z.eqb_eq in E1; apply Z.eqb_eq in E2; congruence.
Qed.

Lemma NoDup_map_inj {A B : Type} (f : A -> B) (l : list A) (a b : A) :
  NoDup (map f l) -> In a l -> In b l -> f a = f b -> a = b.
Proof.
  induction l as [| x r IH]; simpl; intros N Ha Hb E; [destruct Ha |].
  inversion N as [| ? ? Nx N']; subst.
  destruct Ha as [-> | Ha], Hb as [-> | Hb]; auto.
  - exfalso. apply Nx. rewrite E. now apply in_map.
  - exfalso. apply Nx. rewrite <- E. now apply in_map.
Qed.

Lemma neighbours_differ {A : Type} (f : Prop_.t -> A)
  (l1 l2 : list Prop_.t) (a b : Prop_.t) :
  NoDup (map f (l1 ++ a :: b :: l2)) -> f a <> f b.
Proof.
  rewrite map_app. cbn [map]. intros N E.
  apply NoDup_remove_2 in N. apply N, in_or_app. right. now left.
Qed.

(** The row [find_prop] returns is the one [current_index] counts to. *)
Lemma found_is_indexed (s : Store) (x : Z) (i : nat) (q : Prop_.t) :
  NoDup (map Prop_.id (props s)) ->
  nth_error (ordered_props s) i = Some q -> Prop_.id q = x ->
  find_prop s x = Some q.
Proof.
  intros N Hn Hid. apply nth_error_In in Hn.
  apply (Permutation_in _ (ordered_props_perm s)) in Hn.
  destruct (find_prop_in_ids s x) as [p Hp];
    [rewrite <- Hid; now apply in_map |].
  rewrite Hp. f_equal. destruct (find_prop_id _ _ _ Hp) as [Hin Hpid].
  apply (NoDup_map_inj Prop_.id (props s)); auto. congruence.
Qed.

Lemma ordered_NoDup {A : Type} (f : Prop_.t -> A) (s : Store) :
  NoDup (map f (props s)) -> NoDup (map f (ordered_props s)).
Proof.
  apply Permutation_NoDup, Permutation_sym, Permutation_map,
    ordered_props_perm.
Qed.

(** The moves in a store whose props have pairwise distinct ids and
    pairwise distinct orders. *)
Section DistinctOrders.

Variable s : Store.
Hypothesis Nid : NoDup (map Prop_.id (props s)).
Hypothesis Nord : NoDup (map Prop_.order (props s)).

Lemma move_up_sorted (prop_id : Z) (k : nat) :
  current_index prop_id (ordered_props s) = Some (S k) ->
  exists l1 l2 q other,
    ordered_props s = l1 ++ other :: q :: l2 /\ List.length l1 = k
    /\ ordered_props (store_after (admin_move_prop prop_id "up" true s))
       = l1 ++ with_order q (Prop_.order other)
            :: with_order other (Prop_.order q) :: l2.
Proof.
  intros Hi.
  destruct (current_index_nth _ _ _ Hi) as [q [Hq Hid]].
  destruct (nth_error (ordered_props s) k) as [other |] eqn:Ho.
  2:{ apply nth_error_None in Ho.
      assert (Hn : nth_error (ordered_props s) (S k) = None)
        by (apply nth_error_None; lia).
      congruence. }
  destruct (nth_error_split2 _ _ _ _ Ho Hq) as [l1 [l2 [EL Hlen]]].
  exists l1, l2, q, other. split; [exact EL |]. split; [exact Hlen |].
  pose proof (ordered_NoDup Prop_.id s Nid) as Nid'.
  pose proof (ordered_NoDup Prop_.order s Nord) as Nord'.
  rewrite EL in Nid', Nord'.
  pose proof (neighbours_differ _ _ _ _ _ Nid') as Hids.
  pose proof (neighbours_differ _ _ _ _ _ Nord') as Hords.
  unfold admin_move_prop, admin_required, admin_move_prop_view.
  rewrite (found_is_indexed s prop_id (S k) q Nid Hq Hid), Hi.
  cbn [String.eqb Ascii.eqb Bool.eqb andb Nat.ltb Nat.leb].
  replace (S k - 1)%nat with k by lia.
  rewrite Ho, (commit_swap_distinct _ _ _ _ Hords). cbn [store_after].
  apply (exchange_sorted s _ (moved q other (-1)) l1 l2 other q Nid Nord EL).
  - cbn [props set_props]. apply swap_orders_moved. congruence.
  - unfold moved.
    destruct (Z.eqb_spec (Prop_.id other) (Prop_.id q)); [contradiction |].
    now rewrite Z.eqb_refl.
  - unfold moved. rewrite Z.eqb_refl.
    now destruct (Z.eqb_spec (Prop_.order other) (Prop_.order q)).
  - intros p H1 H2. unfold moved.
    destruct (Z.eqb_spec (Prop_.id p) (Prop_.id q)); [contradiction |].
    now destruct (Z.eqb_spec (Prop_.id p) (Prop_.id other)).
Qed.

Lemma move_down_sorted (prop_id : Z) (k : nat) :
  current_index prop_id (ordered_props s) = Some k ->
  (S k < List.length (ordered_props s))%nat ->
  exists l1 l2 q other,
    ordered_props s = l1 ++ q :: other :: l2 /\ List.length l1 = k
    /\ ordered_props (store_after (admin_move_prop prop_id "down" true s))
       = l1 ++ with_order other (Prop_.order q)
            :: with_order q (Prop_.order other) :: l2.
Proof.
  intros Hi Hlast.
  destruct (current_index_nth _ _ _ Hi) as [q [Hq Hid]].
  destruct (nth_error (ordered_props s) (S k)) as [other |] eqn:Ho.
  2:{ apply nth_error_None in Ho. lia. }
  destruct (nth_error_split2 _ _ _ _ Hq Ho) as [l1 [l2 [EL Hlen]]].
  exists l1, l2, q, other. split; [exact EL |]. split; [exact Hlen |].
  pose proof (ordered_NoDup Prop_.id s Nid) as Nid'.
  pose proof (ordered_NoDup Prop_.order s Nord) as Nord'.
  rewrite EL in Nid', Nord'.
  pose proof (neighbours_differ _ _ _ _ _ Nid') as Hids.
  pose proof (neighbours_differ _ _ _ _ _ Nord') as Hords.
  unfold admin_move_prop, admin_required, admin_move_prop_view.
  rewrite (found_is_indexed s prop_id k q Nid Hq Hid), Hi.
  cbn [String.eqb Ascii.eqb Bool.eqb andb].
  assert (Hlt : (k <? List.length (ordered_props s) - 1)%nat = true)
    by (apply Nat.ltb_lt; lia).
  rewrite Hlt. replace (k + 1)%nat with (S k) by lia.
  rewrite Ho, commit_swap_distinct by congruence. cbn [store_after].
  apply (exchange_sorted s _ (moved q other 1) l1 l2 q other Nid Nord EL).
  - cbn [props set_props]. now apply swap_orders_moved.
  - unfold moved. rewrite Z.eqb_refl.
    destruct (Z.eqb_spec (Prop_.order other) (Prop_.order q));
      [| reflexivity].
    exfalso. apply Hords. congruence.
  - unfold moved.
    destruct (Z.eqb_spec (Prop_.id other) (Prop_.id q));
      [exfalso; apply Hids; congruence |].
    now rewrite Z.eqb_refl.
  - intros p H1 H2. unfold moved.
    destruct (Z.eqb_spec (Prop_.id p) (Prop_.id q)); [contradiction |].
    now destruct (Z.eqb_spec (Prop_.id p) (Prop_.id other)).
Qed.

Lemma move_up_exchange (prop_id : Z) (k : nat) :
  current_index prop_id (ordered_props s) = Some (S k) ->
  display_ids (store_after (admin_move_prop prop_id "up" true s))
  = swap_at k (display_ids s).
Proof.
  intros Hi.
  destruct (move_up_sorted prop_id k Hi)
    as [l1 [l2 [q [other [EL [Hlen E]]]]]].
  unfold display_ids. rewrite E, EL, !map_app.
  cbn [map Prop_.id with_order]. rewrite <- Hlen.
  rewrite <- (length_map Prop_.id l1). now rewrite swap_at_app.
Qed.

Lemma move_down_exchange (prop_id : Z) (k : nat) :
  current_index prop_id (ordered_props s) = Some k ->
  (S k < List.length (ordered_props s))%nat ->
  display_ids (store_after (admin_move_prop prop_id "down" true s))
  = swap_at k (display_ids s).
Proof.
  intros Hi Hlast.
  destruct (move_down_sorted prop_id k Hi Hlast)
    as [l1 [l2 [q [other [EL [Hlen E]]]]]].
  unfold display_ids. rewrite E, EL, !map_app.
  cbn [map Prop_.id with_order]. rewrite <- Hlen.
  rewrite <- (length_map Prop_.id l1). now rewrite swap_at_app.
Qed.

End DistinctOrders.

Lemma moved_id (prop other : Prop_.t) (nudge : Z) (p : Prop_.t) :
  Prop_.id (moved prop other nudge p) = Prop_.id p.
Proof.
  unfold moved. destruct (Prop_.id p =? Prop_.id prop); [reflexivity |].
  now destruct (Prop_.id p =? Prop_.id other).
Qed.

(** The order values after a move of the prop [q] past its neighbour
    [other]. *)
Lemma swap_orders_values (s : Store) (q other : Prop_.t) (nudge : Z) :
  Prop_.id q <> Prop_.id other ->
  find_prop s (Prop_.id q) = Some q ->
  find_prop s (Prop_.id other) = Some other ->
  let s' := set_props s (swap_orders q other nudge (props s)) in
  option_map Prop_.order (find_prop s' (Prop_.id q))
  = Some (if Prop_.order other =? Prop_.order q
          then Prop_.order other + nudge else Prop_.order other)
  /\ option_map Prop_.order (find_prop s' (Prop_.id other))
     = Some (Prop_.order q).
Proof.
  intros Hne Hq Ho. cbv zeta. unfold find_prop in *. cbn [props set_props].
  rewrite (swap_orders_moved _ _ _ _ Hne).
  rewrite !find_map_id by apply moved_id.
  rewrite Hq, Ho. unfold moved. cbn [option_map].
  rewrite !Z.eqb_refl.
  destruct (Z.eqb_spec (Prop_.id other) (Prop_.id q)); [congruence |].
  split; reflexivity.
Qed.

Lemma move_up_orders (s : Store) (prop_id : Z) (k : nat) (q other : Prop_.t) :
  NoDup (map Prop_.id (props s)) ->
  current_index prop_id (ordered_props s) = Some (S k) ->
  nth_error (ordered_props s) (S k) = Some q ->
  nth_error (ordered_props s) k = Some other ->
  (Prop_.order other = Prop_.order q ->
   in_int64 (Prop_.order q - 1) = true) ->
  let s' := store_after (admin_move_prop prop_id "up" true s) in
  option_map Prop_.order (find_prop s' prop_id)
  = Some (if Prop_.order other =? Prop_.order q
          then Prop_.order q - 1 else Prop_.order other)
  /\ option_map Prop_.order (find_prop s' (Prop_.id other))
     = Some (Prop_.order q).
Proof.
  intros Nid Hi Hq Ho Hfit.
  destruct (current_index_nth _ _ _ Hi) as [q' [Hq' Hid]].
  assert (q' = q) by congruence. subst q'.
  destruct (nth_error_split2 _ _ _ _ Ho Hq) as [l1 [l2 [EL _]]].
  pose proof (ordered_NoDup Prop_.id s Nid) as Nid'. rewrite EL in Nid'.
  pose proof (neighbours_differ _ _ _ _ _ Nid') as Hids.
  pose proof (found_is_indexed s prop_id _ q Nid Hq Hid) as Fq.
  pose proof (found_is_indexed s _ _ other Nid Ho eq_refl) as Fo.
  unfold admin_move_prop, admin_required, admin_move_prop_view.
  rewrite Fq, Hi.
  cbn [String.eqb Ascii.eqb Bool.eqb andb Nat.ltb Nat.leb].
  replace (S k - 1)%nat with k by lia. rewrite Ho.
  rewrite commit_swap_fits
    by (intros E; rewrite E; exact (Hfit E)).
  cbn [store_after]. subst prop_id.
  destruct (swap_orders_values s q other (-1)) as [H1 H2]; auto.
  split; [| exact H2]. rewrite H1.
  destruct (Z.eqb_spec (Prop_.order other) (Prop_.order q)) as [E |];
    [rewrite E; f_equal; lia | reflexivity].
Qed.

Lemma move_down_orders (s : Store) (prop_id : Z) (k : nat)
  (q other : Prop_.t) :
  NoDup (map Prop_.id (props s)) ->
  current_index prop_id (ordered_props s) = Some k ->
  nth_error (ordered_props s) k = Some q ->
  nth_error (ordered_props s) (S k) = Some other ->
  (Prop_.order other = Prop_.order q ->
   in_int64 (Prop_.order q + 1) = true) ->
  let s' := store_after (admin_move_prop prop_id "down" true s) in
  option_map Prop_.order (find_prop s' prop_id)
  = Some (if Prop_.order other =? Prop_.order q
          then Prop_.order q + 1 else Prop_.order other)
  /\ option_map Prop_.order (find_prop s' (Prop_.id other))
     = Some (Prop_.order q).
Proof.
  intros Nid Hi Hq Ho Hfit.
  destruct (current_index_nth _ _ _ Hi) as [q' [Hq' Hid]].
  assert (q' = q) by congruence. subst q'.
  destruct (nth_error_split2 _ _ _ _ Hq Ho) as [l1 [l2 [EL _]]].
  pose proof (ordered_NoDup Prop_.id s Nid) as Nid'. rewrite EL in Nid'.
  pose proof (neighbours_differ _ _ _ _ _ Nid') as Hids.
  pose proof (found_is_indexed s prop_id _ q Nid Hq Hid) as Fq.
  pose proof (found_is_indexed s _ _ other Nid Ho eq_refl) as Fo.
  assert (Hlt : (k <? List.length (ordered_props s) - 1)%nat = true).
  { apply Nat.ltb_lt.
    assert (S k < List.length (ordered_props s))%nat; [| lia].
    apply nth_error_Some. congruence. }
  unfold admin_move_prop, admin_required, admin_move_prop_view.
  rewrite Fq, Hi.
  cbn [String.eqb Ascii.eqb Bool.eqb andb].
  rewrite Hlt. replace (k + 1)%nat with (S k) by lia.
  rewrite Ho.
  rewrite commit_swap_fits
    by (intros E; rewrite E; exact (Hfit E)).
  cbn [store_after]. subst prop_id.
  destruct (swap_orders_values s q other 1) as [H1 H2]; auto.
  split; [| exact H2]. rewrite H1.
  destruct (Z.eqb_spec (Prop_.order other) (Prop_.order q)) as [E |];
    [rewrite E; reflexivity | reflexivity].
Qed.

Lemma move_keeps_rows (s : Store) (prop_id : Z) (direction : string) :
  map unordered
      (props (store_after (admin_move_prop prop_id direction true s)))
  = map unordered (props s).
Proof.
  unfold admin_move_prop, admin_required, admin_move_prop_view.
  assert (Hswap : forall prop other nudge,
            map unordered (swap_orders prop other nudge (props s))
            = map unordered (props s)).
  { intros prop other nudge.
    destruct (swap_orders_map prop other nudge (props s)) as [f [-> Hf]].
    rewrite map_map. apply map_ext. intros p.
    destruct (Hf p) as [-> | [v ->]]; reflexivity. }
  destruct (find_prop s prop_id) as [prop |];
    [| unfold_not_found; reflexivity].
  destruct (current_index _ _) as [i |]; [| reflexivity].
  destruct (_ && _).
  - destruct (nth_error _ _); [| reflexivity].
    commit_swap_cases; [reflexivity | apply Hswap].
  - destruct (_ && _); [| reflexivity].
    destruct (nth_error _ _); [| reflexivity].
    commit_swap_cases; [reflexivity | apply Hswap].
Qed.

Lemma current_index_found (s : Store) (prop_id : Z) (i : nat) :
  current_index prop_id (ordered_props s) = Some i ->
  exists prop, find_prop s prop_id = Some prop.
Proof.
  intros Hi. destruct (current_index_nth _ _ _ Hi) as [q [Hq Hid]].
  apply find_prop_in_ids. rewrite <- Hid. apply in_map.
  apply (Permutation_in _ (ordered_props_perm s)).
  now apply nth_error_In in Hq.
Qed.

Lemma move_first_up (s : Store) (prop_id : Z) :
  current_index prop_id (ordered_props s) = Some O ->
  admin_move_prop prop_id "up" true s = Done None (Redirect ep_admin_props) s.
Proof.
  intros Hi. destruct (current_index_found _ _ _ Hi) as [prop Hp].
  unfold admin_move_prop, admin_required, admin_move_prop_view.
  now rewrite Hp, Hi.
Qed.

Lemma move_last_down (s : Store) (prop_id : Z) (i : nat) :
  current_index prop_id (ordered_props s) = Some i ->
  S i = List.length (ordered_props s) ->
  admin_move_prop prop_id "down" true s
  = Done None (Redirect ep_admin_props) s.
Proof.
  intros Hi Hlen. destruct (current_index_found _ _ _ Hi) as [prop Hp].
  unfold admin_move_prop, admin_required, admin_move_prop_view.
  rewrite Hp, Hi. cbn [String.eqb Ascii.eqb Bool.eqb andb].
  assert (Hlt : (i <? List.length (ordered_props s) - 1)%nat = false)
    by (apply Nat.ltb_ge; lia).
  now rewrite Hlt.
Qed.

(** *** Ids and orders stay distinct *)

Lemma NoDup_map_filter {A B : Type} (f : A -> B) (g : A -> bool)
  (l : list A) :
  NoDup (map f l) -> NoDup (map f (filter g l)).
Proof.
  induction l as [| x r IH]; simpl; intros N; [constructor |].
  inversion N as [| ? ? Nx N']; subst.
  destruct (g x); simpl; [| now apply IH].
  constructor; [| now apply IH].
  intros H. apply Nx. apply in_map_iff in H. destruct H as [y [E Hy]].
  apply filter_In in Hy. rewrite <- E. now apply in_map.
Qed.

Lemma NoDup_snoc {A : Type} (l : list A) (x : A) :
  NoDup l -> ~ In x l -> NoDup (l ++ [x]).
Proof.
  intros N Hx. apply NoDup_rev in N.
  assert (N' : NoDup (rev (x :: rev l)))
    by (apply NoDup_rev; constructor; [now rewrite <- in_rev | exact N]).
  simpl in N'. now rewrite rev_involutive in N'.
Qed.

Lemma new_order_fresh (l : list Z) : ~ In (or_0 (sql_max l) + 1) l.
Proof.
  intros H. rewrite or_0_id in H. destruct (sql_max l) as [m |] eqn:E.
  - apply sql_max_is_max in E. destruct E as [_ Hle].
    specialize (Hle _ H). lia.
  - apply sql_max_nil in E. subst l. destruct H.
Qed.

Lemma next_rowid_not_in (l : list Z) : ~ In (next_rowid l) l.
Proof.
  intros H. apply next_rowid_fresh in H. lia.
Qed.

Lemma move_view_ids (s : Store) (prop_id : Z) (direction : string) :
  map Prop_.id (props (store_after (admin_move_prop_view prop_id direction s)))
  = map Prop_.id (props s).
Proof.
  pose proof (move_keeps_rows s prop_id direction) as H.
  apply (f_equal (map Prop_.id)) in H. rewrite !map_map in H. exact H.
Qed.

Lemma sorted_orders_perm (s s' : Store) :
  map Prop_.order (ordered_props s') = map Prop_.order (ordered_props s) ->
  Permutation (map Prop_.order (props s')) (map Prop_.order (props s)).
Proof.
  intros E.
  apply perm_trans with (map Prop_.order (ordered_props s')).
  - apply Permutation_map, Permutation_sym, ordered_props_perm.
  - rewrite E. apply Permutation_map, ordered_props_perm.
Qed.

Lemma move_view_orders (s : Store) (prop_id : Z) (direction : string) :
  NoDup (map Prop_.id (props s)) -> NoDup (map Prop_.order (props s)) ->
  Permutation
    (map Prop_.order
         (props (store_after (admin_move_prop_view prop_id direction s))))
    (map Prop_.order (props s)).
Proof.
  intros Nid Nord.
  destruct (current_index prop_id (ordered_props s)) as [i |] eqn:Hi.
  2:{ unfold admin_move_prop_view. rewrite Hi.
      destruct (find_prop s prop_id); [| unfold_not_found];
        apply Permutation_refl. }
  destruct (String.eqb_spec direction "up") as [-> | Hup].
  - destruct i as [| k].
    + change (admin_move_prop_view prop_id "up" s)
        with (admin_move_prop prop_id "up" true s).
      rewrite (move_first_up s prop_id Hi). apply Permutation_refl.
    + destruct (move_up_sorted s Nid Nord prop_id k Hi)
        as [l1 [l2 [q [other [EL [_ E]]]]]].
      apply sorted_orders_perm.
      change (admin_move_prop_view prop_id "up" s)
        with (admin_move_prop prop_id "up" true s).
      rewrite E, EL, !map_app. reflexivity.
  - destruct (String.eqb_spec direction "down") as [-> | Hdown].
    + change (admin_move_prop_view prop_id "down" s)
        with (admin_move_prop prop_id "down" true s).
      destruct (current_index_nth _ _ _ Hi) as [q [Hq _]].
      assert (Hlen : (i < List.length (ordered_props s))%nat)
        by (apply nth_error_Some; congruence).
      destruct (Nat.eq_dec (S i) (List.length (ordered_props s))) as [El | El].
      * rewrite (move_last_down s prop_id i Hi El). apply Permutation_refl.
      * assert (Hlast : (S i < List.length (ordered_props s))%nat) by lia.
        destruct (move_down_sorted s Nid Nord prop_id i Hi Hlast)
          as [l1 [l2 [q' [other [EL [_ E]]]]]].
        apply sorted_orders_perm. rewrite E, EL, !map_app. reflexivity.
    + unfold admin_move_prop_view. rewrite Hi.
      destruct (find_prop s prop_id);
        [| unfold_not_found; apply Permutation_refl].
      destruct (String.eqb_spec direction "up"); [contradiction |].
      destruct (String.eqb_spec direction "down"); [contradiction |].
      apply Permutation_refl.
Qed.

(** The ids and the orders of the props stay pairwise distinct under every
    request. *)
Lemma handle_props_distinct (is_admin : bool) (r : Request) (s : Store) :
  NoDup (map Prop_.id (props s)) /\ NoDup (map Prop_.order (props s)) ->
  let s' := store_after (handle is_admin r s) in
  NoDup (map Prop_.id (props s')) /\ NoDup (map Prop_.order (props s')).
Proof.
  intros [Nid Nord].
  destruct r; cbn [handle];
    unfold_admin;
    try (destruct is_admin; [| (split; assumption)]); cbv zeta.
  - unfold prop_sheet. destruct (get_settings s) as [st s0] eqn:E.
    apply get_settings_tables in E. destruct E as [Ep _].
    rewrite <- Ep in Nid, Nord.
    destruct (submissions_locked st); [(split; assumption) |].
    destruct method; [(split; assumption) |].
    destruct (negb _); [(split; assumption) |].
    destruct (find _ (entries s0)); [(split; assumption) |].
    destruct (existsb _ (entries s0)); [(split; assumption) |].
    destruct (save_picks _ _ _ _); [| (split; assumption)].
    destruct (forallb _ _); (split; assumption).
  - unfold admin_settings_view. destruct (get_settings s) as [st s0] eqn:E.
    apply get_settings_tables in E. destruct E as [Ep _].
    rewrite <- Ep in Nid, Nord.
    repeat (destruct (String.eqb action _); [(split; assumption) |]). (split; assumption).
  - unfold admin_add_prop_view. destruct method; [(split; assumption) |].
    destruct (negb _); [(split; assumption) |].
    destruct (negb _); [(split; assumption) |].
    destruct (add_answers _ _ _ _ _); [| (split; assumption)].
    destruct (forallb _ _); [| (split; assumption)].
    cbn [store_after props set_answers set_props]. rewrite !map_app.
    split; apply NoDup_snoc; auto.
    + apply next_rowid_not_in.
    + apply new_order_fresh.
  - unfold admin_edit_prop_view.
    destruct (find_prop s prop_id);
      [| unfold_not_found; (split; assumption)].
    destruct method; [(split; assumption) |].
    destruct (add_answers _ _ _ _ _); [| (split; assumption)].
    destruct (forallb _ _); [| (split; assumption)].
    cbn [store_after props set_answers set_props]. rewrite !map_map.
    split.
    + erewrite map_ext; [exact Nid |].
      intros p. now destruct (Prop_.id p =? prop_id).
    + erewrite map_ext; [exact Nord |].
      intros p. now destruct (Prop_.id p =? prop_id).
  - unfold admin_delete_prop_view.
    destruct (find_prop s prop_id);
      [| unfold_not_found; (split; assumption)].
    cbn [store_after props set_answers set_props set_picks].
    split; now apply NoDup_map_filter.
  - split.
    + now rewrite move_view_ids.
    + apply (Permutation_NoDup
               (Permutation_sym
                  (move_view_orders s prop_id direction Nid Nord))).
      exact Nord.
  - unfold admin_resolve_prop_view.
    destruct (find_prop s prop_id);
      [| unfold_not_found; (split; assumption)].
    destruct answer_id as [| a |];
      [| destruct (in_int64 a); [| (split; assumption)]
       | (split; assumption)];
      cbn [store_after props set_props]; unfold set_resolution;
      rewrite !map_map;
      (split; [erewrite map_ext; [exact Nid |]
              | erewrite map_ext; [exact Nord |]]);
      intros p; now destruct (Prop_.id p =? prop_id).
  - unfold admin_delete_entry_view.
    destruct (find_entry s entry_id); [| unfold_not_found];
      (split; assumption).
  - unfold api_standings. destruct (get_settings s) as [st s0] eqn:E.
    apply get_settings_tables in E. destruct E as [Ep _].
    rewrite <- Ep in Nid, Nord.
    destruct (negb _); [(split; assumption) |].
    destruct (standings_loop _ _); (split; assumption).
Qed.

Lemma reachable_props_distinct (s : Store) :
  reachable s ->
  NoDup (map Prop_.id (props s)) /\ NoDup (map Prop_.order (props s)).
Proof.
  induction 1 as [| s is_admin r _ IH].
  - split; constructor.
  - now apply handle_props_distinct.
Qed.

Lemma move_up_overflow (s : Store) (prop_id : Z) (k : nat)
  (q other : Prop_.t) :
  NoDup (map Prop_.id (props s)) ->
  current_index prop_id (ordered_props s) = Some (S k) ->
  nth_error (ordered_props s) (S k) = Some q ->
  nth_error (ordered_props s) k = Some other ->
  Prop_.order other = Prop_.order q ->
  in_int64 (Prop_.order q - 1) = false ->
  admin_move_prop prop_id "up" true s = Failed OverflowError s.
Proof.
  intros Nid Hi Hq Ho E Hfit.
  destruct (current_index_nth _ _ _ Hi) as [q' [Hq' Hid]].
  assert (q' = q) by congruence. subst q'.
  unfold admin_move_prop, admin_required, admin_move_prop_view.
  rewrite (found_is_indexed s prop_id _ q Nid Hq Hid), Hi.
  cbn [String.eqb Ascii.eqb Bool.eqb andb Nat.ltb Nat.leb].
  replace (S k - 1)%nat with k by lia. rewrite Ho.
  unfold commit_swap. rewrite E, Z.eqb_refl.
  change (Prop_.order q + -1) with (Prop_.order q - 1). now rewrite Hfit.
Qed.

Lemma move_down_overflow (s : Store) (prop_id : Z) (k : nat)
  (q other : Prop_.t) :
  NoDup (map Prop_.id (props s)) ->
  current_index prop_id (ordered_props s) = Some k ->
  nth_error (ordered_props s) k = Some q ->
  nth_error (ordered_props s) (S k) = Some other ->
  Prop_.order other = Prop_.order q ->
  in_int64 (Prop_.order q + 1) = false ->
  admin_move_prop prop_id "down" true s = Failed OverflowError s.
Proof.
  intros Nid Hi Hq Ho E Hfit.
  destruct (current_index_nth _ _ _ Hi) as [q' [Hq' Hid]].
  assert (q' = q) by congruence. subst q'.
  assert (Hlt : (k <? List.length (ordered_props s) - 1)%nat = true).
  { apply Nat.ltb_lt.
    assert (S k < List.length (ordered_props s))%nat; [| lia].
    apply nth_error_Some. congruence. }
  unfold admin_move_prop, admin_required, admin_move_prop_view.
  rewrite (found_is_indexed s prop_id _ q Nid Hq Hid), Hi.
  cbn [String.eqb Ascii.eqb Bool.eqb andb].
  rewrite Hlt. replace (k + 1)%nat with (S k) by lia. rewrite Ho.
  unfold commit_swap. now rewrite E, Z.eqb_refl, Hfit.
Qed.

(** C4, as the code has it: moving the first prop up and moving the last
    prop down change nothing; any move leaves the rows of the props table as
    they were up to their orders (same props, same count); with unique ids,
    the moved prop takes the order of its neighbour, pushed by one (down for
    a move up, up for a move down) when the two orders were equal and the
    pushed order is an integer of 64 bits, and the neighbour takes the order
    of the moved prop; when moreover no two props share an order, the moved
    prop and that neighbour exchange their places in the display order and
    no other prop moves.  Ids and orders are pairwise distinct in every
    store reached from the initial one.  When the two orders were equal and
    the pushed order is outside 64 bits, the move raises [OverflowError] and
    changes nothing. *)
Theorem move_prop_neighbour (s : Store) (prop_id : Z) :
  (current_index prop_id (ordered_props s) = Some O ->
   admin_move_prop prop_id "up" true s
   = Done None (Redirect ep_admin_props) s)
  /\ (forall i, current_index prop_id (ordered_props s) = Some i ->
        S i = List.length (ordered_props s) ->
        admin_move_prop prop_id "down" true s
        = Done None (Redirect ep_admin_props) s)
  /\ (forall direction,
        map unordered
            (props (store_after (admin_move_prop prop_id direction true s)))
        = map unordered (props s))
  /\ (NoDup (map Prop_.id (props s)) ->
      forall k q other,
        (current_index prop_id (ordered_props s) = Some (S k) ->
         nth_error (ordered_props s) (S k) = Some q ->
         nth_error (ordered_props s) k = Some other ->
         (Prop_.order other = Prop_.order q ->
          in_int64 (Prop_.order q - 1) = true) ->
         let s' := store_after (admin_move_prop prop_id "up" true s) in
         option_map Prop_.order (find_prop s' prop_id)
         = Some (if Prop_.order other =? Prop_.order q
                 then Prop_.order q - 1 else Prop_.order other)
         /\ option_map Prop_.order (find_prop s' (Prop_.id other))
            = Some (Prop_.order q))
        /\ (current_index prop_id (ordered_props s) = Some k ->
            nth_error (ordered_props s) k = Some q ->
            nth_error (ordered_props s) (S k) = Some other ->
            (Prop_.order other = Prop_.order q ->
             in_int64 (Prop_.order q + 1) = true) ->
            let s' := store_after (admin_move_prop prop_id "down" true s) in
            option_map Prop_.order (find_prop s' prop_id)
            = Some (if Prop_.order other =? Prop_.order q
                    then Prop_.order q + 1 else Prop_.order other)
            /\ option_map Prop_.order (find_prop s' (Prop_.id other))
               = Some (Prop_.order q)))
  /\ (NoDup (map Prop_.id (props s)) ->
      NoDup (map Prop_.order (props s)) ->
      forall k,
        (current_index prop_id (ordered_props s) = Some (S k) ->
         display_ids (store_after (admin_move_prop prop_id "up" true s))
         = swap_at k (display_ids s))
        /\ (current_index prop_id (ordered_props s) = Some k ->
            (S k < List.length (ordered_props s))%nat ->
            display_ids (store_after (admin_move_prop prop_id "down" true s))
            = swap_at k (display_ids s)))
  /\ (reachable s ->
      NoDup (map Prop_.id (props s)) /\ NoDup (map Prop_.order (props s)))
  /\ (NoDup (map Prop_.id (props s)) ->
      forall k q other,
        Prop_.order other = Prop_.order q ->
        (current_index prop_id (ordered_props s) = Some (S k) ->
         nth_error (ordered_props s) (S k) = Some q ->
         nth_error (ordered_props s) k = Some other ->
         in_int64 (Prop_.order q - 1) = false ->
         admin_move_prop prop_id "up" true s = Failed OverflowError s)
        /\ (current_index prop_id (ordered_props s) = Some k ->
            nth_error (ordered_props s) k = Some q ->
            nth_error (ordered_props s) (S k) = Some other ->
            in_int64 (Prop_.order q + 1) = false ->
            admin_move_prop prop_id "down" true s = Failed OverflowError s)).
Proof.
  split; [apply move_first_up |].
  split; [apply move_last_down |].
  split; [apply move_keeps_rows |].
  split; [| split; [| split; [apply reachable_props_distinct |]]].
  - intros Nid k q other. split.
    + now apply move_up_orders.
    + now apply move_down_orders.
  - intros Nid Nord k. split.
    + now apply move_up_exchange.
    + now apply move_down_exchange.
  - intros Nid k q other E. split.
    + intros Hi Hq Ho Hfit. now apply (move_up_overflow s prop_id k q other).
    + intros Hi Hq Ho Hfit.
      now apply (move_down_overflow s prop_id k q other).
Qed.

Lemma move_prop_neighbour_witness :
  display_ids two_props_store = [1; 2]
  /\ display_ids (store_after (admin_move_prop 2 "up" true two_props_store))
     = [2; 1].
Proof.
  split; [reflexivity |].
  assert (N : NoDup [1; 2])
    by (repeat constructor; simpl; intuition discriminate).
  destruct (move_prop_neighbour two_props_store 2) as [_ [_ [_ [_ [H _]]]]].
  apply (proj1 (H N N O)). reflexivity.
Defined.

(** C4 as stated fails when two props share an order: the prop with id 3,
    third of four, is moved up past its neighbour and past the first prop. *)
Lemma tied_move_passes_two :
  current_index 3 (ordered_props tied_store) = Some 2%nat
  /\ display_ids tied_store = [5; 2; 3; 4]
  /\ display_ids (store_after (admin_move_prop 3 "up" true tied_store))
     = [3; 5; 2; 4]
  /\ display_ids (store_after (admin_move_prop 3 "up" true tied_store))
     <> swap_at 1 (display_ids tied_store).
Proof. repeat split; try reflexivity. discriminate. Qed.

(** On two props that share the smallest order the store holds, the push
    by one leaves the integers of 64 bits: the move up ends in
    [OverflowError] and the props stay as they were. *)
Lemma tied_move_overflows :
  display_ids edge_tied_store = [1; 2]
  /\ admin_move_prop 2 "up" true edge_tied_store
     = Failed OverflowError edge_tied_store.
Proof. split; reflexivity. Qed.

(** * Further properties *)

(** ** What a request writes *)

Lemma get_settings_writes (s : Store) : writes s (snd (get_settings s)).
Proof.
  unfold get_settings. destruct (settings s); simpl; constructor.
Qed.

(** Every request runs [get_settings] or not, and then does one of the
    writes. *)
Lemma handle_writes (is_admin : bool) (r : Request) (s : Store) :
  exists s1, writes s s1 /\ writes s1 (store_after (handle is_admin r s)).
Proof.
  destruct r; cbn [handle]; unfold_admin;
    try (destruct is_admin;
         [| exists s; split; constructor]).
  - exists (snd (get_settings s)). split; [apply get_settings_writes |].
    unfold prop_sheet. destruct (get_settings s) as [st s0]. cbn [snd].
    destruct (submissions_locked st); [constructor |].
    destruct method; [constructor |].
    destruct (negb _); [constructor |].
    destruct (find _ (entries s0)) eqn:Ef; [constructor |].
    destruct (existsb _ (entries s0)) eqn:Ex; [constructor |].
    destruct (save_picks _ _ _ _) eqn:Es; [| constructor].
    destruct (forallb _ _); [| constructor].
    cbn [store_after]. now apply w_submit with (form := form).
  - exists (snd (get_settings s)). split; [apply get_settings_writes |].
    unfold admin_settings_view. destruct (get_settings s) as [st s0].
    cbn [snd].
    repeat (destruct (String.eqb action _); [constructor |]). constructor.
  - exists s. split; [constructor |].
    unfold admin_add_prop_view. destruct method; [constructor |].
    destruct (negb _); [constructor |].
    destruct (negb _); [constructor |].
    destruct (add_answers _ _ _ _ _) eqn:Ea; [| constructor].
    destruct (forallb _ _); [| constructor].
    cbn [store_after]. now apply w_add with (texts := pf_answer_text form)
                                           (points := pf_answer_points form).
  - exists s. split; [constructor |].
    unfold admin_edit_prop_view.
    destruct (find_prop s prop_id); [| unfold_not_found; constructor].
    destruct method; [constructor |].
    destruct (add_answers _ _ _ _ _) eqn:Ea; [| constructor].
    destruct (forallb _ _); [| constructor].
    cbn [store_after]. now apply w_edit with (texts := pf_answer_text form)
                                            (points := pf_answer_points form).
  - exists s. split; [constructor |].
    unfold admin_delete_prop_view.
    destruct (find_prop s prop_id); [| unfold_not_found]; constructor.
  - exists s. split; [constructor |].
    unfold admin_move_prop_view.
    destruct (find_prop s prop_id); [| unfold_not_found; constructor].
    destruct (current_index _ _); [| constructor].
    destruct (_ && _).
    + destruct (nth_error _ _); [commit_swap_cases |]; constructor.
    + destruct (_ && _); [| constructor].
      destruct (nth_error _ _); [commit_swap_cases |]; constructor.
  - exists s. split; [constructor |].
    unfold admin_resolve_prop_view.
    destruct (find_prop s prop_id); [| unfold_not_found; constructor].
    destruct answer_id; try destruct (in_int64 _); constructor.
  - exists s. split; [constructor |].
    unfold admin_delete_entry_view.
    destruct (find_entry s entry_id); [| unfold_not_found]; constructor.
  - exists (snd (get_settings s)). split; [apply get_settings_writes |].
    unfold api_standings. destruct (get_settings s) as [st s0]. cbn [snd].
    destruct (negb _); [constructor |].
    destruct (standings_loop _ _); constructor.
Qed.

(** ** Stores that stay consistent *)

Lemma add_answers_NoDup (prop_id : Z) (texts : list string)
  (points : list Field) (i : Z) (tbl tbl' : list Answer.t) :
  NoDup (map Answer.id tbl) ->
  add_answers prop_id i texts points tbl = Ok tbl' ->
  NoDup (map Answer.id tbl').
Proof.
  revert points i tbl.
  induction texts as [| text texts IH]; intros points i tbl N.
  - simpl. now intros [= <-].
  - destruct points as [| pts points]; [simpl; now intros [= <-] |].
    cbn [add_answers]. destruct (truthy (strip text)); [| now apply IH].
    destruct (int_or_1 pts) as [p | e]; [| discriminate].
    apply IH. rewrite map_app. apply NoDup_snoc; [exact N |].
    apply next_rowid_not_in.
Qed.

Lemma save_picks_created (form : SheetForm) (entry_id : Z)
  (l : list Prop_.t) (tbl tbl' : list Pick.t) :
  save_picks form entry_id l tbl = Ok tbl' ->
  exists created,
    tbl' = tbl ++ created
    /\ map Pick.prop_id created = map Prop_.id (filter (answered form) l)
    /\ Forall (fun k => Pick.entry_id k = entry_id
                        /\ sf_prop form (Pick.prop_id k)
                           = Digits (Pick.answer_id k)) created
    /\ (NoDup (map Pick.id tbl) -> NoDup (map Pick.id tbl')).
Proof.
  revert tbl. induction l as [| prop rest IH]; intros tbl.
  - simpl. intros [= <-]. exists []. rewrite app_nil_r. auto.
  - cbn [save_picks filter]. unfold answered at 1.
    destruct (sf_prop form (Prop_.id prop)) as [| a |] eqn:Ef.
    + apply IH.
    + intros H. apply IH in H. destruct H as [created [-> [Hp [Hall Hn]]]].
      eexists (_ :: created). rewrite <- app_assoc.
      split; [reflexivity |]. split; [simpl; now rewrite Hp |].
      split; [constructor; [now split | exact Hall] |].
      intros N. rewrite app_assoc. apply Hn. rewrite map_app.
      apply NoDup_snoc; [exact N | apply next_rowid_not_in].
    + discriminate.
Qed.

Lemma NoDup_map_snd_key (l : list Pick.t) :
  NoDup (map Pick.prop_id l) -> NoDup (map pick_key l).
Proof.
  intros N. apply NoDup_map_inv with (f := @snd Z Z). now rewrite map_map.
Qed.

Lemma in_filter_ids {A : Type} (f : A -> Z) (x y : Z) (l : list A) :
  In y (map f l) -> y <> x ->
  In y (map f (filter (fun a => negb (f a =? x)) l)).
Proof.
  intros H Hne. apply in_map_iff in H. destruct H as [a [<- Ha]].
  apply in_map. apply filter_In. split; [exact Ha |].
  now destruct (Z.eqb_spec (f a) x).
Qed.

Lemma FOP_snoc {A : Type} (R : A -> A -> Prop) (l : list A) (y : A) :
  ForallOrdPairs R l -> Forall (fun x => R x y) l ->
  ForallOrdPairs R (l ++ [y]).
Proof.
  induction 1 as [| a l Ha _ IH]; intros Hy; simpl.
  - repeat constructor.
  - inversion Hy as [| ? ? Hay Hy']; subst. constructor; [| now apply IH].
    apply Forall_app. split; [exact Ha | now constructor].
Qed.

Lemma FOP_filter {A : Type} (R : A -> A -> Prop) (g : A -> bool)
  (l : list A) :
  ForallOrdPairs R l -> ForallOrdPairs R (filter g l).
Proof.
  induction 1 as [| a l Ha _ IH]; simpl; [constructor |].
  destruct (g a); [| exact IH]. constructor; [| exact IH].
  apply Forall_forall. intros x Hx. apply filter_In in Hx.
  now apply (proj1 (Forall_forall _ _) Ha).
Qed.

Lemma writes_consistent (s s' : Store) :
  writes s s' -> consistent s -> consistent s'.
Proof.
  intros W [Np Na Ne Nk He Nkey Nn Nc].
  destruct W as [| st | form name picks' Hfind Hexact Hsave
                 | question note texts points answers' Hadd
                 | x question note texts points answers' Hadd
                 | x | prop other nudge | x c r | x];
    constructor;
    cbn [props answers entries picks set_settings set_props set_answers
         set_entries set_picks]; auto.
  - rewrite map_app. apply NoDup_snoc; [exact Ne | apply next_rowid_not_in].
  - destruct (save_picks_created _ _ _ _ _ Hsave) as [_ [_ [_ [_ H]]]]. auto.
  - destruct (save_picks_created _ _ _ _ _ Hsave) as [new [-> [_ [Hall _]]]].
    intros k Hk. rewrite map_app. apply in_or_app.
    apply in_app_or in Hk. destruct Hk as [Hk | Hk]; [left; auto |].
    right. left. cbn. symmetry.
    now apply (proj1 (Forall_forall _ _) Hall k Hk).
  - destruct (save_picks_created _ _ _ _ _ Hsave) as [new [-> [Hp [Hall _]]]].
    rewrite map_app. apply NoDup_app; [exact Nkey | |].
    + apply NoDup_map_snd_key. rewrite Hp.
      apply NoDup_map_filter. now apply (ordered_NoDup Prop_.id).
    + intros a Hold Hnew.
      apply in_map_iff in Hold. destruct Hold as [k [<- Hk]].
      apply in_map_iff in Hnew. destruct Hnew as [k' [E Hk']].
      apply (proj1 (Forall_forall _ _) Hall) in Hk'. destruct Hk' as [Hid _].
      apply He, next_rowid_fresh in Hk.
      unfold pick_key in E. injection E as E1 E2. lia.
  - rewrite map_app. apply NoDup_snoc; [exact Nn |].
    intros H. apply in_map_iff in H. destruct H as [e [E Hin]].
    assert (Ht : existsb (fun e0 => String.eqb (Entry.name e0) name)
                         (entries s) = true); [| congruence].
    apply existsb_exists. exists e. split; [exact Hin |].
    now apply String.eqb_eq.
  - apply FOP_snoc; [exact Nc |]. apply Forall_forall. intros e Hin E.
    apply (find_none _ _ Hfind) in Hin. cbv beta in Hin.
    unfold passes_check in E. cbn in E. rewrite E, String.eqb_refl in Hin.
    discriminate.
  - rewrite map_app. apply NoDup_snoc; [exact Np | apply next_rowid_not_in].
  - now apply (add_answers_NoDup _ _ _ _ _ _ Na Hadd).
  - rewrite map_map. erewrite map_ext; [exact Np |].
    intros p. now destruct (Prop_.id p =? x).
  - apply (add_answers_NoDup _ _ _ _ _ _ (NoDup_map_filter _ _ _ Na) Hadd).
  - now apply NoDup_map_filter.
  - now apply NoDup_map_filter.
  - now apply NoDup_map_filter.
  - intros k Hk. apply filter_In in Hk. now apply He.
  - now apply NoDup_map_filter.
  - now rewrite swap_orders_ids.
  - now rewrite set_resolution_ids.
  - now apply NoDup_map_filter.
  - now apply NoDup_map_filter.
  - intros k Hk. apply filter_In in Hk. destruct Hk as [Hk Hx].
    apply in_filter_ids; [now apply He |].
    intros E. rewrite E, Z.eqb_refl in Hx. discriminate.
  - now apply NoDup_map_filter.
  - now apply NoDup_map_filter.
  - now apply FOP_filter.
Qed.

Lemma reachable_consistent (s : Store) : reachable s -> consistent s.
Proof.
  induction 1 as [| s is_admin r _ IH].
  - constructor; simpl; try constructor. intros k [].
  - destruct (handle_writes is_admin r s) as [s1 [W1 W2]].
    apply (writes_consistent s1 _ W2), (writes_consistent s s1 W1), IH.
Qed.

Lemma writes_settings (s s' : Store) :
  writes s s' -> settings s <> None -> settings s' <> None.
Proof.
  intros W H. destruct W; cbn; try exact H; discriminate.
Qed.

Lemma reachable_settings (s : Store) : reachable s -> settings s <> None.
Proof.
  induction 1 as [| s is_admin r _ IH]; [discriminate |].
  destruct (handle_writes is_admin r s) as [s1 [W1 W2]].
  apply (writes_settings s1 _ W2), (writes_settings s s1 W1), IH.
Qed.

(** X1: after start-up the settings row is always there: in every store
    reached from the initial one [get_settings] returns the stored row and
    writes nothing. *)
Theorem settings_row_persists (s : Store) :
  reachable s -> exists st, settings s = Some st /\ get_settings s = (st, s).
Proof.
  intros H. apply reachable_settings in H. unfold get_settings.
  destruct (settings s) as [st |]; [| contradiction]. now exists st.
Qed.

Lemma settings_row_persists_witness :
  exists st, settings resolved_store = Some st
             /\ get_settings resolved_store = (st, resolved_store).
Proof.
  apply (settings_row_persists resolved_store).
  apply reachable_run, reach_init.
Defined.

(** X2: no two picks of a reachable store tie the same entry to the same
    prop. *)
Theorem one_pick_per_entry_and_prop (s : Store) (k1 k2 : Pick.t) :
  reachable s -> In k1 (picks s) -> In k2 (picks s) ->
  Pick.entry_id k1 = Pick.entry_id k2 -> Pick.prop_id k1 = Pick.prop_id k2 ->
  k1 = k2.
Proof.
  intros H H1 H2 Ee Ep. apply reachable_consistent in H.
  apply (NoDup_map_inj pick_key (picks s)); auto.
  - apply (one_pick_per_prop s H).
  - unfold pick_key. now rewrite Ee, Ep.
Qed.

Lemma one_pick_per_entry_and_prop_witness :
  In (Pick.mk 1 1 1 1) (picks resolved_store)
  /\ Pick.mk 1 1 1 1 = Pick.mk 1 1 1 1.
Proof.
  split; [now left |].
  apply (one_pick_per_entry_and_prop resolved_store
           (Pick.mk 1 1 1 1) (Pick.mk 1 1 1 1)).
  - apply reachable_run, reach_init.
  - now left.
  - now left.
  - reflexivity.
  - reflexivity.
Defined.

(** *** Names and case *)



Lemma sql_lower_ascii_char (c : ascii) :
  (nat_of_ascii c <? 128)%nat = true -> sql_lower_char c = lower_char c.
Proof.
  destruct c as [[] [] [] [] [] [] [] []]; intros H;
    try discriminate H; reflexivity.
Qed.




(** On ASCII text the store and Python lower alike. *)
Lemma sql_lower_ascii (t : string) :
  ascii_text t = true -> sql_lower t = lower t.
Proof.
  induction t as [| c r IH]; simpl; [reflexivity |].
  intros H. apply andb_true_iff in H. destruct H as [Hc Hr].
  now rewrite (sql_lower_ascii_char c Hc), (IH Hr).
Qed.





(** Outside ASCII two names that differ only in case are both stored: the
    store leaves the capital E acute of the first as it is, Python lowers
    that of the second. *)
Lemma names_outside_ascii_differ_in_case :
  map Entry.name
      (entries (run [PropSheet POST (mkSheetForm EVA (fun _ => Blank))]
                    eva_store))
  = [Eva; EVA]
  /\ lower Eva = lower EVA.
Proof. split; reflexivity. Qed.

(** X4: every pick of a reachable store belongs to an entry of the entries
    table: the picks of a deleted entry are deleted with it. *)
Theorem reachable_pick_has_entry (s : Store) (k : Pick.t) :
  reachable s -> In k (picks s) ->
  exists e, find_entry s (Pick.entry_id k) = Some e
            /\ In k (entry_picks s e).
Proof.
  intros H Hk. apply reachable_consistent in H.
  pose proof (picks_have_entries s H k Hk) as Hin.
  apply in_map_iff in Hin. destruct Hin as [e0 [E0 Hin0]].
  unfold find_entry.
  destruct (find _ (entries s)) as [e |] eqn:Ef.
  - exists e. split; [reflexivity |]. apply find_some in Ef.
    destruct Ef as [_ Ef]. apply Z.eqb_eq in Ef.
    unfold entry_picks. apply filter_In. split; [exact Hk |].
    rewrite Ef. apply Z.eqb_refl.
  - apply (find_none _ _ Ef) in Hin0. cbv beta in Hin0.
    rewrite E0, Z.eqb_refl in Hin0. discriminate.
Qed.

Lemma reachable_pick_has_entry_witness :
  exists e, find_entry resolved_store 1 = Some e
            /\ In (Pick.mk 1 1 1 1) (entry_picks resolved_store e).
Proof.
  apply (reachable_pick_has_entry resolved_store (Pick.mk 1 1 1 1)).
  - apply reachable_run, reach_init.
  - now left.
Defined.

(** ** Submissions *)

Lemma rstrip_all_space (t : string) :
  all_space t = true -> rstrip t = EmptyString.
Proof.
  induction t as [| c r IH]; simpl; [reflexivity |].
  intros H. apply andb_true_iff in H. destruct H as [Hc Hr].
  now rewrite (IH Hr), Hc.
Qed.

Lemma strip_all_space (t : string) :
  all_space t = true -> truthy (strip t) = false.
Proof.
  intros H. unfold strip. now rewrite (rstrip_all_space t H).
Qed.

Lemma find_exists {A : Type} (f : A -> bool) (l : list A) (x : A) :
  In x l -> f x = true -> exists y, find f l = Some y.
Proof.
  intros Hin Hf. destruct (find f l) as [y |] eqn:E; [now exists y |].
  apply (find_none _ _ E) in Hin. congruence.
Qed.


Lemma existsb_perm {A : Type} (f : A -> bool) (l l' : list A) :
  Permutation l l' -> existsb f l = existsb f l'.
Proof.
  intros P. destruct (existsb f l') eqn:E.
  - apply existsb_exists in E. destruct E as [x [Hx Hf]].
    apply existsb_exists. exists x. split; [| exact Hf].
    now apply (Permutation_in _ (Permutation_sym P)).
  - destruct (existsb f l) eqn:E'; [| reflexivity].
    apply existsb_exists in E'. destruct E' as [x [Hx Hf]].
    assert (existsb f l' = true); [| congruence].
    apply existsb_exists. exists x. split; [| exact Hf].
    now apply (Permutation_in _ P).
Qed.

Lemma ordered_props_ext (s s1 : Store) :
  props s1 = props s -> ordered_props s1 = ordered_props s.
Proof.
  unfold ordered_props. now intros ->.
Qed.

Lemma settled_tables (s : Store) :
  props (settled s) = props s /\ answers (settled s) = answers s
  /\ entries (settled s) = entries s /\ picks (settled s) = picks s.
Proof.
  unfold settled. destruct (get_settings s) as [st s1] eqn:E.
  now apply get_settings_tables in E.
Qed.

Lemma unlocked_settled (s : Store) :
  locked s = false ->
  exists st, get_settings s = (st, settled s) /\ submissions_locked st = false.
Proof.
  unfold locked, settled. destruct (get_settings s) as [st s1]. simpl.
  intros H. now exists st.
Qed.

(** Opens [prop_sheet] on a posted sheet with a name, past the lock. *)
Lemma prop_sheet_posted (form : SheetForm) (s : Store) :
  locked s = false ->
  truthy (strip (sf_name form)) = true ->
  prop_sheet POST form s
  = let name := strip (sf_name form) in
    match find (fun e => String.eqb (sql_lower (Entry.name e)) (lower name))
               (entries s) with
    | Some _ =>
        Done (Some (EntryExists name)) (Render "prop_sheet.html") (settled s)
    | None =>
        if existsb (fun e => String.eqb (Entry.name e) name) (entries s)
        then Failed IntegrityError (settled s)
        else
          let entry := Entry.mk (next_rowid (map Entry.id (entries s))) name in
          match save_picks form (Entry.id entry) (ordered_props s) (picks s)
          with
          | Raise e => Failed e (settled s)
          | Ok picks' =>
              if forallb (fun k => in_int64 (Pick.answer_id k))
                         (skipn (List.length (picks s)) picks')
              then
                Done (Some (PicksSubmitted name))
                     (Redirect (ep_submit_success (Entry.id entry)))
                     (set_picks
                        (set_entries (settled s) (entries s ++ [entry]))
                        picks')
              else Failed OverflowError (settled s)
          end
    end.
Proof.
  intros Hl Hn. destruct (unlocked_settled s Hl) as [st [E L]].
  destruct (settled_tables s) as [Ep [_ [Ee Ek]]].
  unfold prop_sheet. rewrite E, L, Hn. cbn [negb].
  now rewrite Ee, Ek, (ordered_props_ext _ _ Ep).
Qed.

Lemma find_check_none (name : string) (l : list Entry.t) :
  (forall e, In e l -> sql_lower (Entry.name e) <> lower name) ->
  find (fun e => String.eqb (sql_lower (Entry.name e)) (lower name)) l = None.
Proof.
  intros H. destruct (find _ l) as [e |] eqn:Ef; [| reflexivity].
  apply find_some in Ef. destruct Ef as [Hin Heq].
  apply String.eqb_eq in Heq. now apply H in Hin.
Qed.

Lemma existsb_name_false (name : string) (l : list Entry.t) :
  (forall e, In e l -> Entry.name e <> name) ->
  existsb (fun e => String.eqb (Entry.name e) name) l = false.
Proof.
  intros H. destruct (existsb _ l) eqn:Ex; [| reflexivity].
  apply existsb_exists in Ex. destruct Ex as [e [Hin Heq]].
  apply String.eqb_eq in Heq. now apply H in Hin.
Qed.

(** The picks the loop saves are the picks the sheet asks for. *)
Lemma save_picks_sheet (form : SheetForm) (entry_id : Z) (l : list Prop_.t)
  (tbl : list Pick.t) :
  existsb (junk_field form) l = false ->
  save_picks form entry_id l tbl
  = Ok (tbl ++ sheet_picks form entry_id (next_rowid (map Pick.id tbl)) l).
Proof.
  revert tbl. induction l as [| prop rest IH]; intros tbl H.
  - simpl. now rewrite app_nil_r.
  - simpl in *. apply orb_false_iff in H. destruct H as [Hp Hrest].
    unfold junk_field in Hp.
    destruct (sf_prop form (Prop_.id prop)); [| | discriminate].
    + now apply IH.
    + rewrite (IH _ Hrest), <- app_assoc, map_app. cbn [map Pick.id app].
      now rewrite next_rowid_snoc.
Qed.

Lemma sheet_picks_fit (form : SheetForm) (entry_id id : Z)
  (l : list Prop_.t) :
  forallb (fun k => in_int64 (Pick.answer_id k))
          (sheet_picks form entry_id id l)
  = answers_fit form l.
Proof.
  revert id. induction l as [| p r IH]; intros id; [reflexivity |].
  unfold answers_fit in *. simpl.
  destruct (sf_prop form (Prop_.id p)); simpl; now rewrite IH.
Qed.

Lemma forallb_perm {A : Type} (f : A -> bool) (l l' : list A) :
  Permutation l l' -> forallb f l = forallb f l'.
Proof.
  induction 1 as [| x l l' _ IH | x y l | l l' l'' _ IH1 _ IH2]; simpl.
  - reflexivity.
  - now rewrite IH.
  - now destruct (f x), (f y).
  - now rewrite IH1.
Qed.

(** X5: while submissions are open, a sheet whose stripped name, lowered by
    Python, is the name of an existing entry as the store lowers it is
    refused with the "already exists" message; so is every sheet whose name
    equals up to case an existing name in ASCII.  A sheet with exactly the
    name of an existing entry is refused with that message or, when the
    comparison misses it, by the unique index, with [IntegrityError].
    Nothing is written but the settings row [get_settings] inserts when
    there is none. *)
Theorem duplicate_name_rejected (form : SheetForm) (s : Store)
  (e : Entry.t) :
  locked s = false ->
  truthy (strip (sf_name form)) = true ->
  In e (entries s) ->
  let refused :=
    Done (Some (EntryExists (strip (sf_name form))))
         (Render "prop_sheet.html") (settled s) in
  (sql_lower (Entry.name e) = lower (strip (sf_name form)) ->
   prop_sheet POST form s = refused)
  /\ (ascii_text (Entry.name e) = true ->
      lower (Entry.name e) = lower (strip (sf_name form)) ->
      prop_sheet POST form s = refused)
  /\ (Entry.name e = strip (sf_name form) ->
      prop_sheet POST form s = refused
      \/ prop_sheet POST form s = Failed IntegrityError (settled s))
  /\ props (settled s) = props s /\ answers (settled s) = answers s
  /\ entries (settled s) = entries s /\ picks (settled s) = picks s.
Proof.
  intros Hl Hn Hin refused.
  assert (Hfound : sql_lower (Entry.name e) = lower (strip (sf_name form)) ->
                   prop_sheet POST form s = refused).
  { intros Hlow. rewrite (prop_sheet_posted form s Hl Hn). cbv zeta.
    destruct (find_exists
                (fun e0 => String.eqb (sql_lower (Entry.name e0))
                                      (lower (strip (sf_name form))))
                (entries s) e Hin) as [y ->];
      [now apply String.eqb_eq | reflexivity]. }
  split; [exact Hfound |]. split; [| split; [| apply settled_tables]].
  - intros Ha Hlow. apply Hfound. now rewrite (sql_lower_ascii _ Ha).
  - intros Hname. rewrite (prop_sheet_posted form s Hl Hn). cbv zeta.
    destruct (find _ (entries s)); [now left |]. right.
    assert (Hx : existsb (fun e0 => String.eqb (Entry.name e0)
                                               (strip (sf_name form)))
                         (entries s) = true).
    { apply existsb_exists. exists e. split; [exact Hin |].
      now apply String.eqb_eq. }
    now rewrite Hx.
Qed.

Lemma duplicate_name_rejected_witness :
  prop_sheet POST (sheet "  ANN " 2) two_props_store
  = Done (Some (EntryExists "ANN")) (Render "prop_sheet.html")
         (settled two_props_store)
  /\ (prop_sheet POST (mkSheetForm Eva (fun _ => Blank)) eva_store
      = Done (Some (EntryExists Eva)) (Render "prop_sheet.html")
             (settled eva_store)
      \/ prop_sheet POST (mkSheetForm Eva (fun _ => Blank)) eva_store
         = Failed IntegrityError (settled eva_store)).
Proof.
  split.
  - apply (duplicate_name_rejected (sheet "  ANN " 2) two_props_store ann);
      try reflexivity.
    now left.
  - apply (duplicate_name_rejected (mkSheetForm Eva (fun _ => Blank))
                                   eva_store (Entry.mk 1 Eva));
      try reflexivity.
    now left.
Defined.

(** The comparison misses the exact duplicate of a name with a capital
    outside ASCII: the unique index refuses it. *)
Lemma duplicate_outside_ascii_raises :
  prop_sheet POST (mkSheetForm Eva (fun _ => Blank)) eva_store
  = Failed IntegrityError eva_store.
Proof. reflexivity. Qed.

(** X6: a sheet whose name is empty or made of white space is refused with
    the "enter your name" message while submissions are open, and writes
    nothing but the settings row [get_settings] inserts when there is none;
    an add form whose question is empty or made of white space is refused
    with the "question is required" message and writes nothing. *)
Theorem blank_name_or_question_rejected (s : Store) :
  (forall form,
     locked s = false -> all_space (sf_name form) = true ->
     prop_sheet POST form s
     = Done (Some EnterYourName) (Render "prop_sheet.html") (settled s)
     /\ props (settled s) = props s /\ answers (settled s) = answers s
     /\ entries (settled s) = entries s /\ picks (settled s) = picks s)
  /\ (forall form,
        all_space (pf_question form) = true ->
        admin_add_prop POST form true s
        = Done (Some QuestionRequired) (Redirect ep_admin_add_prop) s).
Proof.
  split.
  - intros form Hl Hb. split; [| apply settled_tables].
    destruct (unlocked_settled s Hl) as [st [E L]].
    unfold prop_sheet.
    now rewrite E, L, (strip_all_space _ Hb).
  - intros form Hb. unfold admin_add_prop, admin_required, admin_add_prop_view.
    now rewrite (strip_all_space _ Hb).
Qed.

Lemma blank_name_or_question_rejected_witness :
  prop_sheet POST (mkSheetForm (String (ascii_of_nat 160) " ") (fun _ => Blank))
             two_props_store
  = Done (Some EnterYourName) (Render "prop_sheet.html")
         (settled two_props_store)
  /\ admin_add_prop POST (mkPropForm "   " "" ["Yes"]%string [Blank]) true
                    two_props_store
     = Done (Some QuestionRequired) (Redirect ep_admin_add_prop)
            two_props_store.
Proof.
  split.
  - apply (proj1 (blank_name_or_question_rejected two_props_store));
      reflexivity.
  - apply (proj2 (blank_name_or_question_rejected two_props_store)).
    reflexivity.
Defined.

(** X7: while submissions are open, a sheet with a name that is not blank,
    that passes the comparison with every stored name and is the name of no
    entry, and with no unreadable answer field, is accepted when the answer
    ids it carries are integers of 64 bits: one entry with the stripped name
    is appended under the next rowid, and one pick of that entry is appended
    for each prop of the display list whose field is filled, in display
    order, with the answer the form gives and the next rowids; props,
    answers and the earlier entries and picks stay.  When an answer id is
    outside 64 bits the sheet ends in [OverflowError] and nothing of it is
    saved. *)
Theorem submission_accepted (form : SheetForm) (s : Store) :
  locked s = false ->
  truthy (strip (sf_name form)) = true ->
  (forall e, In e (entries s) ->
             sql_lower (Entry.name e) <> lower (strip (sf_name form))) ->
  (forall e, In e (entries s) -> Entry.name e <> strip (sf_name form)) ->
  existsb (junk_field form) (props s) = false ->
  let entry := Entry.mk (next_rowid (map Entry.id (entries s)))
                        (strip (sf_name form)) in
  let created := sheet_picks form (Entry.id entry)
                             (next_rowid (map Pick.id (picks s)))
                             (ordered_props s) in
  (answers_fit form (props s) = true ->
   prop_sheet POST form s
   = Done (Some (PicksSubmitted (strip (sf_name form))))
          (Redirect (ep_submit_success (Entry.id entry)))
          (set_picks (set_entries (settled s) (entries s ++ [entry]))
                     (picks s ++ created)))
  /\ (answers_fit form (props s) = false ->
      prop_sheet POST form s = Failed OverflowError (settled s))
  /\ map Pick.prop_id created
     = map Prop_.id (filter (answered form) (ordered_props s))
  /\ Forall (fun k => Pick.entry_id k = Entry.id entry
                      /\ sf_prop form (Pick.prop_id k)
                         = Digits (Pick.answer_id k)) created
  /\ props (settled s) = props s /\ answers (settled s) = answers s
  /\ entries (settled s) = entries s /\ picks (settled s) = picks s.
Proof.
  intros Hl Hn Hcheck Hnew Hj entry created.
  rewrite (existsb_perm _ _ _ (Permutation_sym (ordered_props_perm s))) in Hj.
  pose proof (save_picks_sheet form (Entry.id entry) _ (picks s) Hj) as Hs.
  assert (Hfit : forallb (fun k => in_int64 (Pick.answer_id k))
                         (skipn (List.length (picks s)) (picks s ++ created))
                 = answers_fit form (props s)).
  { rewrite skipn_length_app. unfold created. rewrite sheet_picks_fit.
    apply forallb_perm, ordered_props_perm. }
  rewrite (prop_sheet_posted form s Hl Hn). cbv zeta.
  rewrite (find_check_none _ _ Hcheck), (existsb_name_false _ _ Hnew).
  fold entry. rewrite Hs. fold created. rewrite Hfit.
  split; [now intros -> |]. split; [now intros -> |].
  destruct (save_picks_created _ _ _ _ _ Hs) as [created' [E [Hp [Hall _]]]].
  apply app_inv_head in E. subst created'.
  split; [exact Hp |]. split; [exact Hall |]. apply settled_tables.
Qed.

Lemma submission_accepted_witness :
  prop_sheet POST (sheet "Bob" 2) two_props_store
  = Done (Some (PicksSubmitted "Bob")) (Redirect (ep_submit_success 2))
         (set_picks
            (set_entries (settled two_props_store)
                         (entries two_props_store ++ [Entry.mk 2 "Bob"]))
            (picks two_props_store ++ [Pick.mk 2 2 1 2]))
  /\ prop_sheet POST (sheet "Bob" (2 ^ 63)) two_props_store
     = Failed OverflowError (settled two_props_store).
Proof.
  split.
  - apply (submission_accepted (sheet "Bob" 2) two_props_store);
      try reflexivity.
    + intros e [<- | []]. discriminate.
    + intros e [<- | []]. discriminate.
  - apply (submission_accepted (sheet "Bob" (2 ^ 63)) two_props_store);
      try reflexivity.
    + intros e [<- | []]. discriminate.
    + intros e [<- | []]. discriminate.
Defined.



(** ** Forms with unreadable points *)

Lemma add_answers_unreadable (prop_id i : Z) (texts : list string)
  (points : list Field) (tbl : list Answer.t) :
  unreadable texts points = true ->
  add_answers prop_id i texts points tbl = Raise ValueError.
Proof.
  revert points i tbl.
  induction texts as [| text texts IH]; intros points i tbl;
    [discriminate |].
  destruct points as [| pts points]; [discriminate |].
  cbn [unreadable add_answers]. destruct (truthy (strip text)).
  - destruct pts; cbn [int_or_1]; [apply IH | apply IH | reflexivity].
  - apply IH.
Qed.

(** X9: an add or edit form in which a row with a text has points [int]
    cannot read writes nothing: no prop and no answer is added, and an
    edited prop keeps its question, its note and its answers.  The request
    ends in [ValueError]; only the add form on a props table whose largest
    [order] is the largest integer of the store ends earlier, in the
    [OverflowError] of the insert of the prop. *)
Theorem unreadable_points_write_nothing (form : PropForm) (s : Store) :
  unreadable (pf_answer_text form) (pf_answer_points form) = true ->
  (truthy (strip (pf_question form)) = true ->
   (forall m, is_max m (map Prop_.order (props s)) ->
              - 2 ^ 63 <= m < 2 ^ 63 - 1) ->
   admin_add_prop POST form true s = Failed ValueError s)
  /\ (truthy (strip (pf_question form)) = true ->
      exists e, admin_add_prop POST form true s = Failed e s)
  /\ (forall prop_id prop,
        find_prop s prop_id = Some prop ->
        admin_edit_prop prop_id POST form true s = Failed ValueError s).
Proof.
  intros Hu. split; [| split].
  - intros Hq Hm. unfold admin_add_prop, admin_required, admin_add_prop_view.
    rewrite Hq. cbn [negb Prop_.order Prop_.id].
    assert (Hord : in_int64 (or_0 (sql_max (map Prop_.order (props s))) + 1)
                   = true).
    { apply in_int64_spec. rewrite or_0_id.
      destruct (sql_max (map Prop_.order (props s))) as [m' |] eqn:E; [| lia].
      apply sql_max_is_max in E. apply Hm in E. lia. }
    rewrite Hord. cbn [negb]. now rewrite add_answers_unreadable.
  - intros Hq. unfold admin_add_prop, admin_required, admin_add_prop_view.
    rewrite Hq. cbn [negb Prop_.order Prop_.id].
    destruct (negb (in_int64 _)); [now eexists |].
    rewrite add_answers_unreadable by exact Hu. now eexists.
  - intros x prop Hp.
    unfold admin_edit_prop, admin_required, admin_edit_prop_view.
    rewrite Hp. now rewrite add_answers_unreadable.
Qed.

Lemma unreadable_points_write_nothing_witness :
  admin_edit_prop 1 POST
    (mkPropForm "Coin toss" "" ["Heads"; " "; "Tails"]%string
                [Digits 2; Junk; Junk]) true resolved_store
  = Failed ValueError resolved_store
  /\ admin_add_prop POST
       (mkPropForm "Coin toss" "" ["Heads"; " "; "Tails"]%string
                   [Digits 2; Junk; Junk]) true resolved_store
     = Failed ValueError resolved_store.
Proof.
  destruct (unreadable_points_write_nothing
              (mkPropForm "Coin toss" "" ["Heads"; " "; "Tails"]%string
                          [Digits 2; Junk; Junk])
              resolved_store eq_refl) as [Hadd [_ Hedit]].
  split.
  - apply (Hedit 1 (Prop_.mk 1 "Over 2.5 touchdowns?" None 1 true (Some 1))).
    reflexivity.
  - apply Hadd; [reflexivity |].
    intros m [[<- | []] _].
    split; [apply Z.leb_le | apply Z.ltb_lt]; reflexivity.
Defined.

(** ** Scores and statuses *)

Lemma status_correct_matches (s : Store) (pick : Pick.t) :
  status_correct s pick = matches s pick.
Proof.
  unfold status_correct, get_pick_status, matches.
  destruct (pick_prop s pick) as [prop |]; [| reflexivity].
  destruct (Prop_.resolved prop); simpl; [| reflexivity].
  now destruct (py_eq _ _).
Qed.

(** X10: the score and the statuses agree: whenever [calculate_score]
    returns, its value is the sum of the points of the picks of the entry
    that [get_pick_status] calls correct; pending and incorrect picks add
    nothing. *)
Theorem score_sums_correct_picks (s : Store) (entry : Entry.t) (n : Z) :
  calculate_score s entry = Ok n ->
  n = fold_right Z.add 0
        (map (points_of s)
             (filter (status_correct s) (entry_picks s entry))).
Proof.
  intros H. apply calculate_score_ok in H. rewrite H. unfold total_score.
  f_equal. f_equal. apply filter_ext. intros k.
  symmetry. apply status_correct_matches.
Qed.

Lemma score_sums_correct_picks_witness :
  1 = fold_right Z.add 0
        (map (points_of resolved_store)
             (filter (status_correct resolved_store)
                     (entry_picks resolved_store ann))).
Proof.
  apply (score_sums_correct_picks resolved_store ann 1). reflexivity.
Defined.

(** ** Deleting entries and props *)

Lemma filter_filter_comm {A : Type} (f g : A -> bool) (l : list A) :
  filter f (filter g l) = filter g (filter f l).
Proof.
  induction l as [| x r IH]; [reflexivity |].
  simpl. destruct (g x) eqn:Eg, (f x) eqn:Ef; simpl;
    rewrite ?Eg, ?Ef, IH; reflexivity.
Qed.

Lemma filter_all {A : Type} (f : A -> bool) (l : list A) :
  (forall x, In x l -> f x = true) -> filter f l = l.
Proof.
  induction l as [| x r IH]; intros H; [reflexivity |].
  simpl. rewrite (H x (or_introl eq_refl)), IH; [reflexivity |].
  intros y Hy. apply H. now right.
Qed.

Lemma find_filter_none {A : Type} (f g : A -> bool) (l : list A) :
  find f l = None -> find f (filter g l) = None.
Proof.
  induction l as [| x r IH]; [reflexivity |].
  simpl. destruct (f x) eqn:Ef; [discriminate |].
  intros H. destruct (g x); simpl; [rewrite Ef |]; now apply IH.
Qed.

Lemma find_filter_other {A : Type} (key : A -> Z) (x y : Z) (l : list A) :
  y <> x ->
  find (fun a => key a =? y) (filter (fun a => negb (key a =? x)) l)
  = find (fun a => key a =? y) l.
Proof.
  intros Hne. induction l as [| a r IH]; [reflexivity |].
  simpl. destruct (Z.eqb_spec (key a) x) as [Ex | Ex]; simpl.
  - destruct (Z.eqb_spec (key a) y); [congruence | exact IH].
  - destruct (key a =? y); [reflexivity | exact IH].
Qed.

(** X11: deleting an entry removes it and its picks, keeps every other
    entry with its picks and its score, and leaves props, answers and
    settings as they were; an id no entry has gives a 404, or
    [OverflowError] when it is outside 64 bits, and writes nothing. *)
Theorem delete_entry_keeps_other_scores (s : Store) (entry_id : Z) :
  let s' := store_after (admin_delete_entry entry_id true s) in
  (forall entry, find_entry s entry_id = Some entry ->
     admin_delete_entry entry_id true s
     = Done (Some (DeletedEntry (Entry.name entry)))
            (Redirect ep_admin_entries) s'
     /\ find_entry s' entry_id = None
     /\ (forall k, In k (picks s') -> Pick.entry_id k <> entry_id))
  /\ (forall e, Entry.id e <> entry_id ->
                (In e (entries s') <-> In e (entries s))
                /\ entry_picks s' e = entry_picks s e
                /\ calculate_score s' e = calculate_score s e)
  /\ (forall e, In e (entries s') -> In e (entries s))
  /\ (forall k, In k (picks s') -> In k (picks s))
  /\ props s' = props s /\ answers s' = answers s
  /\ settings s' = settings s
  /\ (find_entry s entry_id = None ->
      (in_int64 entry_id = true ->
       admin_delete_entry entry_id true s = Done None NotFound404 s)
      /\ (in_int64 entry_id = false ->
          admin_delete_entry entry_id true s = Failed OverflowError s)).
Proof.
  unfold admin_delete_entry, admin_required, admin_delete_entry_view.
  destruct (find_entry s entry_id) as [entry |] eqn:Ef.
  - cbn [store_after].
    split; [| split; [| split; [| split; [| split; [| split; [| split]]]]]];
      try reflexivity; try discriminate.
    + intros entry0 [= <-]. split; [reflexivity |]. split.
      * unfold find_entry. cbn [entries set_entries].
        destruct (find _ (filter _ (entries s))) as [e |] eqn:E;
          [| reflexivity].
        apply find_some in E. destruct E as [He Hid].
        apply filter_In in He. destruct He as [_ He].
        rewrite Hid in He. discriminate.
      * cbn [picks set_entries set_picks]. intros k Hk.
        apply filter_In in Hk. destruct Hk as [_ Hk].
        intros E. rewrite E, Z.eqb_refl in Hk. discriminate.
    + intros e Hne.
      assert (Ep : entry_picks
                     (set_entries
                        (set_picks s
                           (filter (fun k => negb (Pick.entry_id k =? entry_id))
                                   (picks s)))
                        (filter (fun e0 => negb (Entry.id e0 =? entry_id))
                                (entries s))) e
                   = entry_picks s e).
      { unfold entry_picks. cbn [picks set_entries set_picks].
        rewrite filter_filter_comm. apply filter_all.
        intros k Hk. apply filter_In in Hk. destruct Hk as [_ Hk].
        apply Z.eqb_eq in Hk. rewrite Hk.
        now destruct (Z.eqb_spec (Entry.id e) entry_id). }
      split; [| split; [exact Ep |]].
      * cbn [entries set_entries]. rewrite filter_In.
        destruct (Z.eqb_spec (Entry.id e) entry_id); [contradiction |].
        simpl. tauto.
      * unfold calculate_score. rewrite Ep.
        now apply score_loop_ext.
    + cbn [entries set_entries]. intros e He. now apply filter_In in He.
    + cbn [picks set_entries set_picks]. intros k Hk.
      now apply filter_In in Hk.
  - assert (Hs : store_after (not_found entry_id s) = s)
      by (unfold not_found; now destruct (in_int64 entry_id)).
    rewrite Hs.
    split; [discriminate |].
    split; [intros e _; split; [tauto | now split] |].
    split; [tauto |]. split; [tauto |].
    split; [reflexivity |]. split; [reflexivity |]. split; [reflexivity |].
    intros _. unfold not_found. split; intros ->; reflexivity.
Qed.

Lemma delete_entry_keeps_other_scores_witness :
  In ann (entries
            (store_after (admin_delete_entry 2 true
               (run [PropSheet POST (sheet "Bob" 2)] two_props_store))))
  /\ calculate_score
       (store_after (admin_delete_entry 2 true
          (run [PropSheet POST (sheet "Bob" 2)] two_props_store))) ann
     = calculate_score (run [PropSheet POST (sheet "Bob" 2)] two_props_store)
                       ann.
Proof.
  destruct (proj1 (proj2 (delete_entry_keeps_other_scores
                            (run [PropSheet POST (sheet "Bob" 2)]
                                 two_props_store) 2)) ann)
    as [Hin [_ Hscore]]; [discriminate |].
  split; [| exact Hscore]. apply Hin. now left.
Defined.

Lemma score_loop_without_prop (s s' : Store) (x : Z) (prop : Prop_.t)
  (l : list Pick.t) (total : Z) :
  find_prop s x = Some prop -> Prop_.resolved prop = false ->
  (forall y, y <> x -> find_prop s' y = find_prop s y) ->
  (forall a answer, find_answer s a = Some answer ->
                    Answer.prop_id answer <> x ->
                    find_answer s' a = Some answer) ->
  (forall a, find_answer s a = None -> find_answer s' a = None) ->
  (forall k answer, In k l -> Pick.prop_id k <> x ->
                    pick_answer s k = Some answer ->
                    Answer.prop_id answer <> x) ->
  score_loop s' (filter (fun k => negb (Pick.prop_id k =? x)) l) total
  = score_loop s l total.
Proof.
  intros Hp Hr Hprops Hans Hnone. revert total.
  induction l as [| k rest IH]; intros total Hcross; [reflexivity |].
  assert (Hrest : forall k0 answer, In k0 rest -> Pick.prop_id k0 <> x ->
                    pick_answer s k0 = Some answer ->
                    Answer.prop_id answer <> x)
    by (intros k0 answer Hin; apply Hcross; now right).
  cbn [filter score_loop]. unfold pick_prop.
  destruct (Z.eqb_spec (Pick.prop_id k) x) as [E | E]; cbn [negb].
  - rewrite E, Hp, Hr. cbn [andb]. now apply IH.
  - cbn [score_loop]. unfold pick_prop. rewrite (Hprops _ E).
    destruct (find_prop s (Pick.prop_id k)) as [p |]; [| reflexivity].
    destruct (Prop_.resolved p && _); [| now apply IH].
    destruct (pick_answer s k) as [answer |] eqn:Ea.
    + unfold pick_answer in *.
      rewrite (Hans _ _ Ea (Hcross k answer (or_introl eq_refl) E Ea)).
      now apply IH.
    + unfold pick_answer in *. now rewrite (Hnone _ Ea).
Qed.

(** X12: deleting a prop removes the prop, its answers and the picks on it
    and nothing else: the other props, answers and picks, all entries and
    the settings stay; when the prop was unresolved and no pick on another
    prop names one of its answers, every entry keeps its score. *)
Theorem delete_prop_cascades (s : Store) (prop_id : Z) (prop : Prop_.t) :
  find_prop s prop_id = Some prop ->
  let s' := store_after (admin_delete_prop prop_id true s) in
  admin_delete_prop prop_id true s
  = Done (Some PropDeleted) (Redirect ep_admin_props) s'
  /\ find_prop s' prop_id = None
  /\ (forall p, In p (props s') <->
                In p (props s) /\ Prop_.id p <> prop_id)
  /\ (forall k, In k (picks s') <->
                In k (picks s) /\ Pick.prop_id k <> prop_id)
  /\ (forall a, In a (answers s') <->
                In a (answers s) /\ Answer.prop_id a <> prop_id)
  /\ (forall y, y <> prop_id -> find_prop s' y = find_prop s y)
  /\ entries s' = entries s
  /\ settings s' = settings s
  /\ (Prop_.resolved prop = false ->
      (forall k answer, In k (picks s) -> Pick.prop_id k <> prop_id ->
                        pick_answer s k = Some answer ->
                        Answer.prop_id answer <> prop_id) ->
      forall e, calculate_score s' e = calculate_score s e).
Proof.
  intros Hp. unfold admin_delete_prop, admin_required, admin_delete_prop_view.
  rewrite Hp. cbn [store_after].
  assert (Hfilter : forall {A : Type} (key : A -> Z) (l : list A) (a : A),
            In a (filter (fun b => negb (key b =? prop_id)) l) <->
            In a l /\ key a <> prop_id).
  { intros A key l a. rewrite filter_In.
    destruct (Z.eqb_spec (key a) prop_id); simpl; intuition congruence. }
  assert (Hprops : forall y, y <> prop_id ->
            find_prop
              (set_props
                 (set_answers
                    (set_picks s
                       (filter (fun k => negb (Pick.prop_id k =? prop_id))
                               (picks s)))
                    (delete_answers_of prop_id (answers s)))
                 (filter (fun p => negb (Prop_.id p =? prop_id)) (props s))) y
            = find_prop s y).
  { intros y Hy. unfold find_prop. cbn [props set_props].
    now apply (find_filter_other Prop_.id). }
  split; [reflexivity |].
  split; [| split; [| split; [| split; [| split; [| split; [| split]]]]]].
  - unfold find_prop. cbn [props set_props].
    destruct (find _ (filter _ (props s))) as [p |] eqn:E; [| reflexivity].
    apply find_some in E. destruct E as [Hin Hid].
    apply filter_In in Hin. destruct Hin as [_ Hin].
    rewrite Hid in Hin. discriminate.
  - intros p. cbn [props set_props]. apply (Hfilter _ Prop_.id).
  - intros k. cbn [picks set_props set_answers set_picks].
    apply (Hfilter _ Pick.prop_id).
  - intros a. cbn [answers set_props set_answers set_picks].
    apply (Hfilter _ Answer.prop_id).
  - exact Hprops.
  - reflexivity.
  - reflexivity.
  - intros Hr Hcross e. unfold calculate_score, entry_picks.
    cbn [picks set_props set_answers set_picks].
    rewrite filter_filter_comm.
    apply (score_loop_without_prop s _ prop_id prop); auto.
    + intros a answer Ha Hne. unfold find_answer in *.
      cbn [answers set_props set_answers]. unfold delete_answers_of.
      apply find_filter_some; [exact Ha |].
      now destruct (Z.eqb_spec (Answer.prop_id answer) prop_id).
    + intros a Ha. unfold find_answer in *.
      cbn [answers set_props set_answers]. unfold delete_answers_of.
      now apply find_filter_none.
    + intros k answer Hin. apply Hcross.
      apply filter_In in Hin. tauto.
Qed.

Lemma delete_prop_cascades_witness :
  picks two_props_store = [Pick.mk 1 1 1 1]
  /\ picks (store_after (admin_delete_prop 1 true two_props_store)) = []
  /\ calculate_score (store_after (admin_delete_prop 1 true two_props_store))
                     ann
     = calculate_score two_props_store ann.
Proof.
  split; [reflexivity |]. split; [reflexivity |].
  destruct (delete_prop_cascades two_props_store 1
              (Prop_.mk 1 "Over 2.5 touchdowns?" None 1 false None)
              eq_refl) as [_ [_ [_ [_ [_ [_ [_ [_ H]]]]]]]].
  apply H; [reflexivity |].
  intros k answer [<- | []] Hne. now contradiction Hne.
Defined.

(** ** Resolving again *)

Lemma set_resolution_twice (x : Z) (c1 c2 : option Z) (r1 r2 : bool)
  (l : list Prop_.t) :
  set_resolution x c2 r2 (set_resolution x c1 r1 l) = set_resolution x c2 r2 l.
Proof.
  unfold set_resolution. rewrite map_map. apply map_ext. intros p.
  destruct (Prop_.id p =? x) eqn:E; cbn [Prop_.id with_resolution];
    now rewrite E.
Qed.

(** X13: the last resolution wins: resolving or unresolving a prop, with
    nothing or with an answer id of 64 bits, after any earlier request on
    the same prop's resolve form gives the reply and the store that the last
    request alone would have given.  A last request the view cannot read or
    the store cannot hold fails and leaves what the earlier request
    wrote. *)
Theorem last_resolution_wins (s : Store) (prop_id : Z) (first last : Field) :
  let s1 := store_after (admin_resolve_prop prop_id first true s) in
  (accepted last = true ->
   admin_resolve_prop prop_id last true s1
   = admin_resolve_prop prop_id last true s)
  /\ (accepted last = false -> find_prop s prop_id <> None ->
      exists e, admin_resolve_prop prop_id last true s1 = Failed e s1).
Proof.
  unfold admin_resolve_prop, admin_required, admin_resolve_prop_view.
  destruct (find_prop s prop_id) as [prop |] eqn:Ep.
  2:{ unfold not_found. destruct (in_int64 prop_id); cbn [store_after];
        rewrite Ep; (split; [reflexivity | intros _ H; now contradiction H]). }
  assert (Hfind : forall c r,
            find_prop (set_props s (set_resolution prop_id c r (props s)))
                      prop_id
            = Some (with_resolution prop c r)).
  { intros c r. unfold find_prop, set_resolution. cbn [props set_props].
    rewrite find_map_id
      by (intros p; now destruct (Prop_.id p =? prop_id)).
    fold (find_prop s prop_id). rewrite Ep. cbn [option_map].
    destruct (find_prop_id _ _ _ Ep) as [_ ->]. now rewrite Z.eqb_refl. }
  destruct first as [| a |]; [| destruct (in_int64 a) |];
    cbn [store_after]; rewrite ?Hfind, ?Ep;
    (split; [| intros Hl _]; [intros Hl |]);
    destruct last as [| b |]; cbn [accepted] in Hl; try discriminate Hl;
    rewrite ?Hl;
    cbn [props set_props Prop_.question with_resolution];
    rewrite ?set_resolution_twice; try reflexivity; now eexists.
Qed.

Lemma last_resolution_wins_witness :
  admin_resolve_prop 1 (Digits 2) true
    (store_after (admin_resolve_prop 1 (Digits 1) true two_props_store))
  = admin_resolve_prop 1 (Digits 2) true two_props_store
  /\ exists e,
       admin_resolve_prop 1 (Digits (2 ^ 63)) true
         (store_after (admin_resolve_prop 1 (Digits 1) true two_props_store))
       = Failed e
           (store_after (admin_resolve_prop 1 (Digits 1) true two_props_store)).
Proof.
  split.
  - apply (proj1 (last_resolution_wins two_props_store 1 (Digits 1)
                                       (Digits 2))).
    reflexivity.
  - apply (proj2 (last_resolution_wins two_props_store 1 (Digits 1)
                                       (Digits (2 ^ 63)))).
    + reflexivity.
    + discriminate.
Defined.

(** ** Moving back *)

Lemma nth_error_middle {A : Type} (l1 r : list A) (a : A) :
  nth_error (l1 ++ a :: r) (List.length l1) = Some a.
Proof.
  induction l1 as [| x l1 IH]; [reflexivity | exact IH].
Qed.

Lemma nth_error_middle_next {A : Type} (l1 r : list A) (a b : A) :
  nth_error (l1 ++ a :: b :: r) (S (List.length l1)) = Some b.
Proof.
  induction l1 as [| x l1 IH]; [reflexivity | exact IH].
Qed.

Lemma current_index_middle (x : Z) (l1 r : list Prop_.t) (q : Prop_.t) :
  (forall p, In p l1 -> Prop_.id p <> x) -> Prop_.id q = x ->
  current_index x (l1 ++ q :: r) = Some (List.length l1).
Proof.
  intros H Hq. induction l1 as [| p l1 IH]; simpl.
  - now rewrite Hq, Z.eqb_refl.
  - destruct (Z.eqb_spec (Prop_.id p) x) as [E | _].
    + exfalso. apply (H p); [now left | exact E].
    + rewrite IH; [reflexivity |]. intros p0 Hp0. apply H. now right.
Qed.

Lemma move_up_store (s : Store) (prop_id : Z) (k : nat) (q other : Prop_.t) :
  NoDup (map Prop_.id (props s)) ->
  current_index prop_id (ordered_props s) = Some (S k) ->
  nth_error (ordered_props s) (S k) = Some q ->
  nth_error (ordered_props s) k = Some other ->
  Prop_.order other <> Prop_.order q ->
  store_after (admin_move_prop prop_id "up" true s)
  = set_props s (swap_orders q other (-1) (props s)).
Proof.
  intros Nid Hi Hq Ho Hords.
  destruct (current_index_nth _ _ _ Hi) as [q' [Hq' Hid]].
  assert (q' = q) by congruence. subst q'.
  unfold admin_move_prop, admin_required, admin_move_prop_view.
  rewrite (found_is_indexed s prop_id _ q Nid Hq Hid), Hi.
  cbn [String.eqb Ascii.eqb Bool.eqb andb Nat.ltb Nat.leb].
  replace (S k - 1)%nat with k by lia.
  now rewrite Ho, (commit_swap_distinct _ _ _ _ Hords).
Qed.

Lemma move_down_store (s : Store) (prop_id : Z) (k : nat)
  (q other : Prop_.t) :
  NoDup (map Prop_.id (props s)) ->
  current_index prop_id (ordered_props s) = Some k ->
  nth_error (ordered_props s) k = Some q ->
  nth_error (ordered_props s) (S k) = Some other ->
  Prop_.order other <> Prop_.order q ->
  store_after (admin_move_prop prop_id "down" true s)
  = set_props s (swap_orders q other 1 (props s)).
Proof.
  intros Nid Hi Hq Ho Hords.
  destruct (current_index_nth _ _ _ Hi) as [q' [Hq' Hid]].
  assert (q' = q) by congruence. subst q'.
  assert (Hlt : (k <? List.length (ordered_props s) - 1)%nat = true).
  { apply Nat.ltb_lt.
    assert (S k < List.length (ordered_props s))%nat; [| lia].
    apply nth_error_Some. congruence. }
  unfold admin_move_prop, admin_required, admin_move_prop_view.
  rewrite (found_is_indexed s prop_id _ q Nid Hq Hid), Hi.
  cbn [String.eqb Ascii.eqb Bool.eqb andb].
  rewrite Hlt. replace (k + 1)%nat with (S k) by lia.
  now rewrite Ho, (commit_swap_distinct _ _ _ _ Hords).
Qed.

Lemma with_order_same (p : Prop_.t) : with_order p (Prop_.order p) = p.
Proof. now destruct p. Qed.

Lemma set_props_same (s : Store) : set_props s (props s) = s.
Proof. now destruct s. Qed.

Lemma set_props_twice (s : Store) (l l' : list Prop_.t) :
  set_props (set_props s l) l' = set_props s l'.
Proof. reflexivity. Qed.

(** Two rows that exchanged their orders get them back by the same
    exchange, whatever the nudges. *)
Lemma moved_back (l : list Prop_.t) (a b : Prop_.t) (n m : Z) :
  NoDup (map Prop_.id l) -> In a l -> In b l ->
  Prop_.id a <> Prop_.id b -> Prop_.order a <> Prop_.order b ->
  map (moved (with_order a (Prop_.order b)) (with_order b (Prop_.order a)) m)
      (map (moved a b n) l)
  = l.
Proof.
  intros N Ha Hb Hid Hord. rewrite map_map. apply map_id_on.
  intros p Hp. unfold moved at 2.
  destruct (Z.eqb_spec (Prop_.id p) (Prop_.id a)) as [Ea | Ea].
  - assert (p = a) by (apply (NoDup_map_inj Prop_.id l); auto). subst p.
    destruct (Z.eqb_spec (Prop_.order b) (Prop_.order a)); [congruence |].
    unfold moved. cbn [Prop_.id Prop_.order with_order].
    rewrite Z.eqb_refl.
    destruct (Z.eqb_spec (Prop_.order a) (Prop_.order b)); [congruence |].
    now destruct a.
  - destruct (Z.eqb_spec (Prop_.id p) (Prop_.id b)) as [Eb | Eb].
    + assert (p = b) by (apply (NoDup_map_inj Prop_.id l); auto). subst p.
      unfold moved. cbn [Prop_.id Prop_.order with_order].
      destruct (Z.eqb_spec (Prop_.id b) (Prop_.id a)); [congruence |].
      rewrite Z.eqb_refl. now destruct b.
    + unfold moved. cbn [Prop_.id with_order].
      destruct (Z.eqb_spec (Prop_.id p) (Prop_.id a)); [contradiction |].
      now destruct (Z.eqb_spec (Prop_.id p) (Prop_.id b)).
Qed.

Lemma prefix_ids_differ (l1 l2 : list Prop_.t) (a b : Prop_.t) :
  NoDup (map Prop_.id (l1 ++ a :: b :: l2)) ->
  forall p, In p l1 -> Prop_.id p <> Prop_.id a /\ Prop_.id p <> Prop_.id b.
Proof.
  rewrite map_app. cbn [map]. intros N p Hp.
  pose proof (NoDup_remove_2 _ _ _ N) as Ha.
  assert (Hb : ~ In (Prop_.id b)
                 ((map Prop_.id l1 ++ [Prop_.id a]) ++ map Prop_.id l2)).
  { apply NoDup_remove_2. rewrite <- app_assoc. exact N. }
  split; intros E.
  - apply Ha, in_or_app. left. rewrite <- E. now apply in_map.
  - apply Hb, in_or_app. left. apply in_or_app. left.
    rewrite <- E. now apply in_map.
Qed.

Lemma move_up_then_down (s : Store) (prop_id : Z) (k : nat) :
  NoDup (map Prop_.id (props s)) -> NoDup (map Prop_.order (props s)) ->
  current_index prop_id (ordered_props s) = Some (S k) ->
  store_after
    (admin_move_prop prop_id "down" true
       (store_after (admin_move_prop prop_id "up" true s)))
  = s.
Proof.
  intros Nid Nord Hi.
  destruct (move_up_sorted s Nid Nord prop_id k Hi)
    as [l1 [l2 [q [other [EL [Hlen E']]]]]].
  pose proof (ordered_NoDup Prop_.id s Nid) as Nid'.
  pose proof (ordered_NoDup Prop_.order s Nord) as Nord'.
  rewrite EL in Nid', Nord'.
  pose proof (neighbours_differ _ _ _ _ _ Nid') as Hids.
  pose proof (neighbours_differ _ _ _ _ _ Nord') as Hords.
  assert (Ho : nth_error (ordered_props s) k = Some other)
    by (rewrite EL, <- Hlen; apply nth_error_middle).
  assert (Hq : nth_error (ordered_props s) (S k) = Some q)
    by (rewrite EL, <- Hlen; apply nth_error_middle_next).
  assert (Hid : Prop_.id q = prop_id).
  { destruct (current_index_nth _ _ _ Hi) as [q0 [Hq0 Hid0]]. congruence. }
  destruct (handle_props_distinct true (AdminMoveProp prop_id "up") s
              (conj Nid Nord)) as [Nid1 _].
  cbn [handle] in Nid1.
  pose proof (move_up_store s prop_id k q other Nid Hi Hq Ho Hords) as Es1.
  rewrite Es1 in *.
  set (s1 := set_props s (swap_orders q other (-1) (props s))) in *.
  assert (Hi1 : current_index prop_id (ordered_props s1) = Some k).
  { rewrite E', <- Hlen. apply current_index_middle; [| exact Hid].
    intros p Hp. rewrite <- Hid.
    now apply (prefix_ids_differ _ _ _ _ Nid' p Hp). }
  rewrite (move_down_store s1 prop_id k
             (with_order q (Prop_.order other))
             (with_order other (Prop_.order q)) Nid1 Hi1).
  - subst s1. cbn [props set_props].
    rewrite (swap_orders_moved q other) by congruence.
    rewrite swap_orders_moved by (cbn [Prop_.id with_order]; congruence).
    rewrite moved_back; auto.
    + rewrite set_props_twice. apply set_props_same.
    + apply (Permutation_in _ (ordered_props_perm s)).
      now apply nth_error_In in Hq.
    + apply (Permutation_in _ (ordered_props_perm s)).
      now apply nth_error_In in Ho.
  - rewrite E', <- Hlen. apply nth_error_middle.
  - rewrite E', <- Hlen. apply nth_error_middle_next.
  - cbn [Prop_.order with_order]. congruence.
Qed.

Lemma move_down_then_up (s : Store) (prop_id : Z) (k : nat) :
  NoDup (map Prop_.id (props s)) -> NoDup (map Prop_.order (props s)) ->
  current_index prop_id (ordered_props s) = Some k ->
  (S k < List.length (ordered_props s))%nat ->
  store_after
    (admin_move_prop prop_id "up" true
       (store_after (admin_move_prop prop_id "down" true s)))
  = s.
Proof.
  intros Nid Nord Hi Hlast.
  destruct (move_down_sorted s Nid Nord prop_id k Hi Hlast)
    as [l1 [l2 [q [other [EL [Hlen E']]]]]].
  pose proof (ordered_NoDup Prop_.id s Nid) as Nid'.
  pose proof (ordered_NoDup Prop_.order s Nord) as Nord'.
  rewrite EL in Nid', Nord'.
  pose proof (neighbours_differ _ _ _ _ _ Nid') as Hids.
  pose proof (neighbours_differ _ _ _ _ _ Nord') as Hords.
  assert (Hq : nth_error (ordered_props s) k = Some q)
    by (rewrite EL, <- Hlen; apply nth_error_middle).
  assert (Ho : nth_error (ordered_props s) (S k) = Some other)
    by (rewrite EL, <- Hlen; apply nth_error_middle_next).
  assert (Hid : Prop_.id q = prop_id).
  { destruct (current_index_nth _ _ _ Hi) as [q0 [Hq0 Hid0]]. congruence. }
  destruct (handle_props_distinct true (AdminMoveProp prop_id "down") s
              (conj Nid Nord)) as [Nid1 _].
  cbn [handle] in Nid1.
  assert (Hords' : Prop_.order other <> Prop_.order q) by congruence.
  pose proof (move_down_store s prop_id k q other Nid Hi Hq Ho Hords') as Es1.
  rewrite Es1 in *.
  set (s1 := set_props s (swap_orders q other 1 (props s))) in *.
  assert (Hi1 : current_index prop_id (ordered_props s1) = Some (S k)).
  { rewrite E', <- Hlen.
    change (l1 ++ with_order other (Prop_.order q)
               :: with_order q (Prop_.order other) :: l2)
      with (l1 ++ [with_order other (Prop_.order q)]
               ++ with_order q (Prop_.order other) :: l2).
    rewrite app_assoc.
    replace (S (List.length l1))
      with (List.length (l1 ++ [with_order other (Prop_.order q)]))
      by (rewrite length_app; simpl; lia).
    apply current_index_middle; [| exact Hid].
    intros p Hp. rewrite <- Hid. apply in_app_or in Hp.
    destruct Hp as [Hp | [<- | []]].
    - now apply (prefix_ids_differ _ _ _ _ Nid' p Hp).
    - cbn [Prop_.id with_order]. congruence. }
  rewrite (move_up_store s1 prop_id k
             (with_order q (Prop_.order other))
             (with_order other (Prop_.order q)) Nid1 Hi1).
  - subst s1. cbn [props set_props].
    rewrite (swap_orders_moved q other) by congruence.
    rewrite swap_orders_moved by (cbn [Prop_.id with_order]; congruence).
    rewrite moved_back; auto.
    + rewrite set_props_twice. apply set_props_same.
    + apply (Permutation_in _ (ordered_props_perm s)).
      now apply nth_error_In in Hq.
    + apply (Permutation_in _ (ordered_props_perm s)).
      now apply nth_error_In in Ho.
  - rewrite E', <- Hlen. apply nth_error_middle_next.
  - rewrite E', <- Hlen. apply nth_error_middle.
  - cbn [Prop_.order with_order]. congruence.
Qed.

(** X14: in a reachable store a move is undone by the opposite move: moving
    a prop that is not first up and then down, or a prop that is not last
    down and then up, gives back the store as it was. *)
Theorem opposite_moves_cancel (s : Store) (prop_id : Z) (k : nat) :
  reachable s ->
  (current_index prop_id (ordered_props s) = Some (S k) ->
   store_after
     (admin_move_prop prop_id "down" true
        (store_after (admin_move_prop prop_id "up" true s)))
   = s)
  /\ (current_index prop_id (ordered_props s) = Some k ->
      (S k < List.length (ordered_props s))%nat ->
      store_after
        (admin_move_prop prop_id "up" true
           (store_after (admin_move_prop prop_id "down" true s)))
      = s).
Proof.
  intros H. destruct (reachable_props_distinct s H) as [Nid Nord]. split.
  - now apply move_up_then_down.
  - now apply move_down_then_up.
Qed.

Lemma opposite_moves_cancel_witness :
  store_after
    (admin_move_prop 2 "down" true
       (store_after (admin_move_prop 2 "up" true two_props_store)))
  = two_props_store.
Proof.
  apply (proj1 (opposite_moves_cancel two_props_store 2 O
                  (reachable_run _ _ reach_init))).
  reflexivity.
Defined.

(** ** The standings page *)

Lemma score_loop_ok_props (s : Store) (l : list Pick.t) (total n : Z) :
  score_loop s l total = Ok n ->
  forall k, In k l -> pick_prop s k <> None.
Proof.
  revert total. induction l as [| pick rest IH]; intros total H k Hk;
    [destruct Hk |].
  simpl in H. destruct (pick_prop s pick) as [prop |] eqn:E;
    [| discriminate].
  destruct Hk as [<- | Hk]; [congruence |].
  destruct (Prop_.resolved prop && _).
  - destruct (pick_answer s pick); [| discriminate]. now apply (IH _ H).
  - now apply (IH _ H).
Qed.

Lemma count_correct_ok (s : Store) (l : list Pick.t) :
  (forall k, In k l -> pick_prop s k <> None) ->
  count_correct s l = Ok (Z.of_nat (List.length (filter (matches s) l))).
Proof.
  induction l as [| pick rest IH]; intros H; [reflexivity |].
  cbn [count_correct filter]. unfold matches at 1.
  pose proof (H pick (or_introl eq_refl)) as Hp.
  destruct (pick_prop s pick) as [prop |]; [| congruence].
  rewrite IH by (intros k Hk; apply H; now right).
  destruct (Prop_.resolved prop && _); [| reflexivity].
  cbn [List.length]. f_equal. lia.
Qed.

Lemma standing_rows_ok (s : Store) (l : list Entry.t) :
  (forall e, In e l -> exists n, calculate_score s e = Ok n) ->
  standing_rows s l = Ok (map (standing_row_of s) l).
Proof.
  induction l as [| e r IH]; intros H; [reflexivity |].
  cbn [standing_rows map]. destruct (H e (or_introl eq_refl)) as [n Hn].
  rewrite Hn.
  rewrite count_correct_ok
    by (unfold calculate_score in Hn; now apply (score_loop_ok_props _ _ _ _ Hn)).
  rewrite IH by (intros; apply H; now right).
  unfold standing_row_of at 2, correct_count.
  now rewrite (calculate_score_ok _ _ _ Hn).
Qed.

Lemma insert_row_perm (x : StandingRow) (l : list StandingRow) :
  Permutation (insert_row x l) (x :: l).
Proof.
  induction l as [| y r IH]; simpl; [apply Permutation_refl |].
  destruct (sr_score y <=? sr_score x); [apply Permutation_refl |].
  apply perm_trans with (y :: x :: r); [now apply perm_skip | apply perm_swap].
Qed.

Lemma sort_rows_perm (l : list StandingRow) : Permutation (sort_rows l) l.
Proof.
  induction l as [| x r IH]; simpl; [apply perm_nil |].
  apply perm_trans with (x :: sort_rows r);
    [apply insert_row_perm | now apply perm_skip].
Qed.

Lemma add_ranks_rows (i : Z) (l : list StandingRow) :
  map rr_row (add_ranks i l) = l.
Proof.
  revert i. induction l as [| x r IH]; intros i; [reflexivity |].
  simpl. now rewrite IH.
Qed.

Lemma add_ranks_ranks (i : Z) (l : list StandingRow) :
  map rr_rank (add_ranks i l)
  = map (fun j => i + Z.of_nat j) (seq 1 (List.length l)).
Proof.
  revert i. induction l as [| x r IH]; intros i; [reflexivity |].
  cbn [add_ranks map List.length seq rr_rank]. f_equal.
  rewrite IH, <- (seq_shift (List.length r) 1), map_map.
  apply map_ext. intros j. lia.
Qed.

(** The two sorts put the entries in the same order. *)
Lemma sort_rows_standings (l : list StandingRow) :
  map row_standing (add_ranks 0 (sort_rows l))
  = sort_standings
      (map (fun x => mkStanding (Entry.name (sr_entry x)) (sr_score x)
                                (Entry.id (sr_entry x))) l).
Proof.
  assert (Hmap : forall i rows,
            map row_standing (add_ranks i rows)
            = map (fun x => mkStanding (Entry.name (sr_entry x)) (sr_score x)
                                       (Entry.id (sr_entry x))) rows).
  { intros i rows. revert i.
    induction rows as [| x r IH]; intros i; [reflexivity |].
    simpl. now rewrite IH. }
  rewrite Hmap. induction l as [| x r IH]; [reflexivity |].
  cbn [sort_rows sort_standings fold_right map].
  fold (sort_rows r).
  fold (sort_standings
          (map (fun x0 => mkStanding (Entry.name (sr_entry x0)) (sr_score x0)
                                     (Entry.id (sr_entry x0))) r)).
  rewrite <- IH. generalize (sort_rows r) as rows. intros rows.
  induction rows as [| y rows IHr]; [reflexivity |].
  cbn [insert_row insert_standing map st_score].
  destruct (sr_score y <=? sr_score x); [reflexivity |].
  cbn [map]. now rewrite IHr.
Qed.

(** X15: with the settings row in place and [calculate_score] returning for
    every entry, the standings page lists every entry once with its score
    and its number of correct picks, ranks them 1, 2, ... in the listed
    order, scores descending, and shows the entries in the order and with
    the scores of the JSON standings. *)
Theorem standings_page_ranks (s : Store) (st : Settings) :
  settings s = Some st ->
  (forall e, In e (entries s) -> exists n, calculate_score s e = Ok n) ->
  exists rows,
    standings s
    = Page (mkStandingsPage rows st (count_props s) (count_resolved s)) s
    /\ map rr_rank rows = map Z.of_nat (seq 1 (List.length (entries s)))
    /\ Permutation (map rr_row rows) (map (standing_row_of s) (entries s))
    /\ descending (map row_standing rows)
    /\ (game_started st = true ->
        api_standings s
        = Done None
               (Jsonify (StandingsBody (map row_standing rows)
                                       (count_resolved s) (count_props s))
                        200) s).
Proof.
  intros Hst Hok. unfold standings, api_standings, get_settings.
  rewrite Hst, (standing_rows_ok s _ Hok), (standings_loop_ok s _ Hok).
  eexists. split; [reflexivity |].
  assert (Hsame : map row_standing
                      (add_ranks 0 (sort_rows (map (standing_row_of s)
                                                   (entries s))))
                  = sort_standings (map (standing_of s) (entries s))).
  { rewrite sort_rows_standings, map_map. reflexivity. }
  split; [| split; [| split]].
  - rewrite add_ranks_ranks.
    rewrite (Permutation_length (sort_rows_perm _)), length_map.
    apply map_ext. intros j. lia.
  - rewrite add_ranks_rows. apply sort_rows_perm.
  - rewrite Hsame. apply sort_standings_descending.
  - intros ->. cbn [negb]. now rewrite Hsame.
Qed.

Lemma standings_page_ranks_witness :
  exists rows,
    standings resolved_store
    = Page (mkStandingsPage rows (mkSettings true true) 1 1) resolved_store
    /\ map rr_rank rows = [1].
Proof.
  destruct (standings_page_ranks resolved_store (mkSettings true true)
              eq_refl) as [rows [E [R _]]].
  - intros e [<- | []]. now exists 1.
  - exists rows. split; [exact E | exact R].
Defined.

Lemma same_entry_prop_ids (c : Z) (l : list Pick.t) :
  (forall k, In k l -> Pick.entry_id k = c) ->
  NoDup (map pick_key l) -> NoDup (map Pick.prop_id l).
Proof.
  induction l as [| a r IH]; simpl; intros Hc N; [constructor |].
  inversion N as [| ? ? Na N']; subst.
  constructor; [| apply IH; auto].
  intros H. apply Na. apply in_map_iff in H. destruct H as [k [Ek Hk]].
  apply in_map_iff. exists k. split; [| exact Hk].
  unfold pick_key. rewrite Ek, (Hc k (or_intror Hk)), (Hc a (or_introl eq_refl)).
  reflexivity.
Qed.



(** ** The entry page *)

Lemma dict_get_set (x k : Z) (v : Pick.t) (d : list (Z * Pick.t)) :
  dict_get x (dict_set k v d) = if k =? x then Some v else dict_get x d.
Proof.
  unfold dict_get. induction d as [| [k' v'] r IH]; simpl.
  - now destruct (k =? x).
  - destruct (Z.eqb_spec k' k) as [-> | Hk]; simpl.
    + now destruct (k =? x).
    + destruct (Z.eqb_spec k' x) as [-> | Hx]; simpl.
      * destruct (Z.eqb_spec k x); [congruence | reflexivity].
      * exact IH.
Qed.

Lemma find_app_none {A : Type} (f : A -> bool) (l l' : list A) :
  find f l = None -> find f (l ++ l') = find f l'.
Proof.
  induction l as [| y r IH]; simpl; [reflexivity |].
  destruct (f y); [discriminate | exact IH].
Qed.

(** The dict holds for each prop the last pick on it. *)
Lemma fold_dict_get (x : Z) (l : list Pick.t) (d : list (Z * Pick.t)) :
  dict_get x (fold_left (fun d0 pick => dict_set (Pick.prop_id pick) pick d0)
                        l d)
  = match find (fun k => Pick.prop_id k =? x) (rev l) with
    | Some k => Some k
    | None => dict_get x d
    end.
Proof.
  revert d. induction l as [| a r IH]; intros d; [reflexivity |].
  cbn [fold_left rev]. rewrite IH, dict_get_set.
  destruct (find _ (rev r)) as [k |] eqn:E.
  - now rewrite (find_app_some _ _ _ _ E).
  - rewrite (find_app_none _ _ _ E). simpl.
    now destruct (Pick.prop_id a =? x).
Qed.

Lemma find_unique {A : Type} (key : A -> Z) (l : list A) (a : A) :
  NoDup (map key l) -> In a l ->
  find (fun b => key b =? key a) l = Some a.
Proof.
  intros N Ha. destruct (find _ l) as [b |] eqn:E.
  - apply find_some in E. destruct E as [Hb Hk]. apply Z.eqb_eq in Hk.
    f_equal. now apply (NoDup_map_inj key l).
  - apply (find_none _ _ E) in Ha. cbv beta in Ha.
    rewrite Z.eqb_refl in Ha. discriminate.
Qed.

(** X17: the entry page of a reachable store: an id no entry has gives a
    404, or [OverflowError] when it is outside 64 bits, and the store
    stays; for a known entry whose score is computed, the page carries the
    entry,
    the props in display order, the score, and a dict of picks in which
    every pick of the entry is found under its prop and nothing else is
    found. *)
Theorem entry_page_shows_every_pick (s : Store) (entry_id : Z) :
  reachable s ->
  (find_entry s entry_id = None ->
   (in_int64 entry_id = true -> entry_detail entry_id s = Missing s)
   /\ (in_int64 entry_id = false ->
       entry_detail entry_id s = Crashed OverflowError s))
  /\ (forall entry n,
        find_entry s entry_id = Some entry ->
        calculate_score s entry = Ok n ->
        exists st,
          settings s = Some st
          /\ entry_detail entry_id s
             = Page (mkEntryPage entry (ordered_props s) (picks_dict s entry)
                                 n st) s
          /\ (forall k, In k (entry_picks s entry) ->
                        dict_get (Pick.prop_id k) (picks_dict s entry)
                        = Some k)
          /\ (forall x k, dict_get x (picks_dict s entry) = Some k ->
                          In k (entry_picks s entry) /\ Pick.prop_id k = x)).
Proof.
  intros H.
  destruct (settings s) as [st |] eqn:Es;
    [| now apply reachable_settings in H].
  pose proof (reachable_consistent s H) as C.
  unfold entry_detail, get_settings. rewrite Es. split.
  - intros ->. split; now intros ->.
  - intros entry n -> ->. exists st.
    split; [reflexivity |]. split; [reflexivity |].
    assert (N : NoDup (map Pick.prop_id (entry_picks s entry))).
    { apply (same_entry_prop_ids (Entry.id entry)).
      - intros k Hk. unfold entry_picks in Hk. apply filter_In in Hk.
        now apply Z.eqb_eq.
      - unfold entry_picks. apply NoDup_map_filter.
        apply (one_pick_per_prop s C). }
    split.
    + intros k Hk. unfold picks_dict. rewrite fold_dict_get.
      rewrite (find_unique Pick.prop_id (rev (entry_picks s entry)) k).
      * reflexivity.
      * rewrite map_rev. now apply NoDup_rev.
      * now apply in_rev in Hk.
    + intros x k. unfold picks_dict. rewrite fold_dict_get.
      destruct (find _ (rev (entry_picks s entry))) as [k0 |] eqn:E;
        [| discriminate].
      intros [= <-]. apply find_some in E. destruct E as [Hin Hx].
      split; [now apply in_rev | now apply Z.eqb_eq].
Qed.

Lemma entry_page_shows_every_pick_witness :
  (exists st,
     settings resolved_store = Some st
     /\ entry_detail 1 resolved_store
        = Page (mkEntryPage ann (ordered_props resolved_store)
                            (picks_dict resolved_store ann) 1 st)
               resolved_store)
  /\ entry_detail 2 resolved_store = Missing resolved_store
  /\ entry_detail (2 ^ 63) resolved_store
     = Crashed OverflowError resolved_store.
Proof.
  split; [| split].
  - destruct (proj2 (entry_page_shows_every_pick resolved_store 1
                       (reachable_run _ _ reach_init))
                    ann 1 eq_refl eq_refl) as [st [Hs [E _]]].
    now exists st.
  - apply (proj1 (entry_page_shows_every_pick resolved_store 2
                    (reachable_run _ _ reach_init)));
      reflexivity.
  - apply (proj1 (entry_page_shows_every_pick resolved_store (2 ^ 63)
                    (reachable_run _ _ reach_init)));
      reflexivity.
Defined.

(** ** Gates *)

(** X18: starting the game closes the submissions: right after
    [start_game] every request to [/prop-sheet] is refused and writes
    nothing; a later [unlock_submissions] opens them again and leaves the
    game started. *)
Theorem start_game_closes_submissions (s : Store) :
  let s1 := store_after (admin_settings "start_game" true s) in
  let s2 := store_after (admin_settings "unlock_submissions" true s1) in
  (forall method form,
     prop_sheet method form s1
     = Done (Some SubmissionsClosed) (Redirect ep_index) s1)
  /\ started s2 = true /\ locked s2 = false
  /\ props s2 = props s /\ answers s2 = answers s
  /\ entries s2 = entries s /\ picks s2 = picks s.
Proof.
  unfold admin_settings, admin_required, admin_settings_view, get_settings.
  destruct (settings s) as [[g l] |]; cbn; repeat split; reflexivity.
Qed.

(** X19: the session gets the admin flag from a login request only by a
    POST with the configured password; any other login request leaves the
    flag as it was; a logout clears it, after which each of the seven admin
    requests is answered with a redirect to the login page and writes
    nothing. *)
Theorem login_grants_logout_revokes (secret password : string)
  (method : Method) (is_admin : bool) :
  (snd (admin_login secret method password is_admin) = true <->
   is_admin = true \/ (method = POST /\ password = secret))
  /\ (forall r s,
        is_admin_request r = true ->
        handle (snd (admin_logout is_admin)) r s
        = Done None (Redirect ep_admin_login) s).
Proof.
  split.
  - unfold admin_login. destruct method; simpl.
    + split; [now left | intros [H | [H _]]; [exact H | discriminate]].
    + destruct (String.eqb_spec password secret) as [E | E]; simpl.
      * split; [now right | reflexivity].
      * split; [now left | intros [H | [_ H]]; [exact H | contradiction]].
  - intros r s Hr. cbn [admin_logout snd].
    destruct r; try discriminate; reflexivity.
Qed.

Lemma login_grants_logout_revokes_witness :
  handle (snd (admin_logout true)) (AdminSettings "start_game") init_store
  = Done None (Redirect ep_admin_login) init_store.
Proof.
  apply (proj2 (login_grants_logout_revokes "seth2026" "guess" POST true)).
  reflexivity.
Defined.

(** ** Ties and computed scores *)

Lemma filter_insert_standing (c : Z) (x : Standing) (l : list Standing) :
  filter (fun y => st_score y =? c) (insert_standing x l)
  = filter (fun y => st_score y =? c) (x :: l).
Proof.
  induction l as [| y r IH]; [reflexivity |].
  cbn [insert_standing].
  destruct (Z.leb_spec (st_score y) (st_score x)) as [Hle | Hlt];
    [reflexivity |].
  cbn [filter] in *. rewrite IH.
  destruct (Z.eqb_spec (st_score x) c), (Z.eqb_spec (st_score y) c);
    try reflexivity.
  lia.
Qed.

Lemma sort_standings_stable (c : Z) (l : list Standing) :
  filter (fun y => st_score y =? c) (sort_standings l)
  = filter (fun y => st_score y =? c) l.
Proof.
  induction l as [| x r IH]; [reflexivity |].
  cbn [sort_standings fold_right]. fold (sort_standings r).
  rewrite filter_insert_standing. cbn [filter]. now rewrite IH.
Qed.

(** X20: ties in the JSON standings keep the order of the entries table:
    when the game is started and every score is computed, the records with
    any given score appear in the reply in the order of their entries. *)
Theorem standings_ties_keep_table_order (s : Store) (c : Z) :
  started s = true ->
  (forall e, In e (entries s) -> exists n, calculate_score s e = Ok n) ->
  exists data,
    api_standings s
    = Done None (Jsonify (StandingsBody data (count_resolved s)
                                        (count_props s)) 200) s
    /\ filter (fun y => st_score y =? c) data
       = filter (fun y => st_score y =? c) (map (standing_of s) (entries s)).
Proof.
  intros Hs Hok. destruct (get_settings_started s Hs) as [st [E G]].
  unfold api_standings. rewrite E, G. simpl.
  rewrite (standings_loop_ok s (entries s) Hok).
  eexists. split; [reflexivity | apply sort_standings_stable].
Qed.

Lemma standings_ties_keep_table_order_witness :
  exists data,
    api_standings
      (run [AdminSettings "unlock_submissions"; PropSheet POST (sheet "Bob" 1)]
           resolved_store)
    = Done None (Jsonify (StandingsBody data 1 1) 200)
           (run [AdminSettings "unlock_submissions";
                 PropSheet POST (sheet "Bob" 1)] resolved_store)
    /\ filter (fun y => st_score y =? 1) data
       = [mkStanding "Ann" 1 1; mkStanding "Bob" 1 2].
Proof.
  apply (standings_ties_keep_table_order
           (run [AdminSettings "unlock_submissions";
                 PropSheet POST (sheet "Bob" 1)] resolved_store) 1).
  - reflexivity.
  - intros e [<- | [<- | []]]; now exists 1.
Defined.

Lemma score_loop_kept (s s' : Store) (l : list Pick.t) (total n : Z) :
  (forall x p, find_prop s x = Some p -> find_prop s' x = Some p) ->
  (forall a answer, find_answer s a = Some answer ->
                    find_answer s' a = Some answer) ->
  score_loop s l total = Ok n -> score_loop s' l total = Ok n.
Proof.
  intros Hp Ha. revert total.
  induction l as [| pick rest IH]; intros total; [trivial |].
  simpl. unfold pick_prop, pick_answer.
  destruct (find_prop s (Pick.prop_id pick)) as [p |] eqn:Ep;
    [| discriminate].
  rewrite (Hp _ _ Ep). destruct (Prop_.resolved p && _); [| apply IH].
  destruct (find_answer s (Pick.answer_id pick)) as [answer |] eqn:Ea;
    [| discriminate].
  rewrite (Ha _ _ Ea). apply IH.
Qed.

(** X21: adding a prop changes no computed score: whatever the method and
    the form, a score [calculate_score] returned before the request is the
    score it returns after it. *)
Theorem add_prop_keeps_scores (s : Store) (method : Method)
  (form : PropForm) (is_admin : bool) (e : Entry.t) (n : Z) :
  calculate_score s e = Ok n ->
  calculate_score (store_after (admin_add_prop method form is_admin s)) e
  = Ok n.
Proof.
  intros H. unfold admin_add_prop, admin_required, admin_add_prop_view.
  destruct is_admin; [| exact H].
  destruct method; [exact H |].
  destruct (negb _); [exact H |].
  destruct (negb _); [exact H |].
  destruct (add_answers _ _ _ _ _) as [tbl' |] eqn:Ea; [| exact H].
  destruct (forallb _ _); [| exact H].
  destruct (add_answers_created _ _ _ _ _ _ Ea) as [created [-> _]].
  cbn [store_after]. unfold calculate_score, entry_picks in *.
  cbn [picks set_answers set_props].
  apply (score_loop_kept s); [| | exact H].
  - intros x p Hx. unfold find_prop in *. cbn [props set_answers set_props].
    now apply find_app_some.
  - intros a answer Hx. unfold find_answer in *.
    cbn [answers set_answers set_props]. now apply find_app_some.
Qed.

Lemma add_prop_keeps_scores_witness :
  calculate_score
    (store_after (admin_add_prop POST heads_tails true resolved_store)) ann
  = Ok 1.
Proof.
  apply (add_prop_keeps_scores resolved_store POST heads_tails true ann 1).
  reflexivity.
Defined.
